(** * Window SqFt Estimator: annotation engine, measurement and pricing

    A shallow embedding of the React component [App] of the window
    square-foot estimator.  The component's [useState] cells and [useRef]
    cells become the fields of one [State] record, every event handler
    becomes a function [State -> State], and the [useMemo] values become
    pure functions of the cells they depend on.

    Numbers.  The component computes on JavaScript numbers.  The
    development has two models of them.  In the first a number is a
    rational ([Q]) and arithmetic is exact, so results are compared with
    [==] ([Qeq]); it carries the measurement and pricing formulas, the
    geometry and the structure of the annotation set.  A quotient by zero
    is 0 in [Q], where JavaScript goes on with an infinity or [NaN], so
    the second model, module [Js], embeds the annotation and viewport
    handlers once more over numbers that have these values.  On a run that
    meets no zero divisor the two models compute the same cells; the
    bounds on the scale of the view and on the committed rectangles are
    stated over [Js].  Rounding is outside both
    models: a finite number is an exact rational.  [Math.sqrt] is not a
    rational function and is a parameter of the development.

    Variants.  The main development follows the variant with the
    [resetView] helper (the file whose pricing section uses a retail high
    rate of 15).  Module [AppTsx] holds what [src/App.tsx] writes
    differently. *)

From Stdlib Require Import QArith Qabs Qminmax Qround Qfield Lqa Lia ZArith.
From Stdlib Require Import List Bool String DecimalString DecimalNat
  Permutation FinFun.
Import ListNotations.

Local Open Scope Q_scope.

(** ** JavaScript numbers as rationals *)

(** [a < b] as a test. *)
Definition Qltb (a b : Q) : bool := negb (Qle_bool b a).

(** [!v] for a value of type [number | null]: [null] and [0] are falsy. *)
Definition falsy (v : option Q) : bool :=
  match v with
  | None => true
  | Some q => Qeq_bool q 0
  end.

(** ** Data model *)

Inductive BoxType := reference | window.

Definition BoxType_eqb (a b : BoxType) : bool :=
  match a, b with
  | reference, reference => true
  | window, window => true
  | _, _ => false
  end.

Inductive Preset := paper | door | custom.

Module Box.
Record t := mk {
  id : string;
  type : BoxType;
  label : string;
  x : Q; (* in image pixel coords *)
  y : Q;
  w : Q;
  h : Q
}.
End Box.

Module Pt.
Record t := mk { x : Q; y : Q }.
End Pt.

(** [imageNatural]: the natural size of the loaded image. *)
Module Natural.
Record t := mk { w : Q; h : Q }.
End Natural.

Module View.
Record t := mk { scale : Q; tx : Q; ty : Q }.
End View.

(** What [canvas.getBoundingClientRect()] returns. *)
Module DOMRect.
Record t := mk { left : Q; top : Q; width : Q; height : Q }.
End DOMRect.

Module Pinch.
Record t := mk { dist : Q; mid : Pt.t; scale : Q; tx : Q; ty : Q }.
End Pinch.

(** The cells of the component.  [pointers] is a JavaScript [Map]: keys
    are unique and iteration follows insertion order, so it is an
    association list.  [canvasRect] belongs to the page layout; it is what
    [getBoundingClientRect] answers at the time of a call. *)
Record State := mkState {
  imageUrl : string;
  imageNatural : option Natural.t;
  boxes : list Box.t;
  activeDrawType : BoxType;
  dragStart : option Pt.t;
  draftBox : option Box.t;
  refPreset : Preset;
  refRealInches : Q;
  view : View.t;
  pointers : list (Z * Pt.t);
  pinchStart : option Pinch.t;
  canvasRect : DOMRect.t
}.

Definition setImageUrl (v : string) (s : State) : State :=
  mkState v (imageNatural s) (boxes s) (activeDrawType s) (dragStart s)
    (draftBox s) (refPreset s) (refRealInches s) (view s) (pointers s)
    (pinchStart s) (canvasRect s).

Definition setImageNatural (v : option Natural.t) (s : State) : State :=
  mkState (imageUrl s) v (boxes s) (activeDrawType s) (dragStart s)
    (draftBox s) (refPreset s) (refRealInches s) (view s) (pointers s)
    (pinchStart s) (canvasRect s).

(** [setBoxes] takes the updater function, as [setBoxes((prev) => ...)]. *)
Definition setBoxes (f : list Box.t -> list Box.t) (s : State) : State :=
  mkState (imageUrl s) (imageNatural s) (f (boxes s)) (activeDrawType s)
    (dragStart s) (draftBox s) (refPreset s) (refRealInches s) (view s)
    (pointers s) (pinchStart s) (canvasRect s).

Definition setActiveDrawType (v : BoxType) (s : State) : State :=
  mkState (imageUrl s) (imageNatural s) (boxes s) v (dragStart s)
    (draftBox s) (refPreset s) (refRealInches s) (view s) (pointers s)
    (pinchStart s) (canvasRect s).

Definition setDragStart (v : option Pt.t) (s : State) : State :=
  mkState (imageUrl s) (imageNatural s) (boxes s) (activeDrawType s) v
    (draftBox s) (refPreset s) (refRealInches s) (view s) (pointers s)
    (pinchStart s) (canvasRect s).

Definition setDraftBox (v : option Box.t) (s : State) : State :=
  mkState (imageUrl s) (imageNatural s) (boxes s) (activeDrawType s)
    (dragStart s) v (refPreset s) (refRealInches s) (view s) (pointers s)
    (pinchStart s) (canvasRect s).

Definition setRefPreset (v : Preset) (s : State) : State :=
  mkState (imageUrl s) (imageNatural s) (boxes s) (activeDrawType s)
    (dragStart s) (draftBox s) v (refRealInches s) (view s) (pointers s)
    (pinchStart s) (canvasRect s).

Definition setRefRealInches (v : Q) (s : State) : State :=
  mkState (imageUrl s) (imageNatural s) (boxes s) (activeDrawType s)
    (dragStart s) (draftBox s) (refPreset s) v (view s) (pointers s)
    (pinchStart s) (canvasRect s).

Definition setView (v : View.t) (s : State) : State :=
  mkState (imageUrl s) (imageNatural s) (boxes s) (activeDrawType s)
    (dragStart s) (draftBox s) (refPreset s) (refRealInches s) v
    (pointers s) (pinchStart s) (canvasRect s).

Definition setPointers (v : list (Z * Pt.t)) (s : State) : State :=
  mkState (imageUrl s) (imageNatural s) (boxes s) (activeDrawType s)
    (dragStart s) (draftBox s) (refPreset s) (refRealInches s) (view s) v
    (pinchStart s) (canvasRect s).

Definition setPinchStart (v : option Pinch.t) (s : State) : State :=
  mkState (imageUrl s) (imageNatural s) (boxes s) (activeDrawType s)
    (dragStart s) (draftBox s) (refPreset s) (refRealInches s) (view s)
    (pointers s) v (canvasRect s).

Definition setCanvasRect (v : DOMRect.t) (s : State) : State :=
  mkState (imageUrl s) (imageNatural s) (boxes s) (activeDrawType s)
    (dragStart s) (draftBox s) (refPreset s) (refRealInches s) (view s)
    (pointers s) (pinchStart s) v.

(** The values of the [useState] and [useRef] calls. *)
Definition initialState (r : DOMRect.t) : State :=
  mkState EmptyString None [] reference None None paper 11 (View.mk 1 0 0) [] None r.

(** ** Measurement engine (the [useMemo] values) *)

Definition referenceBox (boxes : list Box.t) : option Box.t :=
  find (fun b => BoxType_eqb (Box.type b) reference) boxes.

Definition pixelsPerInch (referenceBox : option Box.t) (refRealInches : Q)
  : option Q :=
  match referenceBox with
  | None => None
  | Some rb =>
      let real := if Qltb 0 refRealInches then Some refRealInches else None in
      if falsy real then None
      else match real with
           | Some r => Some (Box.h rb / r) (* use height axis *)
           | None => None
           end
  end.

Definition windowBoxes (boxes : list Box.t) : list Box.t :=
  filter (fun b => BoxType_eqb (Box.type b) window) boxes.

Definition windowSqft (pixelsPerInch : option Q) (windowBoxes : list Box.t)
  : option Q :=
  if falsy pixelsPerInch then None
  else match pixelsPerInch with
       | Some ppi =>
           Some (fold_left
                   (fun total b =>
                      let wIn := Box.w b / ppi in
                      let hIn := Box.h b / ppi in
                      total + (wIn * hIn) / 144)
                   windowBoxes 0)
       | None => None
       end.

(** The memo values read off a state. *)
Definition pixelsPerInchOf (s : State) : option Q :=
  pixelsPerInch (referenceBox (boxes s)) (refRealInches s).

Definition windowSqftOf (s : State) : option Q :=
  windowSqft (pixelsPerInchOf s) (windowBoxes (boxes s)).

(** ** Pricing engine (the "Retail & Commission" card) *)

Module Quote.
Record t := mk {
  sqft : Q;
  solarTotal : Q;
  retailLowTotal : Q;
  retailHighTotal : Q;
  commissionLow : Q;
  commissionHigh : Q
}.
End Quote.

Definition SOLAR_PER_SQFT : Q := 12.
Definition RETAIL_LOW_PER_SQFT : Q := 14.
Definition RETAIL_HIGH_PER_SQFT : Q := 15.

(** The card shows the "Draw a reference + at least one window" notice
    ([None]) or the figures of the quote. *)
Definition retailAndCommission (windowSqft pixelsPerInch : option Q)
  : option Quote.t :=
  if falsy windowSqft || falsy pixelsPerInch then None
  else match windowSqft with
       | Some sqft =>
           let solarTotal := sqft * SOLAR_PER_SQFT in
           let retailLowTotal := sqft * RETAIL_LOW_PER_SQFT in
           let retailHighTotal := sqft * RETAIL_HIGH_PER_SQFT in
           let commissionLow := retailLowTotal - solarTotal in
           let commissionHigh := retailHighTotal - solarTotal in
           Some (Quote.mk sqft solarTotal retailLowTotal retailHighTotal
                   commissionLow commissionHigh)
       | None => None
       end.

Definition retailAndCommissionOf (s : State) : option Quote.t :=
  retailAndCommission (windowSqftOf s) (pixelsPerInchOf s).

(** ** Geometry and viewport transform *)

Definition mid (a b : Pt.t) : Pt.t :=
  Pt.mk ((Pt.x a + Pt.x b) / 2) ((Pt.y a + Pt.y b) / 2).

Definition clampScale (s : Q) : Q :=
  Qmax 1 (Qmin 6 s). (* min 1x, max 6x *)

Module Info.
Record t := mk {
  rect : DOMRect.t;
  baseW : Q;
  baseH : Q;
  baseOffsetX : Q;
  baseOffsetY : Q;
  baseScale : Q
}.
End Info.

(** [canvasRef.current] and [imgRef.current] are set while the canvas and
    the hidden image are rendered, which is while [imageUrl] is not
    empty. *)
Definition mounted (s : State) : bool :=
  negb (String.eqb (imageUrl s) EmptyString).

(** Base "contain" geometry for mapping image px -> base canvas px (before
    zoom).  Exact where the natural size and the canvas size are not 0;
    [Js.getCanvasAndImageScale] is the same function where one is. *)
Definition getCanvasAndImageScale (s : State) : option Info.t :=
  if negb (mounted s) then None
  else match imageNatural s with
       | None => None
       | Some nat =>
           let rect := canvasRect s in
           let displayW := DOMRect.width rect in
           let displayH := DOMRect.height rect in
           let imgAspect := Natural.w nat / Natural.h nat in
           let canvasAspect := displayW / displayH in
           if Qltb canvasAspect imgAspect then
             let baseW := displayW in
             let baseH := displayW / imgAspect in
             let baseOffsetY := (displayH - baseH) / 2 in
             Some (Info.mk rect baseW baseH 0 baseOffsetY
                     (baseW / Natural.w nat))
           else
             let baseH := displayH in
             let baseW := displayH * imgAspect in
             let baseOffsetX := (displayW - baseW) / 2 in
             Some (Info.mk rect baseW baseH baseOffsetX 0
                     (baseW / Natural.w nat))
       end.

(** Exact where the view scale and the base scale are not 0 (and are
    numbers); [Js.canvasPointToImagePoint] is the same function where one
    of them is 0 or [NaN]. *)
Definition canvasPointToImagePoint (s : State) (clientX clientY : Q)
  : option Pt.t :=
  match getCanvasAndImageScale s, imageNatural s with
  | Some info, Some nat =>
      (* Pointer in canvas CSS pixels *)
      let xCanvas := clientX - DOMRect.left (Info.rect info) in
      let yCanvas := clientY - DOMRect.top (Info.rect info) in
      (* remove base contain offset *)
      let xInBase := xCanvas - Info.baseOffsetX info in
      let yInBase := yCanvas - Info.baseOffsetY info in
      (* undo zoom/pan (view transform is in base space) *)
      let xUnzoom := (xInBase - View.tx (view s)) / View.scale (view s) in
      let yUnzoom := (yInBase - View.ty (view s)) / View.scale (view s) in
      (* base px -> image px *)
      let xImg := xUnzoom / Info.baseScale info in
      let yImg := yUnzoom / Info.baseScale info in
      if Qltb xImg 0 || Qltb yImg 0 then None
      else if Qltb (Natural.w nat) xImg || Qltb (Natural.h nat) yImg then None
      else Some (Pt.mk xImg yImg)
  | _, _ => None
  end.

(** The arguments that [drawBox] hands to [ctx.strokeRect], in canvas CSS
    pixels. *)
Module StrokeRect.
Record t := mk { x : Q; y : Q; w : Q; h : Q }.
End StrokeRect.

Definition drawBox (info : Info.t) (view : View.t) (b : Box.t)
  : StrokeRect.t :=
  let xBase := Box.x b * Info.baseScale info in
  let yBase := Box.y b * Info.baseScale info in
  let wBase := Box.w b * Info.baseScale info in
  let hBase := Box.h b * Info.baseScale info in
  let x := Info.baseOffsetX info + View.tx view + xBase * View.scale view in
  let y := Info.baseOffsetY info + View.ty view + yBase * View.scale view in
  let w := wBase * View.scale view in
  let h := hBase * View.scale view in
  StrokeRect.mk x y w h.

(** Where a canvas point is met by a pointer: the page places the canvas
    at the origin of its bounding rectangle, which is what
    [canvasPointToImagePoint] subtracts again. *)
Definition clientOfCanvas (r : DOMRect.t) (cx cy : Q) : Pt.t :=
  Pt.mk (DOMRect.left r + cx) (DOMRect.top r + cy).

(** ** Annotation store and drawing gestures *)

Definition resetAll (s : State) : State :=
  setDragStart None (setDraftBox None (setBoxes (fun _ => []) s)).

Definition resetView (s : State) : State :=
  setView (View.mk 1 0 0) s.

(** [f] is [e.target.files?.[0]], already turned into its object URL. *)
Definition onFileChange (f : option string) (s : State) : State :=
  match f with
  | None => s
  | Some url => resetView (resetAll (setImageUrl url s))
  end.

Definition syncRefPreset (p : Preset) (s : State) : State :=
  let s1 := setRefPreset p s in
  let s2 := match p with paper => setRefRealInches 11 s1 | _ => s1 end in
  match p with door => setRefRealInches 80 s2 | _ => s2 end.

(** The [onLoad] handler of the hidden image. *)
Definition onLoad (naturalWidth naturalHeight : Q) (s : State) : State :=
  setImageNatural (Some (Natural.mk naturalWidth naturalHeight)) s.

(** Template literal [`Window ${n}`]. *)
Definition windowLabel (n : nat) : string :=
  ("Window " ++ NilEmpty.string_of_uint (Nat.to_uint n))%string.

Definition handlePointerDown (clientX clientY : Q) (s : State) : State :=
  if String.eqb (imageUrl s) EmptyString then s
  else match canvasPointToImagePoint s clientX clientY with
       | None => s
       | Some pt =>
           let label :=
             match activeDrawType s with
             | reference =>
                 match refPreset s with
                 | paper => "Paper"%string
                 | door => "Door"%string
                 | custom => "Reference"%string
                 end
             | window =>
                 windowLabel (List.length (windowBoxes (boxes s)) + 1)
             end in
           setDraftBox
             (Some (Box.mk "draft" (activeDrawType s) label
                      (Pt.x pt) (Pt.y pt) 1 1))
             (setDragStart (Some pt) s)
       end.

Definition handlePointerMove (clientX clientY : Q) (s : State) : State :=
  match dragStart s, draftBox s with
  | Some ds, Some d =>
      match canvasPointToImagePoint s clientX clientY with
      | None => s
      | Some pt =>
          let x1 := Pt.x ds in
          let y1 := Pt.y ds in
          let x2 := Pt.x pt in
          let y2 := Pt.y pt in
          let x := Qmin x1 x2 in
          let y := Qmin y1 y2 in
          let w := Qabs (x2 - x1) in
          let h := Qabs (y2 - y1) in
          setDraftBox
            (Some (Box.mk (Box.id d) (Box.type d) (Box.label d) x y w h)) s
      end
  | _, _ => s
  end.

(** [{ ...draftBox, id: uid() }] *)
Definition withId (uid : string) (d : Box.t) : Box.t :=
  Box.mk uid (Box.type d) (Box.label d) (Box.x d) (Box.y d) (Box.w d)
    (Box.h d).

(** [uid] is the string that the call [uid()] returns when the draft is
    committed; it is built from [Math.random] and the clock, so it comes
    with the event. *)
Definition handlePointerUp (uid : string) (s : State) : State :=
  match draftBox s with
  | None => setDragStart None s
  | Some d =>
      if Qltb (Box.w d) 10 || Qltb (Box.h d) 10 then
        setDragStart None (setDraftBox None s)
      else
        let s1 :=
          match Box.type d with
          | reference =>
              setBoxes
                (fun prev =>
                   filter (fun b => negb (BoxType_eqb (Box.type b) reference))
                     prev ++ [withId uid d]) s
          | window => setBoxes (fun prev => prev ++ [withId uid d]) s
          end in
        setDragStart None (setDraftBox None s1)
  end.

Definition deleteBox (id : string) (s : State) : State :=
  setBoxes (filter (fun b => negb (String.eqb (Box.id b) id))) s.

(** ** The [pointers] map *)

Definition map_has (k : Z) (m : list (Z * Pt.t)) : bool :=
  existsb (fun kv => Z.eqb (fst kv) k) m.

(** [Map.prototype.set]: an existing key keeps its place, a new key goes
    last. *)
Fixpoint map_set (k : Z) (v : Pt.t) (m : list (Z * Pt.t))
  : list (Z * Pt.t) :=
  match m with
  | [] => [(k, v)]
  | (k', v') :: m' =>
      if Z.eqb k' k then (k, v) :: m' else (k', v') :: map_set k v m'
  end.

Definition map_delete (k : Z) (m : list (Z * Pt.t)) : list (Z * Pt.t) :=
  filter (fun kv => negb (Z.eqb (fst kv) k)) m.

(** [Array.from(pointers.current.values())] *)
Definition map_values (m : list (Z * Pt.t)) : list Pt.t := map snd m.

(** ** Gesture controller (the handlers of the canvas) *)

Inductive Event :=
| FileChange (f : option string)
| ImgLoad (naturalWidth naturalHeight : Q)
| Layout (r : DOMRect.t)
| PointerDown (pointerId : Z) (clientX clientY : Q)
| PointerMove (pointerId : Z) (clientX clientY : Q)
| PointerUp (pointerId : Z) (uid : string)
| PointerCancel (pointerId : Z)
| ClickClearBoxes
| ClickResetView
| ClickDrawReference
| ClickDrawWindows
| SelectPreset (p : Preset)
| InputRealInches (v : Q)
| ClickRemove (id : string).

Section Gestures.

Variable sqrt : Q -> Q.

Definition dist (a b : Pt.t) : Q :=
  let dx := Pt.x a - Pt.x b in
  let dy := Pt.y a - Pt.y b in
  sqrt (dx * dx + dy * dy).

Definition onPointerDown (pointerId : Z) (clientX clientY : Q) (s : State)
  : State :=
  let s1 :=
    setPointers (map_set pointerId (Pt.mk clientX clientY) (pointers s)) s in
  (* 2 pointers => pinch/2-finger pan *)
  if Nat.eqb (List.length (pointers s1)) 2 then
    match map_values (pointers s1) with
    | p0 :: p1 :: _ =>
        let d := dist p0 p1 in
        let m := mid p0 p1 in
        setDraftBox None
          (setDragStart None
             (setPinchStart
                (Some (Pinch.mk d m (View.scale (view s1)) (View.tx (view s1))
                         (View.ty (view s1))))
                s1))
    | _ => s1
    end
  else
    (* 1 pointer => draw *)
    handlePointerDown clientX clientY s1.

(** Exact where the baseline distance of the pinch is not 0;
    [Js.onPointerMove] is the same handler where it is. *)
Definition onPointerMove (pointerId : Z) (clientX clientY : Q) (s : State)
  : State :=
  if negb (map_has pointerId (pointers s)) then s
  else
    let s1 :=
      setPointers (map_set pointerId (Pt.mk clientX clientY) (pointers s)) s in
    match Nat.eqb (List.length (pointers s1)) 2, pinchStart s1,
          map_values (pointers s1) with
    | true, Some start, p0 :: p1 :: _ =>
        (* pinch *)
        let dNow := dist p0 p1 in
        let mNow := mid p0 p1 in
        let nextScale :=
          clampScale (Pinch.scale start * (dNow / Pinch.dist start)) in
        (* midpoint pan in screen space *)
        let dxMid := Pt.x mNow - Pt.x (Pinch.mid start) in
        let dyMid := Pt.y mNow - Pt.y (Pinch.mid start) in
        setView
          (View.mk nextScale (Pinch.tx start + dxMid) (Pinch.ty start + dyMid))
          s1
    | _, _, _ =>
        (* draw *)
        handlePointerMove clientX clientY s1
    end.

Definition onPointerUp (pointerId : Z) (uid : string) (s : State) : State :=
  let s1 := setPointers (map_delete pointerId (pointers s)) s in
  let s2 :=
    if Nat.ltb (List.length (pointers s1)) 2 then setPinchStart None s1
    else s1 in
  (* Only finalize draw if this was a 1-finger gesture and no pointers
     remain *)
  if Nat.eqb (List.length (pointers s2)) 0 then
    setPinchStart None (setPointers [] (handlePointerUp uid s2))
  else s2.

Definition onPointerCancel (pointerId : Z) (s : State) : State :=
  let s1 := setPointers (map_delete pointerId (pointers s)) s in
  setDraftBox None
    (setDragStart None (setPointers [] (setPinchStart None s1))).

(** One event of the page, handled to completion. *)
Definition step (s : State) (e : Event) : State :=
  match e with
  | FileChange f => onFileChange f s
  | ImgLoad nw nh => onLoad nw nh s
  | Layout r => setCanvasRect r s
  | PointerDown p cx cy => onPointerDown p cx cy s
  | PointerMove p cx cy => onPointerMove p cx cy s
  | PointerUp p uid => onPointerUp p uid s
  | PointerCancel p => onPointerCancel p s
  | ClickClearBoxes => resetAll s
  | ClickResetView => resetView s
  | ClickDrawReference => setActiveDrawType reference s
  | ClickDrawWindows => setActiveDrawType window s
  | SelectPreset p => syncRefPreset p s
  | InputRealInches v => setRefRealInches v s
  | ClickRemove id => deleteBox id s
  end.

Definition run (s : State) (es : list Event) : State :=
  fold_left step es s.

End Gestures.

(** ** What [src/App.tsx] does differently *)

Module AppTsx.

  (** No [resetView] here: the view cell is left as it is. *)
Definition onFileChange (f : option string) (s : State) : State :=
    match f with
    | None => s
    | Some url => resetAll (setImageUrl url s)
    end.

Definition SOLAR_PER_SQFT : Q := 12. (* fixed internal baseline *)
Definition RETAIL_LOW_PER_SQFT : Q := 14.
Definition RETAIL_HIGH_PER_SQFT : Q := 16.

Definition retailAndCommission (windowSqft pixelsPerInch : option Q)
    : option Quote.t :=
    if falsy windowSqft || falsy pixelsPerInch then None
    else match windowSqft with
         | Some sqft =>
             let solarTotal := sqft * SOLAR_PER_SQFT in
             let retailLowTotal := sqft * RETAIL_LOW_PER_SQFT in
             let retailHighTotal := sqft * RETAIL_HIGH_PER_SQFT in
             let commissionLow := retailLowTotal - solarTotal in
             let commissionHigh := retailHighTotal - solarTotal in
             Some (Quote.mk sqft solarTotal retailLowTotal retailHighTotal
                     commissionLow commissionHigh)
         | None => None
         end.

End AppTsx.

(** ** The measurement formulas as the specification words them *)

(** [areaSqFt(rect, ppi)]: [(rect.w / ppi) x (rect.h / ppi) / 144]. *)
Definition areaSqFt (rect : Box.t) (ppi : Q) : Q :=
  (Box.w rect / ppi) * (Box.h rect / ppi) / 144.

(** The sum of [areaSqFt] over a list of rectangles, 0 for the empty
    list. *)
Fixpoint sumAreaSqFt (rects : list Box.t) (ppi : Q) : Q :=
  match rects with
  | [] => 0
  | r :: rs => areaSqFt r ppi + sumAreaSqFt rs ppi
  end.

(** ** Predicates on the annotation set *)

Definition isReference (b : Box.t) : bool :=
  BoxType_eqb (Box.type b) reference.

Definition references (bs : list Box.t) : list Box.t :=
  filter isReference bs.

(** The minimum size of a committed rectangle. *)
Definition minSize (b : Box.t) : Prop :=
  10 <= Box.w b /\ 10 <= Box.h b.

(** A rectangle inside an image of the given natural size. *)
Definition withinImage (n : Natural.t) (b : Box.t) : Prop :=
  0 <= Box.x b /\ 0 <= Box.y b /\
  Box.x b + Box.w b <= Natural.w n /\ Box.y b + Box.h b <= Natural.h n.

Definition pointWithinImage (n : Natural.t) (p : Pt.t) : Prop :=
  0 <= Pt.x p <= Natural.w n /\ 0 <= Pt.y p <= Natural.h n.

Definition scaleInRange (v : View.t) : Prop :=
  1 <= View.scale v <= 6.

(** Every handler leaves the annotation set as it is, clears it, removes
    the rectangles of one id, or commits the draft. *)
Inductive boxesChange (s : State) (bs' : list Box.t) : Prop :=
| change_none : bs' = boxes s -> boxesChange s bs'
| change_clear : bs' = [] -> boxesChange s bs'
| change_remove (id : string) :
    bs' = filter (fun b => negb (String.eqb (Box.id b) id)) (boxes s) ->
    boxesChange s bs'
| change_commit_reference (uid : string) (d : Box.t) :
    draftBox s = Some d -> Box.type d = reference -> minSize d ->
    bs' = filter (fun b => negb (isReference b)) (boxes s) ++ [withId uid d] ->
    boxesChange s bs'
| change_commit_window (uid : string) (d : Box.t) :
    draftBox s = Some d -> Box.type d = window -> minSize d ->
    bs' = boxes s ++ [withId uid d] ->
    boxesChange s bs'.

(** A draft is too small to be committed or lies inside the image. *)
Definition draftOK (n : Natural.t) (d : Box.t) : Prop :=
  Box.w d < 10 \/ withinImage n d.

(** The annotation cells agree with the natural size in [imageNatural]:
    nothing is drawn before a size is known, and with a size the committed
    rectangles, the drag anchor and the draft lie inside it. *)
Definition bounded (s : State) : Prop :=
  match imageNatural s with
  | None => boxes s = [] /\ dragStart s = None /\ draftBox s = None
  | Some n =>
      Forall (withinImage n) (boxes s) /\
      (forall ds, dragStart s = Some ds -> pointWithinImage n ds) /\
      (forall d, draftBox s = Some d -> draftOK n d)
  end.

(** A pointer release that finds the draft [snd c] and draws the id
    [fst c]; [releases] is a sequence of them. *)
Definition release (s : State) (c : string * Box.t) : State :=
  handlePointerUp (fst c) (setDraftBox (Some (snd c)) s).

Definition releases (s : State) (cs : list (string * Box.t)) : State :=
  fold_left release cs s.

(** A run in which every [load] event of the image finds the annotation
    cells empty, as they are right after [onFileChange]. *)
Fixpoint loadsSettled (sqrt : Q -> Q) (s : State) (es : list Event) : Prop :=
  match es with
  | [] => True
  | e :: es' =>
      match e with
      | ImgLoad _ _ =>
          boxes s = [] /\ dragStart s = None /\ draftBox s = None
      | _ => True
      end /\ loadsSettled sqrt (step sqrt s e) es'
  end.

(** ** Sample data for the examples *)

Definition sampleRect : DOMRect.t := DOMRect.mk 0 0 500 400.

Definition sampleCalibration (h : Q) : Box.t :=
  Box.mk "draft" reference "Paper" 100 100 50 h.

(** A calibration rectangle 110 px tall for the 11 inch preset, and one
    window of 100 x 50 px. *)
Definition sampleQuoted : State :=
  setBoxes
    (fun _ =>
       [Box.mk "r" reference "Paper" 100 100 50 110;
        Box.mk "a" window "Window 1" 300 300 100 50])
    (initialState sampleRect).

(** A zoomed and panned view. *)
Definition sampleZoomed : State :=
  setView (View.mk 2 5 5)
    (setImageNatural (Some (Natural.mk 1000 800))
       (setImageUrl "blob:a" (initialState sampleRect))).

(** A stand-in for [Math.sqrt] that the examples can run: the integer
    root of the floor, exact on the squares of integers. *)
Definition floorSqrt (q : Q) : Q := inject_Z (Z.sqrt (Qfloor q)).

(** Two fingers land 5 px apart and spread to 50 px: a ratio of 10. *)
Definition samplePinchOut : list Event :=
  [PointerDown 1 0 0; PointerDown 2 3 4; PointerMove 2 30 40].

(** Two fingers land 500 px apart and close to 5 px: a ratio of 1/100. *)
Definition samplePinchIn : list Event :=
  [PointerDown 1 0 0; PointerDown 2 300 400; PointerMove 2 3 4].

(** The image point (200, 100), as the corner of a rectangle to draw. *)
Definition samplePoint : Box.t :=
  Box.mk "p" window "Window 1" 200 100 40 30.

(** Three windows are drawn on a 1000 x 800 photo and the first is removed
    before the third is started. *)
Definition sampleRelabel : list Event :=
  [FileChange (Some "blob:a"%string); ImgLoad 1000 800; ClickDrawWindows;
   PointerDown 1 10 10; PointerMove 1 60 60; PointerUp 1 "id1";
   PointerDown 1 100 10; PointerMove 1 150 60; PointerUp 1 "id2";
   ClickRemove "id1";
   PointerDown 1 200 10; PointerMove 1 250 60; PointerUp 1 "id3"].

(** A second photo is picked, and a window is drawn before the [load]
    event of the second photo arrives. *)
Definition sampleStaleLoad : list Event :=
  [FileChange (Some "blob:a"%string); ImgLoad 1000 800; ClickDrawWindows;
   FileChange (Some "blob:b"%string);
   PointerDown 1 400 300; PointerMove 1 450 350; PointerUp 1 "id1";
   ImgLoad 100 100].

(** The end-to-end scenario: on a 1000 x 800 photo shown in a 500 x 400
    canvas a calibration rectangle (100,100)-(150,300) is drawn with the
    paper preset, then a window (300,300)-(400,350). *)
Definition sampleEndToEnd : list Event :=
  [FileChange (Some "blob:a"%string); ImgLoad 1000 800;
   PointerDown 1 50 50; PointerMove 1 75 150; PointerUp 1 "ref1";
   ClickDrawWindows;
   PointerDown 1 150 150; PointerMove 1 200 175; PointerUp 1 "win1"].

(** After it the calibration rectangle is drawn again, 220 px tall. *)
Definition sampleRecalibrate : list Event :=
  sampleEndToEnd ++
  [ClickDrawReference;
   PointerDown 1 50 50; PointerMove 1 75 160; PointerUp 1 "ref2"].

(** ** Further parts of the component *)

(** [Math.round]: the nearest integer, halves going up. *)
Definition Math_round (n : Q) : Q := inject_Z (Qfloor (n + (1 # 2))).

Definition round2 (n : Q) : Q := Math_round (n * 100) / 100.

(** Where the draw effect puts the photo: after
    [ctx.translate(baseOffsetX + view.tx, baseOffsetY + view.ty)] and
    [ctx.scale(view.scale, view.scale)] the call
    [ctx.drawImage(img, 0, 0, baseW, baseH)] covers this rectangle of the
    canvas. *)
Definition drawImageDest (info : Info.t) (view : View.t) : StrokeRect.t :=
  StrokeRect.mk
    (Info.baseOffsetX info + View.tx view)
    (Info.baseOffsetY info + View.ty view)
    (Info.baseW info * View.scale view)
    (Info.baseH info * View.scale view).

(** The canvas handlers of [src/App.tsx], where they differ. *)
Module AppTsxCanvas.

Definition onPointerUp (pointerId : Z) (uid : string) (s : State) : State :=
  let s1 := setPointers (map_delete pointerId (pointers s)) s in
  let s2 :=
    if Nat.ltb (List.length (pointers s1)) 2 then setPinchStart None s1
    else s1 in
  (* Only finish box draw if it was a 1-finger interaction *)
  if Nat.eqb (List.length (pointers s2)) 0 then handlePointerUp uid s2
  else s2.

Definition onPointerCancel (pointerId : Z) (s : State) : State :=
  let s1 := setPointers (map_delete pointerId (pointers s)) s in
  setDraftBox None (setDragStart None (setPinchStart None s1)).

End AppTsxCanvas.

(** The keys of the [pointers] map. *)
Definition map_keys (m : list (Z * Pt.t)) : list Z := map fst m.

(** The gesture cells fit together: the keys of [pointers] are distinct, a
    pinch baseline is held only while two pointers or more are down, and a
    draft comes with its anchor and with a pointer that is down. *)
Definition gestureOK (s : State) : Prop :=
  NoDup (map_keys (pointers s)) /\
  (pinchStart s <> None -> (2 <= List.length (pointers s))%nat) /\
  (draftBox s = None <-> dragStart s = None) /\
  (draftBox s <> None -> pointers s <> []).

(** The "remove" link of a list row. *)
Definition isClickRemove (e : Event) : bool :=
  match e with
  | ClickRemove _ => true
  | _ => false
  end.

(** The labels "Window 1", ..., "Window n". *)
Definition windowLabels (n : nat) : list string :=
  map windowLabel (seq 1 n).

(** Windows are numbered in the order of their commits, and a draft window
    carries the next number. *)
Definition numbered (s : State) : Prop :=
  map Box.label (windowBoxes (boxes s))
  = windowLabels (List.length (windowBoxes (boxes s))) /\
  (forall d, draftBox s = Some d -> Box.type d = window ->
             Box.label d
             = windowLabel (List.length (windowBoxes (boxes s)) + 1)).

(** ** The variant without zoom (cost and margin pricing) *)

Module Part001.

Record PricingConfig := mkPricingConfig {
  materialCostPerSqft : Q; (* your cost *)
  laborCostPerSqft : Q; (* install labor allocation *)
  miscPerJob : Q; (* blades, solution, travel buffer, etc. *)
  minCharge : Q; (* minimum job charge *)
  marginFloor : Q; (* e.g. 0.45 = 45% *)
  marginTarget : Q; (* e.g. 0.55 = 55% *)
  marginStretch : Q (* e.g. 0.65 = 65% *)
}.

Definition DEFAULT_PRICING : PricingConfig :=
  mkPricingConfig (225 # 100) (325 # 100) 35 399 (45 # 100) (55 # 100)
    (65 # 100).

Record CostAndPrice := mkCostAndPrice {
  sqft : Q;
  rawCost : Q;
  protectedCost : Q;
  sellFloor : Q;
  sellTarget : Q;
  sellStretch : Q
}.

Definition costAndPrice (windowSqft : option Q) (pricing : PricingConfig)
  : option CostAndPrice :=
  if falsy windowSqft then None
  else match windowSqft with
       | Some sqft =>
           let rawCost :=
             sqft * (materialCostPerSqft pricing + laborCostPerSqft pricing)
             + miscPerJob pricing in
           let protectedCost :=
             Qmax rawCost (minCharge pricing * (1 - marginFloor pricing)) in
           let floor := protectedCost / (1 - marginFloor pricing) in
           let target := protectedCost / (1 - marginTarget pricing) in
           let stretch := protectedCost / (1 - marginStretch pricing) in
           let finalFloor := Qmax floor (minCharge pricing) in
           let finalTarget := Qmax target (minCharge pricing) in
           let finalStretch := Qmax stretch (minCharge pricing) in
           Some (mkCostAndPrice sqft rawCost protectedCost finalFloor
                   finalTarget finalStretch)
       | None => None
       end.

Record Info := mkInfo {
  rect : DOMRect.t;
  drawW : Q;
  drawH : Q;
  offsetX : Q;
  offsetY : Q;
  scale : Q
}.

Definition getCanvasAndImageScale (s : State) : option Info :=
  if negb (mounted s) then None
  else match imageNatural s with
       | None => None
       | Some nat =>
           let rect := canvasRect s in
           let displayW := DOMRect.width rect in
           let displayH := DOMRect.height rect in
           let imgAspect := Natural.w nat / Natural.h nat in
           let canvasAspect := displayW / displayH in
           if Qltb canvasAspect imgAspect then
             (* image is wider than canvas *)
             let drawW := displayW in
             let drawH := displayW / imgAspect in
             let offsetY := (displayH - drawH) / 2 in
             Some (mkInfo rect drawW drawH 0 offsetY (drawW / Natural.w nat))
           else
             let drawH := displayH in
             let drawW := displayH * imgAspect in
             let offsetX := (displayW - drawW) / 2 in
             Some (mkInfo rect drawW drawH offsetX 0 (drawW / Natural.w nat))
       end.

Definition canvasPointToImagePoint (s : State) (clientX clientY : Q)
  : option Pt.t :=
  match getCanvasAndImageScale s with
  | None => None
  | Some info =>
      let xCanvas := clientX - DOMRect.left (rect info) in
      let yCanvas := clientY - DOMRect.top (rect info) in
      let xInDraw := xCanvas - offsetX info in
      let yInDraw := yCanvas - offsetY info in
      if Qltb xInDraw 0 || Qltb yInDraw 0 || Qltb (drawW info) xInDraw
         || Qltb (drawH info) yInDraw
      then None
      else
        (* convert to image natural px *)
        let xImg := xInDraw / scale info in
        let yImg := yInDraw / scale info in
        Some (Pt.mk xImg yImg)
  end.

End Part001.

(** ** The same component over JavaScript numbers

    Where a handler divides by zero the exact model above and the code
    part ways: the code goes on with an infinity or with [NaN].  Module
    [Js] embeds the annotation and viewport handlers once more, over
    numbers that have these values.  A finite number is still an exact
    rational (rounding stays outside), and zero has no sign: the divisors
    of this component are sizes and distances, which are never a negative
    zero. *)

Module Js.

Inductive num := Fin (q : Q) | PInf | NInf | NaN.

Definition opp (a : num) : num :=
  match a with
  | Fin q => Fin (- q)
  | PInf => NInf
  | NInf => PInf
  | NaN => NaN
  end.

Definition add (a b : num) : num :=
  match a, b with
  | NaN, _ | _, NaN => NaN
  | Fin x, Fin y => Fin (x + y)
  | PInf, NInf | NInf, PInf => NaN
  | PInf, _ | _, PInf => PInf
  | NInf, _ | _, NInf => NInf
  end.

Definition sub (a b : num) : num :=
  match a, b with
  | Fin x, Fin y => Fin (x - y)
  | _, _ => add a (opp b)
  end.

(** An infinity times a finite number, by the sign of the latter. *)
Definition signed (inf : num) (q : Q) : num :=
  match q ?= 0 with
  | Gt => inf
  | Lt => opp inf
  | Eq => NaN
  end.

Definition mul (a b : num) : num :=
  match a, b with
  | NaN, _ | _, NaN => NaN
  | Fin x, Fin y => Fin (x * y)
  | Fin x, PInf | PInf, Fin x => signed PInf x
  | Fin x, NInf | NInf, Fin x => signed NInf x
  | PInf, PInf | NInf, NInf => PInf
  | PInf, NInf | NInf, PInf => NInf
  end.

Definition div (a b : num) : num :=
  match a, b with
  | NaN, _ | _, NaN => NaN
  | Fin x, Fin y =>
      if Qeq_bool y 0 then signed PInf x else Fin (x / y)
  | Fin _, PInf | Fin _, NInf => Fin 0
  | PInf, Fin y => if Qltb y 0 then NInf else PInf
  | NInf, Fin y => if Qltb y 0 then PInf else NInf
  | _, _ => NaN
  end.

(** [a < b]: false as soon as one side is [NaN]. *)
Definition ltb (a b : num) : bool :=
  match a, b with
  | NaN, _ | _, NaN => false
  | Fin x, Fin y => Qltb x y
  | _, NInf => false
  | NInf, _ => true
  | PInf, _ => false
  | Fin _, PInf => true
  end.

(** [a <= b]: false as soon as one side is [NaN]. *)
Definition leb (a b : num) : bool :=
  match a, b with
  | NaN, _ | _, NaN => false
  | Fin x, Fin y => Qle_bool x y
  | NInf, _ => true
  | _, PInf => true
  | _, _ => false
  end.

(** [Math.min] and [Math.max] answer [NaN] when an argument is. *)
Definition min (a b : num) : num :=
  match a, b with
  | NaN, _ | _, NaN => NaN
  | Fin x, Fin y => Fin (Qmin x y)
  | NInf, _ | _, NInf => NInf
  | PInf, c | c, PInf => c
  end.

Definition max (a b : num) : num :=
  match a, b with
  | NaN, _ | _, NaN => NaN
  | Fin x, Fin y => Fin (Qmax x y)
  | PInf, _ | _, PInf => PInf
  | NInf, c | c, NInf => c
  end.

Definition abs (a : num) : num :=
  match a with
  | Fin q => Fin (Qabs q)
  | PInf | NInf => PInf
  | NaN => NaN
  end.

Module Box.
Record t := mk {
  id : string;
  type : BoxType;
  label : string;
  x : num;
  y : num;
  w : num;
  h : num
}.
End Box.

Module Pt.
Record t := mk { x : num; y : num }.
End Pt.

Module View.
Record t := mk { scale : num; tx : num; ty : num }.
End View.

Module Pinch.
Record t := mk { dist : num; mid : Pt.t; scale : num; tx : num; ty : num }.
End Pinch.

Module Info.
Record t := mk {
  rect : DOMRect.t;
  baseW : num;
  baseH : num;
  baseOffsetX : num;
  baseOffsetY : num;
  baseScale : num
}.
End Info.

(** The cells.  The natural size and the bounding rectangle are handed
    in by the page and are finite, so they stay rationals. *)
Record State := mkState {
  imageUrl : string;
  imageNatural : option Natural.t;
  boxes : list Box.t;
  activeDrawType : BoxType;
  dragStart : option Pt.t;
  draftBox : option Box.t;
  refPreset : Preset;
  refRealInches : Q;
  view : View.t;
  pointers : list (Z * Pt.t);
  pinchStart : option Pinch.t;
  canvasRect : DOMRect.t
}.

Definition setImageUrl (v : string) (s : State) : State :=
  mkState v (imageNatural s) (boxes s) (activeDrawType s) (dragStart s)
    (draftBox s) (refPreset s) (refRealInches s) (view s) (pointers s)
    (pinchStart s) (canvasRect s).

Definition setImageNatural (v : option Natural.t) (s : State) : State :=
  mkState (imageUrl s) v (boxes s) (activeDrawType s) (dragStart s)
    (draftBox s) (refPreset s) (refRealInches s) (view s) (pointers s)
    (pinchStart s) (canvasRect s).

Definition setBoxes (f : list Box.t -> list Box.t) (s : State) : State :=
  mkState (imageUrl s) (imageNatural s) (f (boxes s)) (activeDrawType s)
    (dragStart s) (draftBox s) (refPreset s) (refRealInches s) (view s)
    (pointers s) (pinchStart s) (canvasRect s).

Definition setActiveDrawType (v : BoxType) (s : State) : State :=
  mkState (imageUrl s) (imageNatural s) (boxes s) v (dragStart s)
    (draftBox s) (refPreset s) (refRealInches s) (view s) (pointers s)
    (pinchStart s) (canvasRect s).

Definition setDragStart (v : option Pt.t) (s : State) : State :=
  mkState (imageUrl s) (imageNatural s) (boxes s) (activeDrawType s) v
    (draftBox s) (refPreset s) (refRealInches s) (view s) (pointers s)
    (pinchStart s) (canvasRect s).

Definition setDraftBox (v : option Box.t) (s : State) : State :=
  mkState (imageUrl s) (imageNatural s) (boxes s) (activeDrawType s)
    (dragStart s) v (refPreset s) (refRealInches s) (view s) (pointers s)
    (pinchStart s) (canvasRect s).

Definition setRefPreset (v : Preset) (s : State) : State :=
  mkState (imageUrl s) (imageNatural s) (boxes s) (activeDrawType s)
    (dragStart s) (draftBox s) v (refRealInches s) (view s) (pointers s)
    (pinchStart s) (canvasRect s).

Definition setRefRealInches (v : Q) (s : State) : State :=
  mkState (imageUrl s) (imageNatural s) (boxes s) (activeDrawType s)
    (dragStart s) (draftBox s) (refPreset s) v (view s) (pointers s)
    (pinchStart s) (canvasRect s).

Definition setView (v : View.t) (s : State) : State :=
  mkState (imageUrl s) (imageNatural s) (boxes s) (activeDrawType s)
    (dragStart s) (draftBox s) (refPreset s) (refRealInches s) v
    (pointers s) (pinchStart s) (canvasRect s).

Definition setPointers (v : list (Z * Pt.t)) (s : State) : State :=
  mkState (imageUrl s) (imageNatural s) (boxes s) (activeDrawType s)
    (dragStart s) (draftBox s) (refPreset s) (refRealInches s) (view s) v
    (pinchStart s) (canvasRect s).

Definition setPinchStart (v : option Pinch.t) (s : State) : State :=
  mkState (imageUrl s) (imageNatural s) (boxes s) (activeDrawType s)
    (dragStart s) (draftBox s) (refPreset s) (refRealInches s) (view s)
    (pointers s) v (canvasRect s).

Definition setCanvasRect (v : DOMRect.t) (s : State) : State :=
  mkState (imageUrl s) (imageNatural s) (boxes s) (activeDrawType s)
    (dragStart s) (draftBox s) (refPreset s) (refRealInches s) (view s)
    (pointers s) (pinchStart s) v.

Definition initialState (r : DOMRect.t) : State :=
  mkState EmptyString None [] reference None None paper 11
    (View.mk (Fin 1) (Fin 0) (Fin 0)) [] None r.

Definition windowBoxes (boxes : list Box.t) : list Box.t :=
  filter (fun b => BoxType_eqb (Box.type b) window) boxes.

Definition mid (a b : Pt.t) : Pt.t :=
  Pt.mk (div (add (Pt.x a) (Pt.x b)) (Fin 2))
    (div (add (Pt.y a) (Pt.y b)) (Fin 2)).

Definition clampScale (s : num) : num :=
  max (Fin 1) (min (Fin 6) s). (* min 1x, max 6x *)

Definition mounted (s : State) : bool :=
  negb (String.eqb (imageUrl s) EmptyString).

Definition getCanvasAndImageScale (s : State) : option Info.t :=
  if negb (mounted s) then None
  else match imageNatural s with
       | None => None
       | Some nat =>
           let rect := canvasRect s in
           let displayW := Fin (DOMRect.width rect) in
           let displayH := Fin (DOMRect.height rect) in
           let imgAspect := div (Fin (Natural.w nat)) (Fin (Natural.h nat)) in
           let canvasAspect := div displayW displayH in
           if ltb canvasAspect imgAspect then
             let baseW := displayW in
             let baseH := div displayW imgAspect in
             let baseOffsetY := div (sub displayH baseH) (Fin 2) in
             Some (Info.mk rect baseW baseH (Fin 0) baseOffsetY
                     (div baseW (Fin (Natural.w nat))))
           else
             let baseH := displayH in
             let baseW := mul displayH imgAspect in
             let baseOffsetX := div (sub displayW baseW) (Fin 2) in
             Some (Info.mk rect baseW baseH baseOffsetX (Fin 0)
                     (div baseW (Fin (Natural.w nat))))
       end.

Definition canvasPointToImagePoint (s : State) (clientX clientY : Q)
  : option Pt.t :=
  match getCanvasAndImageScale s, imageNatural s with
  | Some info, Some nat =>
      let xCanvas := sub (Fin clientX) (Fin (DOMRect.left (Info.rect info))) in
      let yCanvas := sub (Fin clientY) (Fin (DOMRect.top (Info.rect info))) in
      let xInBase := sub xCanvas (Info.baseOffsetX info) in
      let yInBase := sub yCanvas (Info.baseOffsetY info) in
      let xUnzoom := div (sub xInBase (View.tx (view s))) (View.scale (view s)) in
      let yUnzoom := div (sub yInBase (View.ty (view s))) (View.scale (view s)) in
      let xImg := div xUnzoom (Info.baseScale info) in
      let yImg := div yUnzoom (Info.baseScale info) in
      if ltb xImg (Fin 0) || ltb yImg (Fin 0) then None
      else if ltb (Fin (Natural.w nat)) xImg || ltb (Fin (Natural.h nat)) yImg
           then None
           else Some (Pt.mk xImg yImg)
  | _, _ => None
  end.

Definition resetAll (s : State) : State :=
  setDragStart None (setDraftBox None (setBoxes (fun _ => []) s)).

Definition resetView (s : State) : State :=
  setView (View.mk (Fin 1) (Fin 0) (Fin 0)) s.

Definition onFileChange (f : option string) (s : State) : State :=
  match f with
  | None => s
  | Some url => resetView (resetAll (setImageUrl url s))
  end.

Definition syncRefPreset (p : Preset) (s : State) : State :=
  let s1 := setRefPreset p s in
  let s2 := match p with paper => setRefRealInches 11 s1 | _ => s1 end in
  match p with door => setRefRealInches 80 s2 | _ => s2 end.

Definition onLoad (naturalWidth naturalHeight : Q) (s : State) : State :=
  setImageNatural (Some (Natural.mk naturalWidth naturalHeight)) s.

Definition handlePointerDown (clientX clientY : Q) (s : State) : State :=
  if String.eqb (imageUrl s) EmptyString then s
  else match canvasPointToImagePoint s clientX clientY with
       | None => s
       | Some pt =>
           let label :=
             match activeDrawType s with
             | reference =>
                 match refPreset s with
                 | paper => "Paper"%string
                 | door => "Door"%string
                 | custom => "Reference"%string
                 end
             | window =>
                 windowLabel (List.length (windowBoxes (boxes s)) + 1)
             end in
           setDraftBox
             (Some (Box.mk "draft" (activeDrawType s) label
                      (Pt.x pt) (Pt.y pt) (Fin 1) (Fin 1)))
             (setDragStart (Some pt) s)
       end.

Definition handlePointerMove (clientX clientY : Q) (s : State) : State :=
  match dragStart s, draftBox s with
  | Some ds, Some d =>
      match canvasPointToImagePoint s clientX clientY with
      | None => s
      | Some pt =>
          let x1 := Pt.x ds in
          let y1 := Pt.y ds in
          let x2 := Pt.x pt in
          let y2 := Pt.y pt in
          let x := min x1 x2 in
          let y := min y1 y2 in
          let w := abs (sub x2 x1) in
          let h := abs (sub y2 y1) in
          setDraftBox
            (Some (Box.mk (Box.id d) (Box.type d) (Box.label d) x y w h)) s
      end
  | _, _ => s
  end.

Definition withId (uid : string) (d : Box.t) : Box.t :=
  Box.mk uid (Box.type d) (Box.label d) (Box.x d) (Box.y d) (Box.w d)
    (Box.h d).

Definition handlePointerUp (uid : string) (s : State) : State :=
  match draftBox s with
  | None => setDragStart None s
  | Some d =>
      if ltb (Box.w d) (Fin 10) || ltb (Box.h d) (Fin 10) then
        setDragStart None (setDraftBox None s)
      else
        let s1 :=
          match Box.type d with
          | reference =>
              setBoxes
                (fun prev =>
                   filter (fun b => negb (BoxType_eqb (Box.type b) reference))
                     prev ++ [withId uid d]) s
          | window => setBoxes (fun prev => prev ++ [withId uid d]) s
          end in
        setDragStart None (setDraftBox None s1)
  end.

Definition deleteBox (id : string) (s : State) : State :=
  setBoxes (filter (fun b => negb (String.eqb (Box.id b) id))) s.

Definition map_has (k : Z) (m : list (Z * Pt.t)) : bool :=
  existsb (fun kv => Z.eqb (fst kv) k) m.

Fixpoint map_set (k : Z) (v : Pt.t) (m : list (Z * Pt.t))
  : list (Z * Pt.t) :=
  match m with
  | [] => [(k, v)]
  | (k', v') :: m' =>
      if Z.eqb k' k then (k, v) :: m' else (k', v') :: map_set k v m'
  end.

Definition map_delete (k : Z) (m : list (Z * Pt.t)) : list (Z * Pt.t) :=
  filter (fun kv => negb (Z.eqb (fst kv) k)) m.

Definition map_values (m : list (Z * Pt.t)) : list Pt.t := map snd m.

Section Gestures.

Variable sqrt : num -> num.

Definition dist (a b : Pt.t) : num :=
  let dx := sub (Pt.x a) (Pt.x b) in
  let dy := sub (Pt.y a) (Pt.y b) in
  sqrt (add (mul dx dx) (mul dy dy)).

Definition onPointerDown (pointerId : Z) (clientX clientY : Q) (s : State)
  : State :=
  let s1 :=
    setPointers
      (map_set pointerId (Pt.mk (Fin clientX) (Fin clientY)) (pointers s)) s in
  if Nat.eqb (List.length (pointers s1)) 2 then
    match map_values (pointers s1) with
    | p0 :: p1 :: _ =>
        let d := dist p0 p1 in
        let m := mid p0 p1 in
        setDraftBox None
          (setDragStart None
             (setPinchStart
                (Some (Pinch.mk d m (View.scale (view s1)) (View.tx (view s1))
                         (View.ty (view s1))))
                s1))
    | _ => s1
    end
  else
    handlePointerDown clientX clientY s1.

Definition onPointerMove (pointerId : Z) (clientX clientY : Q) (s : State)
  : State :=
  if negb (map_has pointerId (pointers s)) then s
  else
    let s1 :=
      setPointers
        (map_set pointerId (Pt.mk (Fin clientX) (Fin clientY)) (pointers s))
        s in
    match Nat.eqb (List.length (pointers s1)) 2, pinchStart s1,
          map_values (pointers s1) with
    | true, Some start, p0 :: p1 :: _ =>
        let dNow := dist p0 p1 in
        let mNow := mid p0 p1 in
        let nextScale :=
          clampScale (mul (Pinch.scale start) (div dNow (Pinch.dist start))) in
        let dxMid := sub (Pt.x mNow) (Pt.x (Pinch.mid start)) in
        let dyMid := sub (Pt.y mNow) (Pt.y (Pinch.mid start)) in
        setView
          (View.mk nextScale (add (Pinch.tx start) dxMid)
             (add (Pinch.ty start) dyMid))
          s1
    | _, _, _ =>
        handlePointerMove clientX clientY s1
    end.

Definition onPointerUp (pointerId : Z) (uid : string) (s : State) : State :=
  let s1 := setPointers (map_delete pointerId (pointers s)) s in
  let s2 :=
    if Nat.ltb (List.length (pointers s1)) 2 then setPinchStart None s1
    else s1 in
  if Nat.eqb (List.length (pointers s2)) 0 then
    setPinchStart None (setPointers [] (handlePointerUp uid s2))
  else s2.

Definition onPointerCancel (pointerId : Z) (s : State) : State :=
  let s1 := setPointers (map_delete pointerId (pointers s)) s in
  setDraftBox None
    (setDragStart None (setPointers [] (setPinchStart None s1))).

Definition step (s : State) (e : Event) : State :=
  match e with
  | FileChange f => onFileChange f s
  | ImgLoad nw nh => onLoad nw nh s
  | Layout r => setCanvasRect r s
  | PointerDown p cx cy => onPointerDown p cx cy s
  | PointerMove p cx cy => onPointerMove p cx cy s
  | PointerUp p uid => onPointerUp p uid s
  | PointerCancel p => onPointerCancel p s
  | ClickClearBoxes => resetAll s
  | ClickResetView => resetView s
  | ClickDrawReference => setActiveDrawType reference s
  | ClickDrawWindows => setActiveDrawType window s
  | SelectPreset p => syncRefPreset p s
  | InputRealInches v => setRefRealInches v s
  | ClickRemove id => deleteBox id s
  end.

Definition run (s : State) (es : list Event) : State :=
  fold_left step es s.

End Gestures.

(** [Math.sqrt] where the examples need it: the stand-in [floorSqrt] on
    what is finite and not negative, exact at 0 and on the squares of
    integers. *)
Definition floorSqrt (a : num) : num :=
  match a with
  | Fin q => if Qltb q 0 then NaN else Fin (inject_Z (Z.sqrt (Qfloor q)))
  | PInf => PInf
  | NInf | NaN => NaN
  end.

(** The bounds of the specification, as comparisons of JavaScript
    numbers: a scale within [1, 6], a rectangle of at least 10 x 10 image
    pixels, a rectangle inside an image of a given natural size.  None of
    them holds of [NaN]. *)
Definition inRange (a : num) : bool := leb (Fin 1) a && leb a (Fin 6).

Definition minSize (b : Box.t) : bool :=
  leb (Fin 10) (Box.w b) && leb (Fin 10) (Box.h b).

Definition withinImage (n : Natural.t) (b : Box.t) : bool :=
  leb (Fin 0) (Box.x b) && leb (Fin 0) (Box.y b) &&
  leb (add (Box.x b) (Box.w b)) (Fin (Natural.w n)) &&
  leb (add (Box.y b) (Box.h b)) (Fin (Natural.h n)).

End Js.

(** ** From the exact model to JavaScript numbers *)

Definition inj_pt (p : Pt.t) : Js.Pt.t :=
  Js.Pt.mk (Js.Fin (Pt.x p)) (Js.Fin (Pt.y p)).

Definition inj_box (b : Box.t) : Js.Box.t :=
  Js.Box.mk (Box.id b) (Box.type b) (Box.label b) (Js.Fin (Box.x b))
    (Js.Fin (Box.y b)) (Js.Fin (Box.w b)) (Js.Fin (Box.h b)).

Definition inj_view (v : View.t) : Js.View.t :=
  Js.View.mk (Js.Fin (View.scale v)) (Js.Fin (View.tx v))
    (Js.Fin (View.ty v)).

Definition inj_pinch (p : Pinch.t) : Js.Pinch.t :=
  Js.Pinch.mk (Js.Fin (Pinch.dist p)) (inj_pt (Pinch.mid p))
    (Js.Fin (Pinch.scale p)) (Js.Fin (Pinch.tx p)) (Js.Fin (Pinch.ty p)).

Definition inj_info (i : Info.t) : Js.Info.t :=
  Js.Info.mk (Info.rect i) (Js.Fin (Info.baseW i)) (Js.Fin (Info.baseH i))
    (Js.Fin (Info.baseOffsetX i)) (Js.Fin (Info.baseOffsetY i))
    (Js.Fin (Info.baseScale i)).

Definition inj_entry (kv : Z * Pt.t) : Z * Js.Pt.t :=
  (fst kv, inj_pt (snd kv)).

(** A state of the exact model read as a state over JavaScript numbers,
    every number finite. *)
Definition inj (s : State) : Js.State :=
  Js.mkState (imageUrl s) (imageNatural s) (map inj_box (boxes s))
    (activeDrawType s) (option_map inj_pt (dragStart s))
    (option_map inj_box (draftBox s)) (refPreset s) (refRealInches s)
    (inj_view (view s)) (map inj_entry (pointers s))
    (option_map inj_pinch (pinchStart s)) (canvasRect s).

(** The divisors a handler can meet in a state are not zero: the canvas
    and the image have a positive size, the view scale is at least 1 and
    a pinch baseline has a distance other than 0. *)
Definition divisorsOK (s : State) : Prop :=
  0 < DOMRect.width (canvasRect s) /\ 0 < DOMRect.height (canvasRect s) /\
  (forall n, imageNatural s = Some n -> 0 < Natural.w n /\ 0 < Natural.h n) /\
  1 <= View.scale (view s) /\
  (forall p, pinchStart s = Some p -> ~ Pinch.dist p == 0).

(** A run that meets no zero divisor: [divisorsOK] holds in the state
    before every event. *)
Fixpoint regular (sqrt : Q -> Q) (s : State) (es : list Event) : Prop :=
  match es with
  | [] => True
  | e :: es' => divisorsOK s /\ regular sqrt (step sqrt s e) es'
  end.

(** [Math.sqrt] on what is finite and not negative. *)
Definition sqrtAgrees (sqrt : Q -> Q) (jsqrt : Js.num -> Js.num) : Prop :=
  forall q, 0 <= q -> jsqrt (Js.Fin q) = Js.Fin (sqrt q).

(** The same conditions as tests, to run them on examples. *)
Definition divisorsOKb (s : State) : bool :=
  Qltb 0 (DOMRect.width (canvasRect s)) &&
  Qltb 0 (DOMRect.height (canvasRect s)) &&
  match imageNatural s with
  | Some n => Qltb 0 (Natural.w n) && Qltb 0 (Natural.h n)
  | None => true
  end &&
  Qle_bool 1 (View.scale (view s)) &&
  match pinchStart s with
  | Some p => negb (Qeq_bool (Pinch.dist p) 0)
  | None => true
  end.

Fixpoint regularb (sqrt : Q -> Q) (s : State) (es : list Event) : bool :=
  match es with
  | [] => true
  | e :: es' => divisorsOKb s && regularb sqrt (step sqrt s e) es'
  end.

(** A photo is loaded, two fingers land 5 px apart and spread to 50 px. *)
Definition samplePinchRun : list Event :=
  [FileChange (Some "blob:a"%string); ImgLoad 1000 800;
   PointerDown 1 0 0; PointerDown 2 3 4; PointerMove 2 30 40].

(** An image whose natural size is 0 x 0 is loaded and a rectangle is
    dragged over the canvas. *)
Definition sampleEmptyImageDrag : list Event :=
  [FileChange (Some "blob:a"%string); ImgLoad 0 0;
   PointerDown 1 150 150; PointerMove 1 200 200; PointerUp 1 "id1"].

(** What both drags below commit. *)
Definition sampleNaNBox : Js.Box.t :=
  Js.Box.mk "id1" reference "Paper" Js.NaN Js.NaN Js.NaN Js.NaN.

(** Two pointers go down on the same point of a loaded photo and one of
    them reports a move without leaving the point. *)
Definition sampleCoincident : list Event :=
  [FileChange (Some "blob:a"%string); ImgLoad 1000 800;
   PointerDown 1 100 100; PointerDown 2 100 100; PointerMove 2 100 100].

(** The cells after these events, as the handlers compute them. *)
Definition sampleCoincidentState : Js.State :=
  Eval vm_compute in
    Js.run Js.floorSqrt (Js.initialState sampleRect) sampleCoincident.

(** After it both are released and a rectangle is dragged with one
    pointer. *)
Definition sampleNaNDrag : list Event :=
  sampleCoincident ++
  [PointerUp 2 "u"; PointerUp 1 "u";
   PointerDown 1 150 150; PointerMove 1 200 200; PointerUp 1 "id1"].

(** The same start, but the second pointer moves away: the distance goes
    from 0 to 5. *)
Definition sampleCoincidentSpread : list Event :=
  [FileChange (Some "blob:a"%string); ImgLoad 1000 800;
   PointerDown 1 100 100; PointerDown 2 100 100; PointerMove 2 103 104].

(** * Properties *)

(** ** Tests on rationals *)

Lemma Qltb_true (a b : Q) : Qltb a b = true <-> a < b.
Proof.
  unfold Qltb. rewrite negb_true_iff.
  split; intro H.
  - apply Qnot_le_lt. intro L. apply Qle_bool_iff in L. congruence.
  - destruct (Qle_bool b a) eqn:E; [|reflexivity].
    apply Qle_bool_iff in E. apply Qle_not_lt in E. contradiction.
Qed.

Lemma Qltb_false (a b : Q) : Qltb a b = false <-> b <= a.
Proof.
  unfold Qltb. rewrite negb_false_iff. apply Qle_bool_iff.
Qed.

Lemma falsy_Some_pos (q : Q) : 0 < q -> falsy (Some q) = false.
Proof.
  intro H. simpl. destruct (Qeq_bool q 0) eqn:E; [|reflexivity].
  apply Qeq_bool_iff in E. rewrite E in H. discriminate H.
Qed.

Lemma falsy_Some_zero (q : Q) : q == 0 -> falsy (Some q) = true.
Proof.
  intro H. simpl. apply Qeq_bool_iff. exact H.
Qed.

(** ** Measurement engine *)

Lemma fold_area_acc (ppi : Q) (rects : list Box.t) (acc : Q) :
  fold_left
    (fun total b =>
       let wIn := Box.w b / ppi in
       let hIn := Box.h b / ppi in
       total + (wIn * hIn) / 144)
    rects acc
  == acc + sumAreaSqFt rects ppi.
Proof.
  revert acc. induction rects as [|r rs IH]; intro acc; simpl.
  - ring.
  - rewrite IH. unfold areaSqFt. ring.
Qed.


(** ** Runs of the component *)

(** A property kept by every handler holds after every run. *)
Lemma run_invariant (sqrt : Q -> Q) (P : State -> Prop) :
  (forall s e, P s -> P (step sqrt s e)) ->
  forall es s, P s -> P (run sqrt s es).
Proof.
  intros Hstep es. induction es as [|e es IH]; intros s Hs; simpl.
  - exact Hs.
  - apply IH. apply Hstep. exact Hs.
Qed.

(** Splits on the tests a goal still branches on. *)
Ltac branches :=
  repeat match goal with
         | |- context [match ?c with _ => _ end] => destruct c eqn:?; simpl
         end.

(** *** What the drawing handlers do to the annotation set *)

Lemma handlePointerDown_boxes (cx cy : Q) (s : State) :
  boxes (handlePointerDown cx cy s) = boxes s.
Proof.
  unfold handlePointerDown. branches; reflexivity.
Qed.

Lemma handlePointerMove_boxes (cx cy : Q) (s : State) :
  boxes (handlePointerMove cx cy s) = boxes s.
Proof.
  unfold handlePointerMove. branches; reflexivity.
Qed.

Lemma handlePointerUp_boxes (uid : string) (s : State) :
  boxes (handlePointerUp uid s) =
  match draftBox s with
  | None => boxes s
  | Some d =>
      if Qltb (Box.w d) 10 || Qltb (Box.h d) 10 then boxes s
      else match Box.type d with
           | reference =>
               filter (fun b => negb (isReference b)) (boxes s)
               ++ [withId uid d]
           | window => boxes s ++ [withId uid d]
           end
  end.
Proof.
  unfold handlePointerUp. branches; reflexivity.
Qed.

Lemma onPointerDown_boxes (sqrt : Q -> Q) (p : Z) (cx cy : Q) (s : State) :
  boxes (onPointerDown sqrt p cx cy s) = boxes s.
Proof.
  unfold onPointerDown. branches; try reflexivity.
  rewrite handlePointerDown_boxes. reflexivity.
Qed.

Lemma onPointerMove_boxes (sqrt : Q -> Q) (p : Z) (cx cy : Q) (s : State) :
  boxes (onPointerMove sqrt p cx cy s) = boxes s.
Proof.
  unfold onPointerMove. branches; try reflexivity;
    rewrite handlePointerMove_boxes; reflexivity.
Qed.

Lemma onPointerUp_boxes (p : Z) (uid : string) (s : State) :
  boxes (onPointerUp p uid s) = boxes s \/
  boxes (onPointerUp p uid s) = boxes (handlePointerUp uid s).
Proof.
  unfold onPointerUp.
  destruct (Nat.eqb _ 0); [right|left].
  - cbn [boxes setPinchStart setPointers]. rewrite !handlePointerUp_boxes.
    destruct (Nat.ltb _ 2); reflexivity.
  - destruct (Nat.ltb _ 2); reflexivity.
Qed.

Lemma handlePointerUp_change (uid : string) (s : State) :
  boxesChange s (boxes (handlePointerUp uid s)).
Proof.
  rewrite handlePointerUp_boxes.
  destruct (draftBox s) as [d|] eqn:Hd; [|apply change_none; reflexivity].
  destruct (Qltb (Box.w d) 10 || Qltb (Box.h d) 10) eqn:Hsz;
    [apply change_none; reflexivity|].
  apply orb_false_iff in Hsz. destruct Hsz as [Hw Hh].
  apply Qltb_false in Hw. apply Qltb_false in Hh.
  destruct (Box.type d) eqn:Ht.
  - eapply change_commit_reference; eauto. split; assumption.
  - eapply change_commit_window; eauto. split; assumption.
Qed.

Lemma step_change (sqrt : Q -> Q) (s : State) (e : Event) :
  boxesChange s (boxes (step sqrt s e)).
Proof.
  destruct e; simpl;
    try (apply change_none; reflexivity);
    try (apply change_clear; reflexivity).
  - destruct f; [apply change_clear|apply change_none]; reflexivity.
  - apply change_none. apply onPointerDown_boxes.
  - apply change_none. apply onPointerMove_boxes.
  - destruct (onPointerUp_boxes pointerId uid s) as [H|H]; rewrite H.
    + apply change_none. reflexivity.
    + apply handlePointerUp_change.
  - apply change_none. unfold syncRefPreset. destruct p; reflexivity.
  - eapply change_remove. reflexivity.
Qed.

(** ** Minimum size *)

Lemma minSize_withId (uid : string) (d : Box.t) :
  minSize d -> minSize (withId uid d).
Proof.
  intro H. exact H.
Qed.

Lemma Forall_filter {A : Type} (P : A -> Prop) (f : A -> bool) (l : list A) :
  Forall P l -> Forall P (filter f l).
Proof.
  intro H. apply Forall_forall. intros a Ha.
  apply filter_In in Ha. destruct Ha as [Ha _].
  revert a Ha. apply Forall_forall. exact H.
Qed.

Lemma change_keeps_minSize (s : State) (bs' : list Box.t) :
  boxesChange s bs' -> Forall minSize (boxes s) -> Forall minSize bs'.
Proof.
  intros [H|H|id H|uid d Hd Ht Hm H|uid d Hd Ht Hm H] Hall; subst bs'.
  - exact Hall.
  - constructor.
  - apply Forall_filter. exact Hall.
  - apply Forall_app. split; [apply Forall_filter; exact Hall|].
    constructor; [apply minSize_withId; exact Hm|constructor].
  - apply Forall_app. split; [exact Hall|].
    constructor; [apply minSize_withId; exact Hm|constructor].
Qed.

Lemma run_minSize (sqrt : Q -> Q) (es : list Event) (s : State) :
  Forall minSize (boxes s) -> Forall minSize (boxes (run sqrt s es)).
Proof.
  apply (run_invariant sqrt (fun s => Forall minSize (boxes s))).
  intros s0 e H. eapply change_keeps_minSize; [apply step_change|exact H].
Qed.

(** ** Calibration singleton *)

Lemma references_app (l1 l2 : list Box.t) :
  references (l1 ++ l2) = references l1 ++ references l2.
Proof.
  unfold references. apply filter_app.
Qed.

Lemma references_no_reference (l : list Box.t) :
  references (filter (fun b => negb (isReference b)) l) = [].
Proof.
  unfold references. induction l as [|b l IH]; simpl; [reflexivity|].
  destruct (isReference b) eqn:E; simpl; [exact IH|].
  rewrite E. exact IH.
Qed.

Lemma references_filter_length (f : Box.t -> bool) (l : list Box.t) :
  (List.length (references (filter f l)) <= List.length (references l))%nat.
Proof.
  unfold references. induction l as [|b l IH]; simpl; [lia|].
  destruct (f b); simpl; destruct (isReference b); simpl; lia.
Qed.

Lemma isReference_withId (uid : string) (d : Box.t) :
  isReference (withId uid d) = isReference d.
Proof.
  reflexivity.
Qed.

Lemma change_keeps_singleton (s : State) (bs' : list Box.t) :
  boxesChange s bs' ->
  (List.length (references (boxes s)) <= 1)%nat ->
  (List.length (references bs') <= 1)%nat.
Proof.
  intros [H|H|id H|uid d Hd Ht Hm H|uid d Hd Ht Hm H] Hone; subst bs'.
  - exact Hone.
  - simpl. lia.
  - etransitivity; [apply references_filter_length|exact Hone].
  - rewrite references_app, references_no_reference. simpl.
    unfold references. simpl. destruct (isReference (withId uid d)); simpl; lia.
  - rewrite references_app. unfold references at 2. simpl.
    rewrite isReference_withId. unfold isReference. rewrite Ht. simpl.
    rewrite app_nil_r. exact Hone.
Qed.

Lemma handlePointerUp_reference (uid : string) (s : State) (d : Box.t) :
  draftBox s = Some d -> Box.type d = reference -> minSize d ->
  boxes (handlePointerUp uid s) =
  filter (fun b => negb (isReference b)) (boxes s) ++ [withId uid d].
Proof.
  intros Hd Ht [Hw Hh]. rewrite handlePointerUp_boxes, Hd, Ht.
  apply Qltb_false in Hw. apply Qltb_false in Hh. rewrite Hw, Hh.
  reflexivity.
Qed.

Lemma release_reference (s : State) (c : string * Box.t) :
  Box.type (snd c) = reference -> minSize (snd c) ->
  boxes (release s c) =
  filter (fun b => negb (isReference b)) (boxes s) ++ [withId (fst c) (snd c)].
Proof.
  intros Ht Hm. unfold release.
  rewrite (handlePointerUp_reference (fst c) _ (snd c)); auto.
Qed.

Lemma run_singleton (sqrt : Q -> Q) (es : list Event) (s : State) :
  (List.length (references (boxes s)) <= 1)%nat ->
  (List.length (references (boxes (run sqrt s es))) <= 1)%nat.
Proof.
  apply (run_invariant sqrt
           (fun s => (List.length (references (boxes s)) <= 1)%nat)).
  intros s0 e H. eapply change_keeps_singleton; [apply step_change|exact H].
Qed.

(** C1.  At most one calibration (reference) rectangle is in the committed
    set after every run of the component from its initial state; a pointer
    release that commits a calibration draft removes the calibration
    rectangles that were there, in the same update of the set; and after a
    sequence of releases that ends with a calibration rectangle of
    committed size (so after committing N of them in a row, N >= 1)
    exactly one calibration rectangle remains, the last one committed. *)
Theorem calibration_singleton :
  (forall (sqrt : Q -> Q) (r : DOMRect.t) (es : list Event),
     (List.length (references (boxes (run sqrt (initialState r) es))) <= 1)%nat)
  /\
  (forall (uid : string) (s : State) (d : Box.t),
     draftBox s = Some d -> Box.type d = reference -> minSize d ->
     boxes (handlePointerUp uid s) =
     filter (fun b => negb (isReference b)) (boxes s) ++ [withId uid d])
  /\
  (forall (s : State) (cs : list (string * Box.t)) (c : string * Box.t),
     Box.type (snd c) = reference -> minSize (snd c) ->
     references (boxes (releases s (cs ++ [c]))) = [withId (fst c) (snd c)]).
Proof.
  split; [|split].
  - intros sqrt r es. apply run_singleton. simpl. lia.
  - intros uid s d. apply handlePointerUp_reference.
  - intros s cs c Ht Hm. unfold releases. rewrite fold_left_app. simpl.
    rewrite release_reference by assumption.
    rewrite references_app, references_no_reference. simpl.
    unfold references. simpl. rewrite isReference_withId.
    unfold isReference. rewrite Ht. reflexivity.
Qed.

Lemma calibration_singleton_witness :
  references
    (boxes
       (releases (initialState sampleRect)
          ([("a"%string, sampleCalibration 200);
           ("b"%string, sampleCalibration 150)]
           ++ [("c"%string, sampleCalibration 110)])))
  = [withId "c" (sampleCalibration 110)].
Proof.
  apply (proj2 (proj2 calibration_singleton)).
  - reflexivity.
  - split; simpl; lra.
Defined.

(** Drawn through the handlers: the second calibration rectangle replaces
    the first and the window stays. *)
Example recalibrate_example :
  map (fun b => (Box.id b, Box.type b))
    (boxes (run floorSqrt (initialState sampleRect) sampleRecalibrate))
  = [("win1"%string, window); ("ref2"%string, reference)].
Proof.
  vm_compute. reflexivity.
Qed.

(** ** Total window area *)

Lemma referenceBox_In (bs : list Box.t) (rb : Box.t) :
  referenceBox bs = Some rb -> In rb bs.
Proof.
  unfold referenceBox. intro H. apply find_some in H. tauto.
Qed.

(** On a set of rectangles of committed size, pixels-per-inch is positive
    when it is defined. *)
Lemma pixelsPerInch_pos (bs : list Box.t) (real p : Q) :
  Forall minSize bs ->
  pixelsPerInch (referenceBox bs) real = Some p -> 0 < p.
Proof.
  intros Hall H. unfold pixelsPerInch in H.
  destruct (referenceBox bs) as [rb|] eqn:Hrb; [|discriminate].
  apply referenceBox_In in Hrb.
  assert (Hm : minSize rb).
  { rewrite Forall_forall in Hall. apply Hall. exact Hrb. }
  destruct (Qltb 0 real) eqn:Hreal; [|discriminate].
  apply Qltb_true in Hreal.
  rewrite (falsy_Some_pos _ Hreal) in H. inversion H; subst p.
  destruct Hm as [_ Hh].
  apply Qlt_shift_div_l; [exact Hreal|]. lra.
Qed.




(** ** Pricing *)

Lemma windowSqft_Some_ppi (ppi : option Q) (rects : list Box.t) (a : Q) :
  windowSqft ppi rects = Some a -> falsy ppi = false.
Proof.
  unfold windowSqft. destruct (falsy ppi); [discriminate|reflexivity].
Qed.

(** C5.  The pricing card shows no quote when the total window area is
    undefined or equal to 0: so in every state with no calibration
    rectangle, with real-world inches that are not positive, or with a
    total area of 0.  The variant of [src/App.tsx] gates in the same
    way. *)
Theorem pricing_gating :
  (forall (ws ppi : option Q),
     ws = None \/ (exists a, ws = Some a /\ a == 0) ->
     retailAndCommission ws ppi = None /\
     AppTsx.retailAndCommission ws ppi = None)
  /\
  (forall s : State,
     referenceBox (boxes s) = None \/ refRealInches s <= 0 \/
     (exists a, windowSqftOf s = Some a /\ a == 0) ->
     retailAndCommissionOf s = None).
Proof.
  assert (Hfun : forall ws ppi,
             ws = None \/ (exists a, ws = Some a /\ a == 0) ->
             retailAndCommission ws ppi = None /\
             AppTsx.retailAndCommission ws ppi = None).
  { intros ws ppi H.
    assert (Hf : falsy ws = true).
    { destruct H as [H|[a [H Ha]]]; subst ws; [reflexivity|].
      apply falsy_Some_zero. exact Ha. }
    unfold retailAndCommission, AppTsx.retailAndCommission.
    rewrite Hf. split; reflexivity. }
  split; [exact Hfun|].
  intros s H. unfold retailAndCommissionOf. apply Hfun.
  destruct H as [H|[H|H]].
  - left. unfold windowSqftOf, pixelsPerInchOf. rewrite H. reflexivity.
  - left. unfold windowSqftOf, pixelsPerInchOf, pixelsPerInch.
    apply Qltb_false in H. rewrite H.
    destruct (referenceBox (boxes s)); reflexivity.
  - right. exact H.
Qed.

Lemma pricing_gating_witness :
  retailAndCommissionOf (setRefRealInches 0 (initialState sampleRect)) = None.
Proof.
  apply (proj2 pricing_gating). right. left. simpl. lra.
Defined.

(** C6.  For a defined positive total area [A] the quote is defined and
    linear in [A] at fixed rates per square foot: retail low is [A] times
    the low rate (14), retail high is [A] times the high rate (15, and 16
    in [src/App.tsx]), and each commission is the retail figure minus [A]
    times the baseline rate (12). *)
Theorem pricing_linear :
  forall (s : State) (A : Q),
    windowSqftOf s = Some A -> 0 < A ->
    (exists q,
        retailAndCommissionOf s = Some q /\
        Quote.sqft q = A /\
        Quote.retailLowTotal q = A * RETAIL_LOW_PER_SQFT /\
        Quote.retailHighTotal q = A * RETAIL_HIGH_PER_SQFT /\
        Quote.commissionLow q
        = Quote.retailLowTotal q - A * SOLAR_PER_SQFT /\
        Quote.commissionHigh q
        = Quote.retailHighTotal q - A * SOLAR_PER_SQFT /\
        Quote.retailLowTotal q == 14 * A /\
        Quote.retailHighTotal q == 15 * A /\
        Quote.commissionLow q == 2 * A /\
        Quote.commissionHigh q == 3 * A)
    /\
    (exists q,
        AppTsx.retailAndCommission (windowSqftOf s) (pixelsPerInchOf s)
        = Some q /\
        Quote.sqft q = A /\
        Quote.retailLowTotal q = A * AppTsx.RETAIL_LOW_PER_SQFT /\
        Quote.retailHighTotal q = A * AppTsx.RETAIL_HIGH_PER_SQFT /\
        Quote.commissionLow q
        = Quote.retailLowTotal q - A * AppTsx.SOLAR_PER_SQFT /\
        Quote.commissionHigh q
        = Quote.retailHighTotal q - A * AppTsx.SOLAR_PER_SQFT /\
        Quote.retailLowTotal q == 14 * A /\
        Quote.retailHighTotal q == 16 * A /\
        Quote.commissionLow q == 2 * A /\
        Quote.commissionHigh q == 4 * A).
Proof.
  intros s A Hs HA.
  assert (Hppi : falsy (pixelsPerInchOf s) = false).
  { unfold windowSqftOf in Hs. eapply windowSqft_Some_ppi. exact Hs. }
  unfold retailAndCommissionOf, retailAndCommission,
    AppTsx.retailAndCommission.
  rewrite Hs, Hppi, (falsy_Some_pos _ HA). simpl.
  split; eexists; (split; [reflexivity|]); simpl;
    unfold RETAIL_LOW_PER_SQFT, RETAIL_HIGH_PER_SQFT, SOLAR_PER_SQFT,
      AppTsx.RETAIL_LOW_PER_SQFT, AppTsx.RETAIL_HIGH_PER_SQFT,
      AppTsx.SOLAR_PER_SQFT;
    repeat split; try reflexivity; ring.
Qed.

Lemma pricing_linear_witness :
  exists A,
    windowSqftOf sampleQuoted = Some A /\ 0 < A /\
    exists q,
      retailAndCommissionOf sampleQuoted = Some q /\
      Quote.retailLowTotal q == 14 * A /\
      Quote.commissionLow q == 2 * A.
Proof.
  eexists. split; [reflexivity|]. split; [vm_compute; reflexivity|].
  destruct (pricing_linear sampleQuoted _ eq_refl) as [[q Hq] _].
  - vm_compute. reflexivity.
  - exists q. intuition.
Defined.

(** The area example of the specification: a calibration rectangle 110 px
    tall for 11 inches and a window of 100 x 50 px give 50/144 sq ft. *)
Example area_formula_example :
  exists A, windowSqftOf sampleQuoted = Some A /\ A == 50 / 144.
Proof.
  eexists. split; [reflexivity|]. vm_compute. reflexivity.
Qed.

(** The end-to-end scenario run through the handlers: pixels-per-inch is
    200/11 and the total area is (100 / ppi) (50 / ppi) / 144 = 121/1152
    sq ft, priced at 14 and 15 per square foot. *)
Example end_to_end_example :
  let s := run floorSqrt (initialState sampleRect) sampleEndToEnd in
  (exists ppi, pixelsPerInchOf s = Some ppi /\ ppi == 200 / 11) /\
  (exists A, windowSqftOf s = Some A /\ A == 121 / 1152) /\
  (exists q, retailAndCommissionOf s = Some q /\
             Quote.retailLowTotal q == 14 * (121 / 1152) /\
             Quote.retailHighTotal q == 15 * (121 / 1152)).
Proof.
  vm_compute. repeat split; eexists; repeat split; reflexivity.
Qed.

(** ** Viewport scale *)

Lemma clampScale_range (s : Q) : 1 <= clampScale s <= 6.
Proof.
  unfold clampScale. split.
  - apply Q.le_max_l.
  - apply Q.max_lub; [lra|apply Q.le_min_l].
Qed.

Lemma handlePointerDown_view (cx cy : Q) (s : State) :
  view (handlePointerDown cx cy s) = view s.
Proof.
  unfold handlePointerDown. branches; reflexivity.
Qed.

Lemma handlePointerMove_view (cx cy : Q) (s : State) :
  view (handlePointerMove cx cy s) = view s.
Proof.
  unfold handlePointerMove. branches; reflexivity.
Qed.

Lemma handlePointerUp_view (uid : string) (s : State) :
  view (handlePointerUp uid s) = view s.
Proof.
  unfold handlePointerUp. branches; reflexivity.
Qed.

Lemma scaleInRange_reset : scaleInRange (View.mk 1 0 0).
Proof.
  unfold scaleInRange. simpl. lra.
Qed.

Lemma step_scaleInRange (sqrt : Q -> Q) (s : State) (e : Event) :
  scaleInRange (view s) -> scaleInRange (view (step sqrt s e)).
Proof.
  intro H. destruct e; simpl; try exact H; try apply scaleInRange_reset.
  - destruct f; [apply scaleInRange_reset|exact H].
  - unfold onPointerDown. branches; try exact H.
    rewrite handlePointerDown_view. exact H.
  - unfold onPointerMove. branches; try exact H;
      try (rewrite handlePointerMove_view; exact H);
      apply clampScale_range.
  - unfold onPointerUp. branches; try exact H;
      rewrite handlePointerUp_view; exact H.
  - unfold syncRefPreset. destruct p; exact H.
Qed.

(** On the pinch path the new scale is the clamped product of the baseline
    scale and the ratio of the finger distances. *)
Lemma onPointerMove_pinch (sqrt : Q -> Q) (pointerId : Z) (cx cy : Q)
      (s : State) (start : Pinch.t) (p0 p1 : Pt.t) (ps : list Pt.t) :
  map_has pointerId (pointers s) = true ->
  List.length (map_set pointerId (Pt.mk cx cy) (pointers s)) = 2%nat ->
  pinchStart s = Some start ->
  map_values (map_set pointerId (Pt.mk cx cy) (pointers s)) = p0 :: p1 :: ps ->
  View.scale (view (onPointerMove sqrt pointerId cx cy s))
  = clampScale (Pinch.scale start * (dist sqrt p0 p1 / Pinch.dist start)).
Proof.
  intros Hhas Hlen Hstart Hvals. unfold onPointerMove.
  rewrite Hhas.
  cbn [negb pointers pinchStart setPointers].
  rewrite Hlen, Hstart, Hvals. reflexivity.
Qed.

(** The pinch examples of the specification, run through the handlers. *)
Example pinch_out_example :
  View.scale (view (run floorSqrt sampleZoomed samplePinchOut)) == 6.
Proof.
  vm_compute. reflexivity.
Qed.

Example pinch_in_example :
  View.scale (view (run floorSqrt sampleZoomed samplePinchIn)) == 1.
Proof.
  vm_compute. reflexivity.
Qed.

(** ** Loading a photo *)

Lemma onFileChange_resets_view (url : string) (s : State) :
  view (onFileChange (Some url) s) = View.mk 1 0 0.
Proof.
  reflexivity.
Qed.

Lemma AppTsx_onFileChange_view (f : option string) (s : State) :
  view (AppTsx.onFileChange f s) = view s.
Proof.
  destruct f; reflexivity.
Qed.

(** C8.  Loading a new photo resets the viewport: from every state, and
    so from every prior view, [onFileChange] with a chosen file ends in
    the view [{ scale: 1, tx: 0, ty: 0 }], and the view is still that one
    after the [load] event of the photo.  The same holds over JavaScript
    numbers, also when the prior scale is [NaN] or an infinity.  With no
    file chosen nothing is loaded and the view stays as it is. *)
Theorem load_photo_resets_view :
  (forall (url : string) (s : State),
     view (onFileChange (Some url) s) = View.mk 1 0 0) /\
  (forall (sqrt : Q -> Q) (url : string) (nw nh : Q) (s : State),
     view (run sqrt s [FileChange (Some url); ImgLoad nw nh])
     = View.mk 1 0 0) /\
  (forall (url : string) (s : Js.State),
     Js.view (Js.onFileChange (Some url) s)
     = Js.View.mk (Js.Fin 1) (Js.Fin 0) (Js.Fin 0)) /\
  (forall (jsqrt : Js.num -> Js.num) (url : string) (nw nh : Q)
          (s : Js.State),
     Js.view (Js.run jsqrt s [FileChange (Some url); ImgLoad nw nh])
     = Js.View.mk (Js.Fin 1) (Js.Fin 0) (Js.Fin 0)) /\
  (forall s : State, view (onFileChange None s) = view s).
Proof.
  repeat split.
Qed.

(** The handler that [src/App.tsx] writes has no [resetView] and would
    keep the view.  That file declares [const info] twice in one block of
    its draw effect, so it does not load as a module, and the handler
    that runs is the one above. *)
Remark AppTsx_onFileChange_as_written :
  view (AppTsx.onFileChange (Some "blob:b"%string) sampleZoomed)
  = View.mk 2 5 5.
Proof.
  reflexivity.
Qed.

(** ** Viewport transform *)

(** The base fit of an image of positive size into a canvas of positive
    size has a positive scale. *)
Lemma baseScale_pos (s : State) (info : Info.t) (n : Natural.t) :
  getCanvasAndImageScale s = Some info ->
  imageNatural s = Some n ->
  0 < Natural.w n -> 0 < Natural.h n ->
  0 < DOMRect.width (canvasRect s) -> 0 < DOMRect.height (canvasRect s) ->
  0 < Info.baseScale info /\ Info.rect info = canvasRect s.
Proof.
  intros Hinfo Hn Hw Hh Hdw Hdh.
  unfold getCanvasAndImageScale in Hinfo. rewrite Hn in Hinfo.
  destruct (negb (mounted s)); [discriminate|].
  assert (Hasp : 0 < Natural.w n / Natural.h n).
  { apply Qlt_shift_div_l; [exact Hh|lra]. }
  destruct (Qltb _ _) in Hinfo; inversion Hinfo; subst info; simpl;
    (split; [|reflexivity]).
  - apply Qlt_shift_div_l; [exact Hw|lra].
  - apply Qlt_shift_div_l; [exact Hw|]. rewrite Qmult_0_l.
    apply Qmult_lt_0_compat; assumption.
Qed.

(** C3.  [canvasPointToImagePoint] inverts the transform of [drawBox]: for
    every base fit of an image of positive size into a canvas of positive
    size, every view with scale in [1, 6] and every image point strictly
    inside the image, the corner that [drawBox] strokes for that point,
    met by a pointer, maps back to the point.  Arithmetic being exact
    here, the two coordinates come back equal as rationals. *)
Theorem transform_roundtrip :
  forall (s : State) (info : Info.t) (n : Natural.t) (b : Box.t),
    getCanvasAndImageScale s = Some info ->
    imageNatural s = Some n ->
    0 < Natural.w n -> 0 < Natural.h n ->
    0 < DOMRect.width (canvasRect s) -> 0 < DOMRect.height (canvasRect s) ->
    scaleInRange (view s) ->
    0 < Box.x b < Natural.w n -> 0 < Box.y b < Natural.h n ->
    let r := drawBox info (view s) b in
    let c := clientOfCanvas (Info.rect info) (StrokeRect.x r) (StrokeRect.y r) in
    exists p,
      canvasPointToImagePoint s (Pt.x c) (Pt.y c) = Some p /\
      Pt.x p == Box.x b /\ Pt.y p == Box.y b.
Proof.
  intros s info n b Hinfo Hn Hw Hh Hdw Hdh [Hs1 Hs6] Hx Hy r c.
  destruct (baseScale_pos s info n Hinfo Hn Hw Hh Hdw Hdh) as [Hbs _].
  unfold canvasPointToImagePoint. rewrite Hinfo, Hn. cbv zeta.
  match goal with
  | |- context [Some (Pt.mk ?a ?b)] => set (xImg := a); set (yImg := b)
  end.
  assert (Ex : xImg == Box.x b).
  { subst xImg c r. unfold drawBox, clientOfCanvas. simpl. field.
    split; lra. }
  assert (Ey : yImg == Box.y b).
  { subst yImg c r. unfold drawBox, clientOfCanvas. simpl. field.
    split; lra. }
  assert (T1 : Qltb xImg 0 = false) by (apply Qltb_false; lra).
  assert (T2 : Qltb yImg 0 = false) by (apply Qltb_false; lra).
  assert (T3 : Qltb (Natural.w n) xImg = false) by (apply Qltb_false; lra).
  assert (T4 : Qltb (Natural.h n) yImg = false) by (apply Qltb_false; lra).
  rewrite T1, T2, T3, T4. simpl.
  exists (Pt.mk xImg yImg). simpl. auto.
Qed.

Lemma transform_roundtrip_witness :
  exists info,
    getCanvasAndImageScale sampleZoomed = Some info /\
    let r := drawBox info (view sampleZoomed) samplePoint in
    let c := clientOfCanvas (Info.rect info) (StrokeRect.x r) (StrokeRect.y r) in
    Pt.x c == 205 /\ Pt.y c == 105 /\
    exists p,
      canvasPointToImagePoint sampleZoomed (Pt.x c) (Pt.y c) = Some p /\
      Pt.x p == 200 /\ Pt.y p == 100.
Proof.
  eexists. split; [reflexivity|].
  split; [vm_compute; reflexivity|]. split; [vm_compute; reflexivity|].
  apply (transform_roundtrip sampleZoomed _ (Natural.mk 1000 800) samplePoint);
    try reflexivity; unfold scaleInRange; simpl; lra.
Defined.

(** ** Labels *)

(** C10.  Labels of committed measurement rectangles are not unique: after
    two windows are committed, the first is removed and a third is
    committed, the set holds two measurement rectangles with different ids
    and the same label "Window 2", the label being made from the number of
    measurement rectangles at the time the draft is started. *)
Theorem window_labels_collide :
  forall sqrt : Q -> Q,
    let s := run sqrt (initialState sampleRect) sampleRelabel in
    map (fun b => (Box.id b, Box.type b, Box.label b)) (boxes s)
    = [("id2"%string, window, "Window 2"%string);
       ("id3"%string, window, "Window 2"%string)]
    /\
    exists b1 b2,
      In b1 (boxes s) /\ In b2 (boxes s) /\
      Box.type b1 = window /\ Box.type b2 = window /\
      Box.id b1 <> Box.id b2 /\ Box.label b1 = Box.label b2.
Proof.
  intros sqrt s.
  assert (E : exists b1 b2, boxes s = [b1; b2] /\
                Box.id b1 = "id2"%string /\ Box.id b2 = "id3"%string /\
                Box.type b1 = window /\ Box.type b2 = window /\
                Box.label b1 = "Window 2"%string /\
                Box.label b2 = "Window 2"%string).
  { subst s. vm_compute. do 2 eexists. repeat split; reflexivity. }
  destruct E as [b1 [b2 [Hs [I1 [I2 [T1 [T2 [L1 L2]]]]]]]].
  split.
  - rewrite Hs. simpl. rewrite I1, I2, T1, T2, L1, L2. reflexivity.
  - exists b1, b2. rewrite Hs. simpl.
    repeat split; auto; congruence.
Qed.

(** ** Image bounds *)

(** C9.  A committed rectangle can lie outside the bounds of the loaded
    image: [onFileChange] leaves [imageNatural] at the size of the
    previous photo until the [load] event of the new one, and a window
    drawn in between is checked against the old size.  After a 1000 x 800
    photo, a second file, a window drawn at (800, 600) with size 100 x 100
    and the [load] event of the second photo of 100 x 100, the committed
    set holds that window. *)
Theorem stale_natural_size_escapes_bounds :
  forall sqrt : Q -> Q,
    let s := run sqrt (initialState sampleRect) sampleStaleLoad in
    imageNatural s = Some (Natural.mk 100 100) /\
    exists b,
      boxes s = [b] /\
      Box.x b == 800 /\ Box.y b == 600 /\ Box.w b == 100 /\ Box.h b == 100 /\
      ~ withinImage (Natural.mk 100 100) b.
Proof.
  intros sqrt s. split; [reflexivity|].
  assert (E : exists b, boxes s = [b] /\
                Box.x b == 800 /\ Box.y b == 600 /\
                Box.w b == 100 /\ Box.h b == 100).
  { subst s. vm_compute. eexists. split; [reflexivity|].
    simpl. repeat split; reflexivity. }
  destruct E as [b [Hb [Hx [Hy [Hw Hh]]]]].
  exists b. repeat split; auto.
  unfold withinImage. simpl. intros [_ [_ [H _]]]. lra.
Qed.

(** What holds apart from that gap: as long as the [load] events of the
    image find the annotation cells empty, the committed rectangles lie
    inside the natural size. *)

Lemma canvasPoint_within (s : State) (cx cy : Q) (pt : Pt.t) (n : Natural.t) :
  canvasPointToImagePoint s cx cy = Some pt ->
  imageNatural s = Some n ->
  pointWithinImage n pt.
Proof.
  unfold canvasPointToImagePoint. intros H Hn.
  destruct (getCanvasAndImageScale s) as [info|]; [|discriminate].
  rewrite Hn in H. cbv zeta in H.
  destruct (Qltb _ 0 || Qltb _ 0) eqn:T1; [discriminate|].
  destruct (Qltb (Natural.w n) _ || Qltb (Natural.h n) _) eqn:T2;
    [discriminate|].
  inversion H; subst pt; clear H.
  apply orb_false_iff in T1. destruct T1 as [A B].
  apply orb_false_iff in T2. destruct T2 as [C D].
  apply Qltb_false in A, B, C, D.
  unfold pointWithinImage. simpl. auto.
Qed.

Lemma canvasPoint_needs_size (s : State) (cx cy : Q) :
  imageNatural s = None -> canvasPointToImagePoint s cx cy = None.
Proof.
  intro Hn. unfold canvasPointToImagePoint. rewrite Hn.
  destruct (getCanvasAndImageScale s); reflexivity.
Qed.

(** The box spanned by two points of the image lies inside the image. *)
Lemma span_within (n : Natural.t) (ds pt : Pt.t) (id lab : string)
      (ty : BoxType) :
  pointWithinImage n ds -> pointWithinImage n pt ->
  withinImage n
    (Box.mk id ty lab (Qmin (Pt.x ds) (Pt.x pt)) (Qmin (Pt.y ds) (Pt.y pt))
       (Qabs (Pt.x pt - Pt.x ds)) (Qabs (Pt.y pt - Pt.y ds))).
Proof.
  intros [[A1 A2] [A3 A4]] [[B1 B2] [B3 B4]].
  unfold withinImage. cbn [Box.x Box.y Box.w Box.h].
  destruct (Q.min_spec (Pt.x ds) (Pt.x pt)) as [[Lx Ex]|[Lx Ex]];
    destruct (Q.min_spec (Pt.y ds) (Pt.y pt)) as [[Ly Ey]|[Ly Ey]];
    rewrite Ex, Ey;
    (split; [lra|split; [lra|split]]);
    apply Qabs_case; intros; lra.
Qed.

Lemma bounded_ext (s s' : State) :
  imageNatural s' = imageNatural s -> boxes s' = boxes s ->
  dragStart s' = dragStart s -> draftBox s' = draftBox s ->
  bounded s -> bounded s'.
Proof.
  unfold bounded. intros -> -> -> ->. exact (fun H => H).
Qed.

(** Dropping the draft and the anchor keeps the cells in bounds. *)
Lemma bounded_drop (s s' : State) :
  imageNatural s' = imageNatural s -> boxes s' = boxes s ->
  dragStart s' = None -> draftBox s' = None ->
  bounded s -> bounded s'.
Proof.
  unfold bounded. intros -> -> -> -> H.
  destruct (imageNatural s) as [n|].
  - destruct H as [H _].
    split; [exact H|split; intros ? E; discriminate E].
  - destruct H as [H _]. auto.
Qed.

(** Clearing the set as well keeps them in bounds, whatever went before. *)
Lemma bounded_empty (s' : State) :
  boxes s' = [] -> dragStart s' = None -> draftBox s' = None -> bounded s'.
Proof.
  unfold bounded. intros -> -> ->.
  destruct (imageNatural s'); [|auto].
  split; [constructor|split; intros ? E; discriminate E].
Qed.

Lemma handlePointerDown_bounded (cx cy : Q) (s : State) :
  bounded s -> bounded (handlePointerDown cx cy s).
Proof.
  intro H. unfold handlePointerDown.
  destruct (String.eqb (imageUrl s) EmptyString); [exact H|].
  destruct (canvasPointToImagePoint s cx cy) as [pt|] eqn:Hpt; [|exact H].
  unfold bounded in *. cbn [imageNatural boxes dragStart draftBox setDraftBox
                              setDragStart].
  destruct (imageNatural s) as [n|] eqn:Hn.
  - destruct H as [Hb _]. split; [exact Hb|]. split.
    + intros ds E. inversion E; subst ds.
      eapply canvasPoint_within; eauto.
    + intros d E. inversion E; subst d. left. simpl. lra.
  - rewrite canvasPoint_needs_size in Hpt by exact Hn. discriminate.
Qed.

Lemma handlePointerMove_bounded (cx cy : Q) (s : State) :
  bounded s -> bounded (handlePointerMove cx cy s).
Proof.
  intro H. unfold handlePointerMove.
  destruct (dragStart s) as [ds|] eqn:Hds; [|exact H].
  destruct (draftBox s) as [d|] eqn:Hd; [|exact H].
  destruct (canvasPointToImagePoint s cx cy) as [pt|] eqn:Hpt; [|exact H].
  unfold bounded in *. cbn [imageNatural boxes dragStart draftBox setDraftBox].
  destruct (imageNatural s) as [n|] eqn:Hn.
  - destruct H as [Hb [Ha _]]. split; [exact Hb|]. split.
    + exact Ha.
    + intros d' E. injection E as <-. right.
      apply span_within; [apply Ha; exact Hds|].
      eapply canvasPoint_within; eauto.
  - destruct H as [_ [_ H]]. congruence.
Qed.

Lemma withinImage_withId (n : Natural.t) (uid : string) (d : Box.t) :
  withinImage n d -> withinImage n (withId uid d).
Proof.
  intro H. exact H.
Qed.

Lemma handlePointerUp_bounded (uid : string) (s : State) :
  bounded s -> bounded (handlePointerUp uid s).
Proof.
  intro H. unfold handlePointerUp.
  destruct (draftBox s) as [d|] eqn:Hd.
  2:{ apply (bounded_drop s); auto. }
  destruct (Qltb (Box.w d) 10 || Qltb (Box.h d) 10) eqn:Hsz.
  { apply (bounded_drop s); auto. }
  apply orb_false_iff in Hsz. destruct Hsz as [Hw _].
  apply Qltb_false in Hw.
  unfold bounded in *.
  destruct (imageNatural s) as [n|] eqn:Hn.
  2:{ destruct H as [_ [_ H]]. congruence. }
  destruct H as [Hb [_ Hdraft]].
  assert (Hin : withinImage n d).
  { destruct (Hdraft d Hd) as [Hsmall|Hin]; [lra|exact Hin]. }
  assert (Hnew : Forall (withinImage n) [withId uid d]).
  { constructor; [apply withinImage_withId; exact Hin|constructor]. }
  destruct (Box.type d);
    cbn [imageNatural boxes dragStart draftBox setDraftBox setDragStart setBoxes];
    rewrite Hn; (split; [|split; discriminate]);
    apply Forall_app; split; auto.
  apply Forall_filter. exact Hb.
Qed.

Lemma deleteBox_bounded (id : string) (s : State) :
  bounded s -> bounded (deleteBox id s).
Proof.
  unfold bounded, deleteBox.
  cbn [imageNatural boxes dragStart draftBox setBoxes].
  destruct (imageNatural s).
  - intros [Hb Hrest]. split; [apply Forall_filter; exact Hb|exact Hrest].
  - intros [Hb Hrest]. rewrite Hb. split; [reflexivity|exact Hrest].
Qed.

Lemma step_bounded (sqrt : Q -> Q) (s : State) (e : Event) :
  match e with
  | ImgLoad _ _ => boxes s = [] /\ dragStart s = None /\ draftBox s = None
  | _ => True
  end ->
  bounded s -> bounded (step sqrt s e).
Proof.
  intros Hload H. destruct e; simpl.
  - destruct f; [apply bounded_empty; reflexivity|exact H].
  - destruct Hload as [Hb [Ha Hd]]. apply bounded_empty; assumption.
  - apply (bounded_ext s); auto.
  - unfold onPointerDown.
    set (s1 := setPointers _ s).
    assert (H1 : bounded s1) by (apply (bounded_ext s); auto).
    destruct (Nat.eqb _ 2).
    + destruct (map_values (pointers s1)) as [|p0 [|p1 ps]]; try exact H1.
      apply (bounded_drop s); auto.
    + apply handlePointerDown_bounded. exact H1.
  - unfold onPointerMove.
    destruct (negb (map_has pointerId (pointers s))); [exact H|].
    set (s1 := setPointers _ s).
    assert (H1 : bounded s1) by (apply (bounded_ext s); auto).
    destruct (Nat.eqb _ 2);
      [|apply handlePointerMove_bounded; exact H1].
    destruct (pinchStart s1);
      [|apply handlePointerMove_bounded; exact H1].
    destruct (map_values (pointers s1)) as [|p0 [|p1 ps]];
      try (apply handlePointerMove_bounded; exact H1).
    apply (bounded_ext s); auto.
  - unfold onPointerUp.
    set (s1 := setPointers _ s).
    set (s2 := if Nat.ltb _ 2 then setPinchStart None s1 else s1).
    assert (H2 : bounded s2).
    { apply (bounded_ext s); auto; subst s2; destruct (Nat.ltb _ 2);
        reflexivity. }
    destruct (Nat.eqb _ 0); [|exact H2].
    apply (bounded_ext (handlePointerUp uid s2)); auto.
    apply handlePointerUp_bounded. exact H2.
  - apply (bounded_drop s); auto.
  - apply bounded_empty; reflexivity.
  - apply (bounded_ext s); auto.
  - apply (bounded_ext s); auto.
  - apply (bounded_ext s); auto.
  - apply (bounded_ext s); auto; destruct p; reflexivity.
  - apply (bounded_ext s); auto.
  - apply deleteBox_bounded. exact H.
Qed.

Lemma run_bounded (sqrt : Q -> Q) (es : list Event) (s : State) :
  loadsSettled sqrt s es -> bounded s -> bounded (run sqrt s es).
Proof.
  revert s. induction es as [|e es IH]; intros s Hl H; simpl.
  - exact H.
  - destruct Hl as [He Hl]. apply IH; [exact Hl|].
    apply step_bounded; assumption.
Qed.

(** In the exact model, in a run whose [load] events find the annotation
    cells empty, every committed rectangle lies inside the natural size of
    the image. *)
Lemma run_withinImage_exact (sqrt : Q -> Q) (r : DOMRect.t) (es : list Event)
      (n : Natural.t) :
  loadsSettled sqrt (initialState r) es ->
  imageNatural (run sqrt (initialState r) es) = Some n ->
  Forall (withinImage n) (boxes (run sqrt (initialState r) es)).
Proof.
  intros Hl Hn.
  assert (H : bounded (run sqrt (initialState r) es)).
  { apply run_bounded; [exact Hl|]. apply bounded_empty; reflexivity. }
  unfold bounded in H. rewrite Hn in H. tauto.
Qed.

(** * Further properties *)

(** ** The base fit *)

Lemma Qdiv_mult_cancel (a b : Q) : 0 < b -> (a / b) * b == a.
Proof.
  intro H. field. lra.
Qed.

Lemma baseFit_facts (s : State) (info : Info.t) (n : Natural.t) :
  getCanvasAndImageScale s = Some info ->
  imageNatural s = Some n ->
  0 < Natural.w n -> 0 < Natural.h n ->
  0 < DOMRect.width (canvasRect s) -> 0 < DOMRect.height (canvasRect s) ->
  Info.baseW info == Info.baseScale info * Natural.w n /\
  Info.baseH info == Info.baseScale info * Natural.h n /\
  2 * Info.baseOffsetX info + Info.baseW info == DOMRect.width (canvasRect s) /\
  2 * Info.baseOffsetY info + Info.baseH info == DOMRect.height (canvasRect s) /\
  Info.baseW info <= DOMRect.width (canvasRect s) /\
  Info.baseH info <= DOMRect.height (canvasRect s) /\
  (Info.baseW info == DOMRect.width (canvasRect s) \/
   Info.baseH info == DOMRect.height (canvasRect s)).
Proof.
  intros Hinfo Hn Hw Hh Hdw Hdh.
  unfold getCanvasAndImageScale in Hinfo. rewrite Hn in Hinfo.
  destruct (negb (mounted s)); [discriminate|].
  set (W := Natural.w n) in *. set (H := Natural.h n) in *.
  set (dW := DOMRect.width (canvasRect s)) in *.
  set (dH := DOMRect.height (canvasRect s)) in *.
  assert (Ea : (W / H) * H == W) by (apply Qdiv_mult_cancel; exact Hh).
  assert (Ec : (dW / dH) * dH == dW) by (apply Qdiv_mult_cancel; exact Hdh).
  assert (Ha : 0 < W / H) by (apply Qlt_shift_div_l; [exact Hh|lra]).
  destruct (Qltb (dW / dH) (W / H)) eqn:T in Hinfo;
    inversion Hinfo; subst info; clear Hinfo; cbn [Info.baseW Info.baseH
      Info.baseOffsetX Info.baseOffsetY Info.baseScale].
  - apply Qltb_true in T.
    assert (Eh : dW / (W / H) == dW * H / W) by (field; split; lra).
    assert (Le : dW * H / W <= dH).
    { apply Qle_shift_div_r; [exact Hw|].
      assert (dW * H < dH * W); [|lra].
      rewrite <- Ec, <- Ea at 1.
      setoid_replace (dW / dH * dH * H) with ((dW / dH) * (dH * H)) by ring.
      setoid_replace (dH * (W / H * H)) with ((W / H) * (dH * H)) by ring.
      apply Qmult_lt_compat_r; [|exact T].
      apply Qmult_lt_0_compat; assumption. }
    repeat split; try (left; reflexivity); try lra;
      try (field; repeat split; lra).
  - apply Qltb_false in T.
    assert (Le : dH * (W / H) <= dW).
    { rewrite <- Ec. rewrite (Qmult_comm dH).
      apply Qmult_le_compat_r; [exact T|lra]. }
    repeat split; try (right; reflexivity); try lra;
      try (field; repeat split; lra).
Qed.

Lemma Qdiv_nonneg_iff (u k : Q) : 0 < k -> (0 <= u / k <-> 0 <= u).
Proof.
  intro Hk. split; intro H.
  - rewrite <- (Qdiv_mult_cancel u k Hk).
    apply Qmult_le_0_compat; [exact H|lra].
  - apply Qle_shift_div_l; [exact Hk|lra].
Qed.

Lemma Qdiv_le_iff (u k c : Q) : 0 < k -> (u / k <= c <-> u <= c * k).
Proof.
  intro Hk. split; intro H.
  - rewrite <- (Qdiv_mult_cancel u k Hk).
    apply Qmult_le_compat_r; [exact H|lra].
  - apply Qle_shift_div_r; assumption.
Qed.

(** X1.  The base fit is a "contain" fit: for an image and a canvas of
    positive size the fitted image keeps the aspect ratio of the image,
    lies inside the canvas, is centred on both axes and fills the canvas
    on one of them; [baseScale] is positive and is the ratio of the fitted
    size to the natural size on both axes. *)
Theorem contain_fit :
  forall (s : State) (info : Info.t) (n : Natural.t),
    getCanvasAndImageScale s = Some info ->
    imageNatural s = Some n ->
    0 < Natural.w n -> 0 < Natural.h n ->
    0 < DOMRect.width (canvasRect s) -> 0 < DOMRect.height (canvasRect s) ->
    let dW := DOMRect.width (canvasRect s) in
    let dH := DOMRect.height (canvasRect s) in
    Info.baseW info * Natural.h n == Info.baseH info * Natural.w n /\
    0 <= Info.baseOffsetX info /\ 0 <= Info.baseOffsetY info /\
    Info.baseOffsetX info + Info.baseW info <= dW /\
    Info.baseOffsetY info + Info.baseH info <= dH /\
    dW - (Info.baseOffsetX info + Info.baseW info) == Info.baseOffsetX info /\
    dH - (Info.baseOffsetY info + Info.baseH info) == Info.baseOffsetY info /\
    (Info.baseW info == dW \/ Info.baseH info == dH) /\
    0 < Info.baseScale info /\
    Info.baseW info == Info.baseScale info * Natural.w n /\
    Info.baseH info == Info.baseScale info * Natural.h n.
Proof.
  intros s info n Hinfo Hn Hw Hh Hdw Hdh dW dH.
  destruct (baseFit_facts s info n Hinfo Hn Hw Hh Hdw Hdh)
    as [Ew [Eh [Cx [Cy [Lw [Lh Fill]]]]]].
  destruct (baseScale_pos s info n Hinfo Hn Hw Hh Hdw Hdh) as [Hbs _].
  subst dW dH.
  repeat split; try lra; try exact Fill.
  rewrite Ew, Eh. ring.
Qed.

Lemma contain_fit_witness :
  exists info,
    getCanvasAndImageScale sampleZoomed = Some info /\
    Info.baseOffsetX info + Info.baseW info <= 500 /\
    Info.baseOffsetY info + Info.baseH info <= 400 /\
    0 < Info.baseScale info.
Proof.
  eexists. split; [reflexivity|].
  destruct (contain_fit sampleZoomed _ (Natural.mk 1000 800) eq_refl eq_refl)
    as [_ [_ [_ [A [B [_ [_ [_ [C _]]]]]]]]]; try reflexivity.
  split; [exact A|]. split; [exact B|exact C].
Defined.

(** Acceptance of a pointer, read on the canvas. *)
Lemma canvasPoint_accepts_iff :
  forall (s : State) (info : Info.t) (n : Natural.t) (clientX clientY : Q),
    getCanvasAndImageScale s = Some info ->
    imageNatural s = Some n ->
    0 < Natural.w n -> 0 < Natural.h n ->
    0 < DOMRect.width (canvasRect s) -> 0 < DOMRect.height (canvasRect s) ->
    0 < View.scale (view s) ->
    let d := drawImageDest info (view s) in
    let left := DOMRect.left (canvasRect s) in
    let top := DOMRect.top (canvasRect s) in
    canvasPointToImagePoint s clientX clientY <> None <->
    (left + StrokeRect.x d <= clientX <= left + StrokeRect.x d + StrokeRect.w d
     /\
     top + StrokeRect.y d <= clientY <= top + StrokeRect.y d + StrokeRect.h d).
Proof.
  intros s info n cx cy Hinfo Hn Hw Hh Hdw Hdh Hsc d left top.
  destruct (baseFit_facts s info n Hinfo Hn Hw Hh Hdw Hdh)
    as [Ew [Eh _]].
  destruct (baseScale_pos s info n Hinfo Hn Hw Hh Hdw Hdh) as [Hbs Hrect].
  unfold canvasPointToImagePoint. rewrite Hinfo, Hn. cbv zeta.
  rewrite Hrect. fold left top.
  set (u := cx - left - Info.baseOffsetX info - View.tx (view s)).
  set (v := cy - top - Info.baseOffsetY info - View.ty (view s)).
  set (sc := View.scale (view s)) in *.
  set (bs := Info.baseScale info) in *.
  assert (X0 : 0 <= u / sc / bs <-> 0 <= u).
  { rewrite (Qdiv_nonneg_iff _ bs Hbs). apply Qdiv_nonneg_iff. exact Hsc. }
  assert (Y0 : 0 <= v / sc / bs <-> 0 <= v).
  { rewrite (Qdiv_nonneg_iff _ bs Hbs). apply Qdiv_nonneg_iff. exact Hsc. }
  assert (X1 : u / sc / bs <= Natural.w n <-> u <= Info.baseW info * sc).
  { rewrite (Qdiv_le_iff _ bs _ Hbs), (Qdiv_le_iff _ sc _ Hsc), Ew.
    setoid_replace (Natural.w n * bs * sc) with (bs * Natural.w n * sc)
      by ring. tauto. }
  assert (Y1 : v / sc / bs <= Natural.h n <-> v <= Info.baseH info * sc).
  { rewrite (Qdiv_le_iff _ bs _ Hbs), (Qdiv_le_iff _ sc _ Hsc), Eh.
    setoid_replace (Natural.h n * bs * sc) with (bs * Natural.h n * sc)
      by ring. tauto. }
  subst d. unfold drawImageDest. cbn [StrokeRect.x StrokeRect.y StrokeRect.w
                                        StrokeRect.h].
  fold sc.
  destruct (Qltb (u / sc / bs) 0) eqn:T1.
  { apply Qltb_true in T1. simpl. split; [congruence|].
    intros [[A _] _]. exfalso.
    assert (0 <= u) by (subst u; lra). apply X0 in H. lra. }
  destruct (Qltb (v / sc / bs) 0) eqn:T2.
  { apply Qltb_true in T2. simpl. split; [congruence|].
    intros [_ [A _]]. exfalso.
    assert (0 <= v) by (subst v; lra). apply Y0 in H. lra. }
  destruct (Qltb (Natural.w n) (u / sc / bs)) eqn:T3.
  { apply Qltb_true in T3. simpl. split; [congruence|].
    intros [[_ A] _]. exfalso.
    assert (u <= Info.baseW info * sc) by (subst u; lra).
    apply X1 in H. lra. }
  destruct (Qltb (Natural.h n) (v / sc / bs)) eqn:T4.
  { apply Qltb_true in T4. simpl. split; [congruence|].
    intros [_ [_ A]]. exfalso.
    assert (v <= Info.baseH info * sc) by (subst v; lra).
    apply Y1 in H. lra. }
  apply Qltb_false in T1, T2, T3, T4. simpl.
  apply X0 in T1. apply Y0 in T2. apply X1 in T3. apply Y1 in T4.
  split; [intros _|discriminate].
  subst u v. repeat split; lra.
Qed.

(** X2.  A pointer is accepted on the photo as drawn.  Over exact
    arithmetic and with a positive view scale, [canvasPointToImagePoint]
    answers a point for every client point strictly inside the rectangle
    that the draw effect covers with the image, and answers [null] for
    every client point strictly beyond one of its sides.  On the sides
    themselves, where the rounding of the quotients decides in floating
    point, nothing is stated. *)
Theorem pointer_hits_drawn_image :
  forall (s : State) (info : Info.t) (n : Natural.t) (clientX clientY : Q),
    getCanvasAndImageScale s = Some info ->
    imageNatural s = Some n ->
    0 < Natural.w n -> 0 < Natural.h n ->
    0 < DOMRect.width (canvasRect s) -> 0 < DOMRect.height (canvasRect s) ->
    0 < View.scale (view s) ->
    let d := drawImageDest info (view s) in
    let left := DOMRect.left (canvasRect s) in
    let top := DOMRect.top (canvasRect s) in
    (left + StrokeRect.x d < clientX /\
     clientX < left + StrokeRect.x d + StrokeRect.w d /\
     top + StrokeRect.y d < clientY /\
     clientY < top + StrokeRect.y d + StrokeRect.h d ->
     canvasPointToImagePoint s clientX clientY <> None) /\
    (clientX < left + StrokeRect.x d \/
     left + StrokeRect.x d + StrokeRect.w d < clientX \/
     clientY < top + StrokeRect.y d \/
     top + StrokeRect.y d + StrokeRect.h d < clientY ->
     canvasPointToImagePoint s clientX clientY = None).
Proof.
  intros s info n cx cy Hinfo Hn Hw Hh Hdw Hdh Hsc d left top.
  pose proof (canvasPoint_accepts_iff s info n cx cy Hinfo Hn Hw Hh Hdw Hdh
                Hsc) as E.
  cbv zeta in E. fold d left top in E.
  split.
  - intros [A [B [C D]]]. apply (proj2 E). lra.
  - intro H.
    destruct (canvasPointToImagePoint s cx cy) as [p|] eqn:T;
      [exfalso|reflexivity].
    assert (X : Some p <> None) by discriminate.
    apply (proj1 E) in X. lra.
Qed.

Lemma pointer_hits_drawn_image_witness :
  canvasPointToImagePoint sampleZoomed 205 105 <> None.
Proof.
  apply (proj1 (pointer_hits_drawn_image sampleZoomed _ (Natural.mk 1000 800)
                  205 105 eq_refl eq_refl eq_refl eq_refl eq_refl eq_refl
                  eq_refl)).
  vm_compute. repeat split.
Defined.

(** X3.  Drawing inverts pointing: when [canvasPointToImagePoint] answers
    an image point for a client point, under a positive view scale, the
    corner that [drawBox] strokes for that image point is met at the same
    client point. *)
Theorem draw_inverts_pointing :
  forall (s : State) (info : Info.t) (n : Natural.t) (clientX clientY : Q)
         (p : Pt.t) (b : Box.t),
    getCanvasAndImageScale s = Some info ->
    imageNatural s = Some n ->
    0 < Natural.w n -> 0 < Natural.h n ->
    0 < DOMRect.width (canvasRect s) -> 0 < DOMRect.height (canvasRect s) ->
    0 < View.scale (view s) ->
    canvasPointToImagePoint s clientX clientY = Some p ->
    Box.x b = Pt.x p -> Box.y b = Pt.y p ->
    let r := drawBox info (view s) b in
    let c := clientOfCanvas (Info.rect info) (StrokeRect.x r) (StrokeRect.y r) in
    Pt.x c == clientX /\ Pt.y c == clientY.
Proof.
  intros s info n cx cy p b Hinfo Hn Hw Hh Hdw Hdh Hsc Hp Hx Hy r c.
  destruct (baseScale_pos s info n Hinfo Hn Hw Hh Hdw Hdh) as [Hbs _].
  unfold canvasPointToImagePoint in Hp. rewrite Hinfo, Hn in Hp.
  cbv zeta in Hp.
  destruct (_ || _) in Hp; [discriminate|].
  destruct (_ || _) in Hp; [discriminate|].
  injection Hp as <-.
  subst r c. unfold drawBox, clientOfCanvas.
  cbn [StrokeRect.x StrokeRect.y Pt.x Pt.y]. rewrite Hx, Hy.
  cbn [Pt.x Pt.y]. split; field; split; lra.
Qed.

Lemma draw_inverts_pointing_witness :
  exists info p,
    getCanvasAndImageScale sampleZoomed = Some info /\
    canvasPointToImagePoint sampleZoomed 205 105 = Some p /\
    let r := drawBox info (view sampleZoomed)
               (Box.mk "p" window "Window 1" (Pt.x p) (Pt.y p) 40 30) in
    let c := clientOfCanvas (Info.rect info) (StrokeRect.x r) (StrokeRect.y r) in
    Pt.x c == 205 /\ Pt.y c == 105.
Proof.
  eexists. eexists. split; [reflexivity|]. split; [reflexivity|].
  eapply (draw_inverts_pointing sampleZoomed _ (Natural.mk 1000 800) 205 105);
    reflexivity.
Defined.

(** X4.  A rectangle inside the image is stroked inside the photo as
    drawn: for a rectangle within the natural size, with sides that are
    not negative, the rectangle [drawBox] strokes lies in the rectangle
    that the draw effect covers with the image, whatever the zoom and
    pan. *)
Theorem box_drawn_inside_image :
  forall (s : State) (info : Info.t) (n : Natural.t) (b : Box.t),
    getCanvasAndImageScale s = Some info ->
    imageNatural s = Some n ->
    0 < Natural.w n -> 0 < Natural.h n ->
    0 < DOMRect.width (canvasRect s) -> 0 < DOMRect.height (canvasRect s) ->
    0 <= View.scale (view s) ->
    withinImage n b -> 0 <= Box.w b -> 0 <= Box.h b ->
    let r := drawBox info (view s) b in
    let d := drawImageDest info (view s) in
    StrokeRect.x d <= StrokeRect.x r /\
    StrokeRect.y d <= StrokeRect.y r /\
    0 <= StrokeRect.w r /\ 0 <= StrokeRect.h r /\
    StrokeRect.x r + StrokeRect.w r <= StrokeRect.x d + StrokeRect.w d /\
    StrokeRect.y r + StrokeRect.h r <= StrokeRect.y d + StrokeRect.h d.
Proof.
  intros s info n b Hinfo Hn Hw Hh Hdw Hdh Hsc [Bx [By [Bw Bh]]] Wn Hn0 r d.
  destruct (baseFit_facts s info n Hinfo Hn Hw Hh Hdw Hdh) as [Ew [Eh _]].
  destruct (baseScale_pos s info n Hinfo Hn Hw Hh Hdw Hdh) as [Hbs _].
  subst r d. unfold drawBox, drawImageDest.
  cbn [StrokeRect.x StrokeRect.y StrokeRect.w StrokeRect.h].
  set (sc := View.scale (view s)) in *.
  set (bs := Info.baseScale info) in *.
  assert (K : 0 <= bs * sc) by (apply Qmult_le_0_compat; lra).
  assert (P : forall a, 0 <= a -> 0 <= a * bs * sc).
  { intros a Ha. rewrite <- Qmult_assoc. apply Qmult_le_0_compat; lra. }
  assert (M : forall a c, a <= c -> a * bs * sc <= c * bs * sc).
  { intros a c Hac. rewrite <- !Qmult_assoc.
    apply Qmult_le_compat_r; assumption. }
  pose proof (P _ Bx). pose proof (P _ By).
  pose proof (P _ Wn). pose proof (P _ Hn0).
  pose proof (M _ _ Bw). pose proof (M _ _ Bh).
  rewrite Ew, Eh.
  repeat split; lra.
Qed.

Lemma box_drawn_inside_image_witness :
  exists info,
    getCanvasAndImageScale sampleZoomed = Some info /\
    let r := drawBox info (view sampleZoomed) samplePoint in
    let d := drawImageDest info (view sampleZoomed) in
    StrokeRect.x r + StrokeRect.w r <= StrokeRect.x d + StrokeRect.w d.
Proof.
  eexists. split; [reflexivity|].
  apply (box_drawn_inside_image sampleZoomed _ (Natural.mk 1000 800)
           samplePoint eq_refl eq_refl);
    try reflexivity; unfold withinImage; simpl; lra.
Defined.

(** ** The draft while dragging *)

Lemma Qmin_plus_abs (a b : Q) : Qmin a b + Qabs (b - a) == Qmax a b.
Proof.
  destruct (Q.min_spec a b) as [[L E]|[L E]];
    destruct (Q.max_spec a b) as [[L' E']|[L' E']];
    rewrite E, E'; apply Qabs_case; intros; lra.
Qed.

(** X5.  An accepted pointer move makes the draft the bounding box of the
    drag anchor and the current point, in whichever direction the pointer
    went: its corner is the minimum of the two points, the opposite corner
    their maximum, its sides are not negative, and kind, label and anchor
    stay as they were. *)
Theorem draft_spans_drag :
  forall (s : State) (clientX clientY : Q) (ds pt : Pt.t) (d : Box.t),
    dragStart s = Some ds -> draftBox s = Some d ->
    canvasPointToImagePoint s clientX clientY = Some pt ->
    exists d',
      draftBox (handlePointerMove clientX clientY s) = Some d' /\
      dragStart (handlePointerMove clientX clientY s) = Some ds /\
      Box.type d' = Box.type d /\ Box.label d' = Box.label d /\
      Box.x d' == Qmin (Pt.x ds) (Pt.x pt) /\
      Box.y d' == Qmin (Pt.y ds) (Pt.y pt) /\
      Box.x d' + Box.w d' == Qmax (Pt.x ds) (Pt.x pt) /\
      Box.y d' + Box.h d' == Qmax (Pt.y ds) (Pt.y pt) /\
      0 <= Box.w d' /\ 0 <= Box.h d'.
Proof.
  intros s cx cy ds pt d Hds Hd Hpt.
  unfold handlePointerMove. rewrite Hds, Hd, Hpt. cbv zeta.
  eexists. split; [reflexivity|].
  cbn [dragStart setDraftBox Box.type Box.label Box.x Box.y Box.w Box.h].
  repeat split; try reflexivity; try exact Hds;
    try apply Qmin_plus_abs; apply Qabs_nonneg.
Qed.

Lemma draft_spans_drag_witness :
  let s := run floorSqrt (initialState sampleRect)
             [FileChange (Some "blob:a"%string); ImgLoad 1000 800;
              PointerDown 1 75 150] in
  exists d',
    draftBox (handlePointerMove 50 50 s) = Some d' /\
    Box.x d' == 100 /\ Box.y d' == 100 /\
    Box.x d' + Box.w d' == 150 /\ Box.y d' + Box.h d' == 300.
Proof.
  intro s.
  edestruct (draft_spans_drag s 50 50)
    as [d' [E [_ [_ [_ [X [Y [XW [YH _]]]]]]]]].
  - vm_compute. reflexivity.
  - vm_compute. reflexivity.
  - vm_compute. reflexivity.
  - exists d'. split; [exact E|].
    repeat split.
    + rewrite X. vm_compute. reflexivity.
    + rewrite Y. vm_compute. reflexivity.
    + rewrite XW. vm_compute. reflexivity.
    + rewrite YH. vm_compute. reflexivity.
Defined.

(** ** The [pointers] map *)

Lemma map_has_In (k : Z) (m : list (Z * Pt.t)) :
  map_has k m = true <-> In k (map_keys m).
Proof.
  unfold map_has, map_keys. rewrite existsb_exists, in_map_iff.
  split; intros [kv [A B]]; exists kv.
  - apply Z.eqb_eq in B. auto.
  - rewrite A. split; [exact B|apply Z.eqb_refl].
Qed.

Lemma map_set_keys (k : Z) (v : Pt.t) (m : list (Z * Pt.t)) :
  map_keys (map_set k v m)
  = if map_has k m then map_keys m else map_keys m ++ [k].
Proof.
  unfold map_has, map_keys. induction m as [|[k' v'] m IH]; simpl.
  - reflexivity.
  - destruct (Z.eqb k' k) eqn:E; simpl.
    + apply Z.eqb_eq in E. subst k'. reflexivity.
    + rewrite IH. destruct (existsb _ m); reflexivity.
Qed.

Lemma map_set_length (k : Z) (v : Pt.t) (m : list (Z * Pt.t)) :
  List.length (map_set k v m)
  = if map_has k m then List.length m else S (List.length m).
Proof.
  rewrite <- (length_map fst (map_set k v m)). fold (map_keys (map_set k v m)).
  rewrite map_set_keys. unfold map_keys.
  destruct (map_has k m); [|rewrite length_app; simpl];
    rewrite length_map; lia.
Qed.

Lemma map_set_has (k : Z) (v : Pt.t) (m : list (Z * Pt.t)) :
  map_has k (map_set k v m) = true.
Proof.
  apply map_has_In. rewrite map_set_keys.
  destruct (map_has k m) eqn:E.
  - apply map_has_In. exact E.
  - apply in_or_app. right. left. reflexivity.
Qed.

Lemma map_set_NoDup (k : Z) (v : Pt.t) (m : list (Z * Pt.t)) :
  NoDup (map_keys m) -> NoDup (map_keys (map_set k v m)).
Proof.
  intro H. rewrite map_set_keys. destruct (map_has k m) eqn:E; [exact H|].
  apply NoDup_app; [exact H|repeat constructor; intros []|].
  intros a Ha [<-|[]].
  apply map_has_In in Ha. congruence.
Qed.

Lemma map_delete_keys (k : Z) (m : list (Z * Pt.t)) :
  map_keys (map_delete k m) = filter (fun k' => negb (Z.eqb k' k)) (map_keys m).
Proof.
  unfold map_delete, map_keys. induction m as [|[k' v'] m IH]; simpl.
  - reflexivity.
  - destruct (Z.eqb k' k); simpl; rewrite IH; reflexivity.
Qed.

Lemma map_delete_has (k k' : Z) (m : list (Z * Pt.t)) :
  map_has k' (map_delete k m) = negb (Z.eqb k' k) && map_has k' m.
Proof.
  apply eq_true_iff_eq.
  rewrite andb_true_iff, !map_has_In, map_delete_keys, filter_In.
  tauto.
Qed.

Lemma map_delete_NoDup (k : Z) (m : list (Z * Pt.t)) :
  NoDup (map_keys m) -> NoDup (map_keys (map_delete k m)).
Proof.
  intro H. rewrite map_delete_keys. apply NoDup_filter. exact H.
Qed.

(** ** Gesture cells *)

Lemma handlePointerDown_gesture (cx cy : Q) (s : State) :
  pointers (handlePointerDown cx cy s) = pointers s /\
  pinchStart (handlePointerDown cx cy s) = pinchStart s /\
  (handlePointerDown cx cy s = s \/
   (draftBox (handlePointerDown cx cy s) <> None /\
    dragStart (handlePointerDown cx cy s) <> None)).
Proof.
  unfold handlePointerDown. branches; repeat split; auto;
    right; split; discriminate.
Qed.

Lemma handlePointerMove_gesture (cx cy : Q) (s : State) :
  pointers (handlePointerMove cx cy s) = pointers s /\
  pinchStart (handlePointerMove cx cy s) = pinchStart s /\
  dragStart (handlePointerMove cx cy s) = dragStart s /\
  (draftBox (handlePointerMove cx cy s) = None <-> draftBox s = None).
Proof.
  unfold handlePointerMove.
  destruct (dragStart s) eqn:A; [|repeat split; auto].
  destruct (draftBox s) eqn:B; [|repeat split; auto].
  destruct (canvasPointToImagePoint s cx cy);
    [|repeat split; auto; congruence].
  cbn [pointers pinchStart dragStart draftBox setDraftBox].
  repeat split; auto; congruence.
Qed.

Lemma handlePointerUp_gesture (uid : string) (s : State) :
  pointers (handlePointerUp uid s) = pointers s /\
  pinchStart (handlePointerUp uid s) = pinchStart s /\
  dragStart (handlePointerUp uid s) = None /\
  draftBox (handlePointerUp uid s) = None.
Proof.
  unfold handlePointerUp. destruct (draftBox s) eqn:A; [|auto].
  branches; auto.
Qed.

Lemma length_zero_nil {A : Type} (l : list A) :
  Nat.eqb (List.length l) 0 = true -> l = [].
Proof.
  destruct l; [reflexivity|discriminate].
Qed.

Lemma gestureOK_frame (s s' : State) :
  pointers s' = pointers s -> pinchStart s' = pinchStart s ->
  draftBox s' = draftBox s -> dragStart s' = dragStart s ->
  gestureOK s -> gestureOK s'.
Proof.
  unfold gestureOK. intros -> -> -> ->. exact (fun H => H).
Qed.

(** Dropping the draft and its anchor keeps the cells in order. *)
Lemma gestureOK_drop (s s' : State) :
  pointers s' = pointers s -> pinchStart s' = pinchStart s ->
  draftBox s' = None -> dragStart s' = None ->
  gestureOK s -> gestureOK s'.
Proof.
  unfold gestureOK. intros -> -> -> -> [Hk [Hp _]].
  repeat split; auto; congruence.
Qed.

Lemma step_gestureOK (sqrt : Q -> Q) (s : State) (e : Event) :
  gestureOK s -> gestureOK (step sqrt s e).
Proof.
  intro G. destruct e; cbn [step];
    try (apply (gestureOK_frame s); auto; fail);
    try (apply (gestureOK_drop s); auto; fail).
  - (* FileChange *)
    destruct f; [apply (gestureOK_drop s); auto|exact G].
  - (* PointerDown *)
    destruct G as [Hk [Hp [Hd Hn]]].
    unfold onPointerDown.
    set (s1 := setPointers _ s).
    assert (K1 : NoDup (map_keys (pointers s1)))
      by (apply map_set_NoDup; exact Hk).
    assert (N1 : pointers s1 <> []).
    { intro E. pose proof (map_set_has pointerId (Pt.mk clientX clientY)
                             (pointers s)) as B.
      change (map_set pointerId (Pt.mk clientX clientY) (pointers s))
        with (pointers s1) in B. rewrite E in B. discriminate. }
    assert (L1 : (List.length (pointers s) <= List.length (pointers s1))%nat).
    { subst s1. cbn [pointers setPointers].
      rewrite map_set_length. destruct (map_has _ _); lia. }
    destruct (Nat.eqb (List.length (pointers s1)) 2) eqn:E2.
    + apply Nat.eqb_eq in E2.
      assert (V : List.length (map_values (pointers s1)) = 2%nat)
        by (unfold map_values; rewrite length_map; exact E2).
      destruct (map_values (pointers s1)) as [|p0 [|p1 ps]];
        try discriminate V.
      unfold gestureOK.
      cbn [pointers pinchStart draftBox dragStart setDraftBox
             setDragStart setPinchStart].
      repeat split; auto; try congruence. intros _. rewrite E2. lia.
    + destruct (handlePointerDown_gesture clientX clientY s1)
        as [A [B C]].
      unfold gestureOK. rewrite A, B. repeat split; auto.
      * intro P. apply Hp in P. lia.
      * destruct C as [C|[C1 C2]]; [rewrite C; exact (proj1 Hd)|tauto].
      * destruct C as [C|[C1 C2]]; [rewrite C; exact (proj2 Hd)|tauto].
  - (* PointerMove *)
    unfold onPointerMove.
    destruct (map_has pointerId (pointers s)) eqn:Has; cbn [negb];
      [|exact G].
    set (s1 := setPointers _ s).
    assert (L1 : List.length (pointers s1) = List.length (pointers s)).
    { subst s1. cbn [pointers setPointers]. rewrite map_set_length, Has.
      reflexivity. }
    assert (G1 : gestureOK s1).
    { destruct G as [Hk [Hp [Hd Hn]]]. unfold gestureOK.
      repeat split; try tauto.
      - apply map_set_NoDup. exact Hk.
      - intro P. rewrite L1. auto.
      - intros _ E. rewrite E in L1. destruct (pointers s); discriminate. }
    assert (M : gestureOK (handlePointerMove clientX clientY s1)).
    { destruct G1 as [G1 [G2 [G3 G4]]].
      destruct (handlePointerMove_gesture clientX clientY s1)
        as [A [B [C D]]].
      unfold gestureOK. rewrite A, B, C. repeat split; auto; tauto. }
    destruct (Nat.eqb _ 2); [|exact M].
    destruct (pinchStart s1); [|exact M].
    destruct (map_values (pointers s1)) as [|p0 [|p1 ps]]; try exact M.
    apply (gestureOK_frame s1); auto.
  - (* PointerUp *)
    destruct G as [Hk [Hp [Hd Hn]]].
    unfold onPointerUp.
    set (s1 := setPointers _ s).
    set (s2 := if Nat.ltb _ 2 then setPinchStart None s1 else s1).
    assert (K2 : NoDup (map_keys (pointers s2))).
    { subst s2. destruct (Nat.ltb _ 2); apply map_delete_NoDup; exact Hk. }
    assert (P2 : pinchStart s2 <> None ->
                 (2 <= List.length (pointers s2))%nat).
    { subst s2. destruct (Nat.ltb _ 2) eqn:L; [intro C; elim C; reflexivity|].
      intros _. apply Nat.ltb_ge in L. exact L. }
    assert (D2 : draftBox s2 = draftBox s /\ dragStart s2 = dragStart s).
    { subst s2. destruct (Nat.ltb _ 2); split; reflexivity. }
    destruct D2 as [D2 D2'].
    destruct (Nat.eqb (List.length (pointers s2)) 0) eqn:Z.
    + destruct (handlePointerUp_gesture uid s2) as [_ [_ [A B]]].
      unfold gestureOK.
      cbn [pointers pinchStart draftBox dragStart setPinchStart setPointers].
      rewrite A, B. repeat split; auto; try constructor; congruence.
    + unfold gestureOK. rewrite D2, D2'. repeat split; auto; try tauto.
      intros _ E. rewrite E in Z. discriminate.
  - (* PointerCancel *)
    unfold gestureOK, onPointerCancel.
    cbn [pointers pinchStart draftBox dragStart setPinchStart setPointers
           setDraftBox setDragStart].
    repeat split; auto; try constructor; congruence.
  - (* SelectPreset *)
    apply (gestureOK_frame s); auto; destruct p; reflexivity.
Qed.

(** X6.  After every run of the component the gesture cells fit together:
    the tracked pointer ids are distinct, a pinch baseline is held only
    while at least two pointers are down, a draft exists exactly when a
    drag anchor does, and a draft exists only while a pointer is down. *)
Theorem gesture_cells_consistent :
  forall (sqrt : Q -> Q) (r : DOMRect.t) (es : list Event),
    let s := run sqrt (initialState r) es in
    NoDup (map_keys (pointers s)) /\
    (pinchStart s <> None -> (2 <= List.length (pointers s))%nat) /\
    (draftBox s = None <-> dragStart s = None) /\
    (draftBox s <> None -> pointers s <> []).
Proof.
  intros sqrt r es.
  apply (run_invariant sqrt gestureOK).
  - apply step_gestureOK.
  - unfold gestureOK. simpl. repeat split; auto; try constructor; congruence.
Qed.

(** X7.  A second pointer going down turns a drag into a pinch: with one
    other pointer tracked, [onPointerDown] drops the draft and the anchor
    without committing anything, leaves the view as it is, and records
    the baseline: the distance and the midpoint of the two pointers and
    the scale and pan of the view. *)
Theorem second_pointer_starts_pinch :
  forall (sqrt : Q -> Q) (pointerId q : Z) (clientX clientY : Q) (p0 : Pt.t)
         (s : State),
    pointers s = [(q, p0)] -> q <> pointerId ->
    let s' := onPointerDown sqrt pointerId clientX clientY s in
    draftBox s' = None /\ dragStart s' = None /\
    boxes s' = boxes s /\ view s' = view s /\
    pointers s' = [(q, p0); (pointerId, Pt.mk clientX clientY)] /\
    pinchStart s'
    = Some (Pinch.mk (dist sqrt p0 (Pt.mk clientX clientY))
              (mid p0 (Pt.mk clientX clientY))
              (View.scale (view s)) (View.tx (view s)) (View.ty (view s))).
Proof.
  intros sqrt p q cx cy p0 s Hp Hq s'. subst s'.
  unfold onPointerDown. cbn [pointers setPointers]. rewrite Hp.
  cbn [map_set]. apply Z.eqb_neq in Hq. rewrite Hq.
  cbn. repeat split; reflexivity.
Qed.

Lemma second_pointer_starts_pinch_witness :
  let s := run floorSqrt sampleZoomed [PointerDown 1 100 100] in
  draftBox s <> None /\
  draftBox (onPointerDown floorSqrt 2 103 104 s) = None /\
  boxes (onPointerDown floorSqrt 2 103 104 s) = boxes s.
Proof.
  intro s. split; [vm_compute; discriminate|].
  destruct (second_pointer_starts_pinch floorSqrt 2 1 103 104 (Pt.mk 100 100) s)
    as [A [_ [B _]]].
  - reflexivity.
  - discriminate.
  - split; [exact A|exact B].
Defined.

Lemma onPointerUp_cases (pointerId : Z) (uid : string) (s : State) :
  let m := map_delete pointerId (pointers s) in
  (m <> [] ->
   pointers (onPointerUp pointerId uid s) = m /\
   boxes (onPointerUp pointerId uid s) = boxes s /\
   draftBox (onPointerUp pointerId uid s) = draftBox s /\
   dragStart (onPointerUp pointerId uid s) = dragStart s) /\
  (m = [] ->
   pointers (onPointerUp pointerId uid s) = [] /\
   boxes (onPointerUp pointerId uid s) = boxes (handlePointerUp uid s) /\
   draftBox (onPointerUp pointerId uid s) = None /\
   dragStart (onPointerUp pointerId uid s) = None) /\
  ((List.length m < 2)%nat -> pinchStart (onPointerUp pointerId uid s) = None).
Proof.
  intro m. unfold onPointerUp. cbn [pointers setPointers]. fold m.
  split; [|split].
  - intro Hm. destruct m as [|a [|b m']]; [congruence| |];
      cbn; repeat split; reflexivity.
  - intro Hm. rewrite Hm. cbn [List.length Nat.ltb Nat.leb Nat.eqb pointers
      setPinchStart setPointers boxes draftBox dragStart].
    destruct (handlePointerUp_gesture uid
                (setPinchStart None (setPointers [] s))) as [_ [_ [A B]]].
    rewrite A, B, !handlePointerUp_boxes. repeat split; reflexivity.
  - intro L. destruct m as [|a [|b m']]; [| |simpl in L; lia]; cbn.
    + reflexivity.
    + reflexivity.
Qed.

Lemma map_delete_nil_iff (k : Z) (m : list (Z * Pt.t)) :
  map_delete k m = [] <-> (forall q, map_has q m = true -> q = k).
Proof.
  split.
  - intros E q Hq. destruct (Z.eq_dec q k) as [|N]; [assumption|].
    assert (B : map_has q (map_delete k m) = true).
    { rewrite map_delete_has, Hq. apply Z.eqb_neq in N. rewrite N.
      reflexivity. }
    rewrite E in B. discriminate.
  - intro H. destruct (map_delete k m) as [|[q v] m'] eqn:E; [reflexivity|].
    assert (B : map_has q (map_delete k m) = true).
    { rewrite E. simpl. rewrite Z.eqb_refl. reflexivity. }
    rewrite map_delete_has in B. apply andb_true_iff in B.
    destruct B as [B1 B2]. apply H in B2. subst q.
    rewrite Z.eqb_refl in B1. discriminate.
Qed.

(** X8.  A pointer release evicts that pointer and nothing else from the
    tracked set.  While another pointer stays down the release commits
    nothing and keeps the draft; when it was the last pointer down the
    release runs the commit step and leaves no draft, no anchor and no
    tracked pointer; and a pinch baseline survives only with two pointers
    or more still down. *)
Theorem pointer_release :
  forall (pointerId : Z) (uid : string) (s : State),
    let s' := onPointerUp pointerId uid s in
    pointers s' = map_delete pointerId (pointers s) /\
    map_has pointerId (pointers s') = false /\
    ((exists q, q <> pointerId /\ map_has q (pointers s) = true) ->
     boxes s' = boxes s /\ draftBox s' = draftBox s /\
     dragStart s' = dragStart s) /\
    ((forall q, map_has q (pointers s) = true -> q = pointerId) ->
     boxes s' = boxes (handlePointerUp uid s) /\
     draftBox s' = None /\ dragStart s' = None /\ pointers s' = []) /\
    (pinchStart s' <> None -> (2 <= List.length (pointers s'))%nat).
Proof.
  intros p uid s s'. subst s'.
  destruct (onPointerUp_cases p uid s) as [Hne [Hnil Hpinch]].
  assert (Hm : pointers (onPointerUp p uid s) = map_delete p (pointers s)).
  { destruct (map_delete p (pointers s)) eqn:E.
    - apply Hnil. reflexivity.
    - apply Hne. discriminate. }
  split; [exact Hm|]. split; [|split; [|split]].
  - rewrite Hm, map_delete_has, Z.eqb_refl. reflexivity.
  - intros [q [Hq Hhas]]. apply Hne. intro E.
    apply Hq. apply (proj1 (map_delete_nil_iff p (pointers s)) E).
    exact Hhas.
  - intro Hall. apply (proj2 (map_delete_nil_iff p (pointers s))) in Hall.
    destruct (Hnil Hall) as [A [B [C D]]]. auto.
  - intro P. rewrite Hm.
    destruct (Nat.lt_ge_cases (List.length (map_delete p (pointers s))) 2)
      as [L|L]; [|exact L].
    elim P. apply Hpinch. exact L.
Qed.

Lemma pointer_release_witness :
  let s := run floorSqrt sampleZoomed
             [PointerDown 1 100 100; PointerMove 1 150 150;
              PointerDown 2 103 104] in
  boxes (onPointerUp 2 "a" s) = boxes s /\
  draftBox (onPointerUp 2 "a" s) = draftBox s /\
  dragStart (onPointerUp 2 "a" s) = dragStart s.
Proof.
  intro s.
  apply (proj1 (proj2 (proj2 (pointer_release 2 "a"%string s)))).
  exists 1%Z. split; [discriminate|reflexivity].
Defined.

(** ** Pinch *)

Lemma clampScale_id (x : Q) : 1 <= x <= 6 -> clampScale x == x.
Proof.
  intros [A B]. unfold clampScale.
  destruct (Q.min_spec 6 x) as [[L E]|[L E]];
    destruct (Q.max_spec 1 (Qmin 6 x)) as [[L' E']|[L' E']]; lra.
Qed.

Lemma clampScale_eq (x y : Q) : x == y -> clampScale x == clampScale y.
Proof.
  intro H. unfold clampScale. rewrite H. reflexivity.
Qed.

Lemma clampScale_mono (x y : Q) : x <= y -> clampScale x <= clampScale y.
Proof.
  intro H. unfold clampScale.
  apply Q.max_le_compat_l. apply Q.min_le_compat_l. exact H.
Qed.

(** X9.  [clampScale] leaves a scale of [1, 6] as it is, answers 1 below
    the interval and 6 above it, does not change a value it has answered,
    and keeps the order of its arguments. *)
Theorem clampScale_laws :
  (forall x, 1 <= x <= 6 -> clampScale x == x) /\
  (forall x, x <= 1 -> clampScale x == 1) /\
  (forall x, 6 <= x -> clampScale x == 6) /\
  (forall x, clampScale (clampScale x) == clampScale x) /\
  (forall x y, x <= y -> clampScale x <= clampScale y).
Proof.
  split; [exact clampScale_id|]. split; [|split; [|split]].
  - intros x H. unfold clampScale.
    destruct (Q.min_spec 6 x) as [[L E]|[L E]];
      destruct (Q.max_spec 1 (Qmin 6 x)) as [[L' E']|[L' E']]; lra.
  - intros x H. unfold clampScale.
    destruct (Q.min_spec 6 x) as [[L E]|[L E]];
      destruct (Q.max_spec 1 (Qmin 6 x)) as [[L' E']|[L' E']]; lra.
  - intro x. apply clampScale_id. apply clampScale_range.
  - exact clampScale_mono.
Qed.

Lemma clampScale_laws_witness : clampScale (5 # 2) == 5 # 2.
Proof.
  apply (proj1 clampScale_laws). split; unfold Qle; simpl; lia.
Defined.

Lemma onPointerMove_pinch_state (sqrt : Q -> Q) (pointerId : Z) (cx cy : Q)
      (s : State) (start : Pinch.t) (p0 p1 : Pt.t) (ps : list Pt.t) :
  map_has pointerId (pointers s) = true ->
  List.length (map_set pointerId (Pt.mk cx cy) (pointers s)) = 2%nat ->
  pinchStart s = Some start ->
  map_values (map_set pointerId (Pt.mk cx cy) (pointers s)) = p0 :: p1 :: ps ->
  onPointerMove sqrt pointerId cx cy s
  = setView
      (View.mk
         (clampScale (Pinch.scale start * (dist sqrt p0 p1 / Pinch.dist start)))
         (Pinch.tx start + (Pt.x (mid p0 p1) - Pt.x (Pinch.mid start)))
         (Pinch.ty start + (Pt.y (mid p0 p1) - Pt.y (Pinch.mid start))))
      (setPointers (map_set pointerId (Pt.mk cx cy) (pointers s)) s).
Proof.
  intros Hhas Hlen Hstart Hvals. unfold onPointerMove.
  rewrite Hhas. cbn [negb pointers pinchStart setPointers].
  rewrite Hlen, Hstart, Hvals. reflexivity.
Qed.

(** X10.  A pointer move on the pinch path changes the view and nothing
    of the annotations.  The pan moves by exactly the displacement of the
    midpoint of the two pointers since the baseline.  With a baseline
    scale in [1, 6] and a positive baseline distance, the scale stays at
    the baseline when the finger distance is the baseline distance, does
    not grow when the fingers are closer and does not shrink when they are
    further apart. *)
Theorem pinch_move :
  forall (sqrt : Q -> Q) (pointerId : Z) (clientX clientY : Q) (s : State)
         (start : Pinch.t) (p0 p1 : Pt.t) (ps : list Pt.t),
    map_has pointerId (pointers s) = true ->
    List.length (map_set pointerId (Pt.mk clientX clientY) (pointers s))
    = 2%nat ->
    pinchStart s = Some start ->
    map_values (map_set pointerId (Pt.mk clientX clientY) (pointers s))
    = p0 :: p1 :: ps ->
    let s' := onPointerMove sqrt pointerId clientX clientY s in
    boxes s' = boxes s /\ draftBox s' = draftBox s /\
    pinchStart s' = Some start /\
    View.tx (view s') - Pinch.tx start
    == Pt.x (mid p0 p1) - Pt.x (Pinch.mid start) /\
    View.ty (view s') - Pinch.ty start
    == Pt.y (mid p0 p1) - Pt.y (Pinch.mid start) /\
    (1 <= Pinch.scale start <= 6 -> 0 < Pinch.dist start ->
     (dist sqrt p0 p1 == Pinch.dist start ->
      View.scale (view s') == Pinch.scale start) /\
     (dist sqrt p0 p1 <= Pinch.dist start ->
      View.scale (view s') <= Pinch.scale start) /\
     (Pinch.dist start <= dist sqrt p0 p1 ->
      Pinch.scale start <= View.scale (view s'))).
Proof.
  intros sqrt p cx cy s start p0 p1 ps Hhas Hlen Hstart Hvals s'. subst s'.
  rewrite (onPointerMove_pinch_state sqrt p cx cy s start p0 p1 ps)
    by assumption.
  cbn [boxes draftBox pinchStart view setView setPointers View.scale View.tx
         View.ty].
  split; [reflexivity|]. split; [reflexivity|]. split; [exact Hstart|].
  split; [ring|]. split; [ring|].
  intros [S1 S6] Hd. split; [|split].
  - intro E. rewrite <- (clampScale_id (Pinch.scale start)) at 2
      by (split; assumption).
    apply clampScale_eq. rewrite E. field. lra.
  - intro L. rewrite <- (clampScale_id (Pinch.scale start)) at 2
      by (split; assumption).
    apply clampScale_mono.
    assert (R : dist sqrt p0 p1 / Pinch.dist start <= 1).
    { apply Qle_shift_div_r; [assumption|lra]. }
    rewrite <- (Qmult_1_r (Pinch.scale start)) at 2.
    rewrite !(Qmult_comm (Pinch.scale start)).
    apply Qmult_le_compat_r; [exact R|lra].
  - intro L. rewrite <- (clampScale_id (Pinch.scale start)) at 1
      by (split; assumption).
    apply clampScale_mono.
    assert (R : 1 <= dist sqrt p0 p1 / Pinch.dist start).
    { apply Qle_shift_div_l; [assumption|lra]. }
    rewrite <- (Qmult_1_r (Pinch.scale start)) at 1.
    rewrite !(Qmult_comm (Pinch.scale start)).
    apply Qmult_le_compat_r; [exact R|lra].
Qed.

Lemma pinch_move_witness :
  let s := run floorSqrt sampleZoomed
             [PointerDown 1 0 0; PointerDown 2 3 4] in
  View.tx (view (onPointerMove floorSqrt 2 13 4 s)) - 5 == 13 / 2 - 3 / 2.
Proof.
  intro s.
  edestruct (pinch_move floorSqrt 2 13 4 s) as [_ [_ [_ [A _]]]];
    [reflexivity|reflexivity|reflexivity|reflexivity|exact A].
Defined.

(** ** The canvas handlers of the two variants *)

Lemma clear_gesture_noop (s : State) :
  pointers s = [] -> pinchStart s = None ->
  setPinchStart None (setPointers [] s) = s.
Proof.
  destruct s. simpl. intros -> ->. reflexivity.
Qed.

(** X11.  The release handlers of the two variants are the same function:
    the extra [pointers.current.clear()] and [pinchStart.current = null]
    after the commit step change nothing, because at that point no pointer
    is tracked and the baseline is already dropped. *)
Theorem onPointerUp_variants_agree :
  forall (pointerId : Z) (uid : string) (s : State),
    AppTsxCanvas.onPointerUp pointerId uid s = onPointerUp pointerId uid s.
Proof.
  intros p uid s. unfold AppTsxCanvas.onPointerUp, onPointerUp.
  cbn [pointers setPointers].
  destruct (map_delete p (pointers s)) as [|a m] eqn:E.
  - cbn [List.length Nat.ltb Nat.leb Nat.eqb pointers setPinchStart
           setPointers].
    symmetry. apply clear_gesture_noop.
    + destruct (handlePointerUp_gesture uid
                  (setPinchStart None (setPointers [] s))) as [A _].
      rewrite A. reflexivity.
    + destruct (handlePointerUp_gesture uid
                  (setPinchStart None (setPointers [] s))) as [_ [B _]].
      rewrite B. reflexivity.
  - destruct m; reflexivity.
Qed.

(** X12.  The cancel handlers differ in what stays tracked.  Both drop the
    draft, the anchor and the pinch baseline and commit nothing.  The
    variant with [resetView] forgets every pointer; [src/App.tsx] forgets
    only the cancelled one, so every other pointer that was down is still
    tracked afterwards. *)
Theorem onPointerCancel_variants :
  forall (pointerId : Z) (s : State),
    let a := onPointerCancel pointerId s in
    let b := AppTsxCanvas.onPointerCancel pointerId s in
    (draftBox a = None /\ dragStart a = None /\ pinchStart a = None /\
     boxes a = boxes s /\ view a = view s) /\
    (draftBox b = None /\ dragStart b = None /\ pinchStart b = None /\
     boxes b = boxes s /\ view b = view s) /\
    pointers a = [] /\
    map_has pointerId (pointers b) = false /\
    (forall q, q <> pointerId ->
               map_has q (pointers b) = map_has q (pointers s)).
Proof.
  intros p s a b. subst a b.
  unfold onPointerCancel, AppTsxCanvas.onPointerCancel.
  cbn [draftBox dragStart pinchStart boxes view pointers setDraftBox
         setDragStart setPinchStart setPointers].
  repeat split.
  - rewrite map_delete_has, Z.eqb_refl. reflexivity.
  - intros q Hq. rewrite map_delete_has. apply Z.eqb_neq in Hq.
    rewrite Hq. reflexivity.
Qed.

Lemma onPointerCancel_variants_witness :
  let s := run floorSqrt sampleZoomed
             [PointerDown 1 0 0; PointerDown 2 3 4] in
  map_has 1 (pointers (AppTsxCanvas.onPointerCancel 2 s)) = true /\
  pointers (onPointerCancel 2 s) = [].
Proof.
  intro s.
  destruct (onPointerCancel_variants 2 s) as [_ [_ [A [_ B]]]].
  split; [|exact A].
  rewrite (B 1%Z); [reflexivity|discriminate].
Defined.

(** ** Calibration and area *)

Lemma referenceBox_hd (bs : list Box.t) :
  referenceBox bs = hd_error (references bs).
Proof.
  unfold referenceBox, references, isReference.
  induction bs as [|b bs IH]; simpl; [reflexivity|].
  destruct (BoxType_eqb (Box.type b) reference); [reflexivity|exact IH].
Qed.

Lemma pixelsPerInch_None_iff (bs : list Box.t) (real : Q) :
  pixelsPerInch (referenceBox bs) real = None <->
  references bs = [] \/ real <= 0.
Proof.
  rewrite referenceBox_hd. unfold pixelsPerInch.
  destruct (references bs) as [|rb l]; simpl.
  - split; auto.
  - destruct (Qltb 0 real) eqn:T.
    + apply Qltb_true in T. rewrite (falsy_Some_pos _ T).
      split; [discriminate|]. intros [H|H]; [discriminate|lra].
    + apply Qltb_false in T. simpl. split; auto.
Qed.

(** X13.  Pixels-per-inch is undefined exactly when the committed set has
    no calibration rectangle or the real-world height is not positive;
    otherwise it is the height of the first calibration rectangle over the
    real-world height, whatever the width of that rectangle.  For a
    committed set whose rectangles all have a width and a height of at
    least 10, a defined value is positive. *)
Theorem pixelsPerInch_defined :
  (forall (bs : list Box.t) (real : Q),
     pixelsPerInch (referenceBox bs) real = None <->
     references bs = [] \/ real <= 0) /\
  (forall (bs l : list Box.t) (rb : Box.t) (real : Q),
     references bs = rb :: l -> 0 < real ->
     pixelsPerInch (referenceBox bs) real = Some (Box.h rb / real)) /\
  (forall (bs : list Box.t) (real p : Q),
     Forall minSize bs ->
     pixelsPerInch (referenceBox bs) real = Some p -> 0 < p).
Proof.
  split; [exact pixelsPerInch_None_iff|]. split.
  - intros bs l rb real Hr Hreal. rewrite referenceBox_hd, Hr.
    unfold pixelsPerInch. simpl.
    apply Qltb_true in Hreal. rewrite Hreal.
    apply Qltb_true in Hreal. rewrite (falsy_Some_pos _ Hreal). reflexivity.
  - intros bs real p Hmin Hp.
    eapply pixelsPerInch_pos; [exact Hmin|exact Hp].
Qed.

Lemma pixelsPerInch_defined_witness :
  pixelsPerInch (referenceBox (boxes sampleQuoted)) 11 = Some (110 / 11).
Proof.
  apply (proj1 (proj2 pixelsPerInch_defined) (boxes sampleQuoted) []
           (Box.mk "r" reference "Paper" 100 100 50 110) 11).
  - reflexivity.
  - reflexivity.
Defined.

Lemma windowSqft_Some_sum (ppi a : Q) (rects : list Box.t) :
  windowSqft (Some ppi) rects = Some a ->
  a == sumAreaSqFt rects ppi /\ ~ ppi == 0.
Proof.
  unfold windowSqft. simpl. destruct (Qeq_bool ppi 0) eqn:E; [discriminate|].
  intro H. injection H as <-. split.
  - rewrite fold_area_acc. ring.
  - intro Z. apply Qeq_bool_iff in Z. congruence.
Qed.

Lemma windowSqft_nonzero (ppi : Q) (rects : list Box.t) :
  ~ ppi == 0 ->
  exists a, windowSqft (Some ppi) rects = Some a /\
            a == sumAreaSqFt rects ppi.
Proof.
  intro H. unfold windowSqft. simpl.
  destruct (Qeq_bool ppi 0) eqn:E.
  - apply Qeq_bool_iff in E. contradiction.
  - eexists. split; [reflexivity|]. rewrite fold_area_acc. ring.
Qed.

Lemma sumAreaSqFt_app (l1 l2 : list Box.t) (ppi : Q) :
  sumAreaSqFt (l1 ++ l2) ppi == sumAreaSqFt l1 ppi + sumAreaSqFt l2 ppi.
Proof.
  induction l1 as [|b l1 IH]; simpl; [ring|]. rewrite IH. ring.
Qed.

Lemma sumAreaSqFt_perm (l1 l2 : list Box.t) (ppi : Q) :
  Permutation l1 l2 -> sumAreaSqFt l1 ppi == sumAreaSqFt l2 ppi.
Proof.
  intro P. induction P; simpl.
  - reflexivity.
  - rewrite IHP. reflexivity.
  - ring.
  - rewrite IHP1. exact IHP2.
Qed.

Lemma sumAreaSqFt_scale (l : list Box.t) (ppi k : Q) :
  ~ ppi == 0 -> ~ k == 0 ->
  sumAreaSqFt l (k * ppi) * (k * k) == sumAreaSqFt l ppi.
Proof.
  intros Hp Hk. induction l as [|b l IH]; simpl; [ring|].
  rewrite <- IH. unfold areaSqFt. field. split; assumption.
Qed.

(** X14.  The total window area, where it is defined, does not depend on
    the order of the rectangles, adds up over two lists put together, and
    falls with the square of pixels-per-inch: at [k] times the
    pixels-per-inch the total is the former total over [k * k]. *)
Theorem windowSqft_laws :
  forall (ppi a : Q) (l1 : list Box.t),
    windowSqft (Some ppi) l1 = Some a ->
    (forall l2, Permutation l1 l2 ->
       exists t, windowSqft (Some ppi) l2 = Some t /\ t == a) /\
    (forall l2 b, windowSqft (Some ppi) l2 = Some b ->
       exists t, windowSqft (Some ppi) (l1 ++ l2) = Some t /\ t == a + b) /\
    (forall k, ~ k == 0 ->
       exists t, windowSqft (Some (k * ppi)) l1 = Some t /\ t * (k * k) == a).
Proof.
  intros ppi a l1 Ha.
  destruct (windowSqft_Some_sum _ _ _ Ha) as [Ea Hp].
  split; [|split].
  - intros l2 P. destruct (windowSqft_nonzero ppi l2 Hp) as [t [Ht Et]].
    exists t. split; [exact Ht|].
    rewrite Et, Ea. symmetry. apply sumAreaSqFt_perm. exact P.
  - intros l2 b Hb. destruct (windowSqft_Some_sum _ _ _ Hb) as [Eb _].
    destruct (windowSqft_nonzero ppi (l1 ++ l2) Hp) as [t [Ht Et]].
    exists t. split; [exact Ht|].
    rewrite Et, Ea, Eb. apply sumAreaSqFt_app.
  - intros k Hk.
    assert (Hkp : ~ k * ppi == 0).
    { intro Z. apply Qmult_integral in Z. tauto. }
    destruct (windowSqft_nonzero (k * ppi) l1 Hkp) as [t [Ht Et]].
    exists t. split; [exact Ht|].
    rewrite Et, Ea. apply sumAreaSqFt_scale; assumption.
Qed.

Lemma windowSqft_laws_witness :
  exists t,
    windowSqft (Some (2 * (110 / 11))) (windowBoxes (boxes sampleQuoted))
    = Some t /\
    t * (2 * 2) == 50 / 144.
Proof.
  destruct (windowSqft_laws (110 / 11)
              (0 + (100 / (110 / 11)) * (50 / (110 / 11)) / 144)
              (windowBoxes (boxes sampleQuoted)) eq_refl)
    as [_ [_ S]].
  destruct (S 2) as [t [Ht Et]]; [discriminate|].
  exists t. split; [exact Ht|]. rewrite Et. vm_compute. reflexivity.
Defined.




(** ** Removing a rectangle *)

(** X16.  [deleteBox] takes out the rectangles of the given id: the
    others stay, in their order; no rectangle of that id is left; with an
    id that no rectangle carries the set is unchanged; and where one
    rectangle carries the id, the set is the rest on both sides of it.
    The draft and the view are not touched. *)
Theorem deleteBox_removes_id :
  forall (id : string) (s : State),
    let s' := deleteBox id s in
    (forall b, In b (boxes s') <-> In b (boxes s) /\ Box.id b <> id) /\
    ((forall b, In b (boxes s) -> Box.id b <> id) -> boxes s' = boxes s) /\
    (forall l1 b l2,
       boxes s = l1 ++ b :: l2 -> Box.id b = id ->
       (forall c, In c (l1 ++ l2) -> Box.id c <> id) ->
       boxes s' = l1 ++ l2) /\
    draftBox s' = draftBox s /\ dragStart s' = dragStart s /\
    view s' = view s.
Proof.
  intros id s s'. subst s'. unfold deleteBox.
  cbn [boxes draftBox dragStart view setBoxes].
  assert (Keep : forall l, (forall b, In b l -> Box.id b <> id) ->
                           filter (fun b => negb (String.eqb (Box.id b) id)) l
                           = l).
  { intros l H. induction l as [|c l IH]; simpl; [reflexivity|].
    assert (Hc : Box.id c <> id) by (apply H; left; reflexivity).
    apply String.eqb_neq in Hc. rewrite Hc. simpl. f_equal.
    apply IH. intros b Hb. apply H. right. exact Hb. }
  repeat split; auto.
  - apply filter_In in H. tauto.
  - apply filter_In in H. destruct H as [_ H].
    apply negb_true_iff in H. apply String.eqb_neq in H. exact H.
  - intros [A B]. apply filter_In. split; [exact A|].
    apply negb_true_iff. apply String.eqb_neq. exact B.
  - intros l1 b l2 E Hb Hrest. rewrite E, filter_app. simpl.
    apply String.eqb_eq in Hb. rewrite Hb. simpl.
    rewrite <- filter_app. apply Keep. exact Hrest.
Qed.

Lemma deleteBox_removes_id_witness :
  boxes (deleteBox "zz" sampleQuoted) = boxes sampleQuoted.
Proof.
  apply (proj1 (proj2 (deleteBox_removes_id "zz"%string sampleQuoted))).
  intros b [<-|[<-|[]]]; discriminate.
Defined.

(** ** Window labels *)

Lemma windowLabel_inj (n m : nat) : windowLabel n = windowLabel m -> n = m.
Proof.
  unfold windowLabel. simpl. intro H. injection H as H.
  apply (f_equal NilEmpty.uint_of_string) in H.
  rewrite !NilEmpty.usu in H. injection H as H.
  apply (f_equal Nat.of_uint) in H.
  rewrite !DecimalNat.Unsigned.of_to in H. exact H.
Qed.

Lemma windowLabels_NoDup (n : nat) : NoDup (windowLabels n).
Proof.
  unfold windowLabels. apply Injective_map_NoDup.
  - intros a b. apply windowLabel_inj.
  - apply seq_NoDup.
Qed.

Lemma windowLabels_S (n : nat) :
  windowLabels (S n) = windowLabels n ++ [windowLabel (n + 1)].
Proof.
  unfold windowLabels. rewrite seq_S, map_app. simpl.
  rewrite Nat.add_1_r. reflexivity.
Qed.

Lemma windowBoxes_no_reference (l : list Box.t) :
  windowBoxes (filter (fun b => negb (isReference b)) l) = windowBoxes l.
Proof.
  unfold windowBoxes, isReference. induction l as [|b l IH]; simpl.
  - reflexivity.
  - destruct (Box.type b) eqn:T; simpl; rewrite ?T; simpl; rewrite IH;
      reflexivity.
Qed.

Lemma numbered_frame (s s' : State) :
  boxes s' = boxes s -> draftBox s' = draftBox s -> numbered s -> numbered s'.
Proof.
  unfold numbered. intros -> ->. exact (fun H => H).
Qed.

Lemma numbered_drop (s s' : State) :
  boxes s' = boxes s -> draftBox s' = None -> numbered s -> numbered s'.
Proof.
  unfold numbered. intros -> -> [H _]. split; [exact H|]. discriminate.
Qed.

Lemma numbered_empty (s' : State) :
  boxes s' = [] -> draftBox s' = None -> numbered s'.
Proof.
  unfold numbered. intros -> ->. split; [reflexivity|discriminate].
Qed.

Lemma handlePointerDown_numbered (cx cy : Q) (s : State) :
  numbered s -> numbered (handlePointerDown cx cy s).
Proof.
  intros [Hl Hd]. unfold handlePointerDown.
  destruct (String.eqb (imageUrl s) EmptyString); [split; assumption|].
  destruct (canvasPointToImagePoint s cx cy); [|split; assumption].
  unfold numbered. cbn [boxes draftBox setDraftBox setDragStart].
  split; [exact Hl|]. intros d E T. injection E as <-.
  cbn [Box.type Box.label] in *. rewrite T. reflexivity.
Qed.

Lemma handlePointerMove_numbered (cx cy : Q) (s : State) :
  numbered s -> numbered (handlePointerMove cx cy s).
Proof.
  intro N. pose proof N as [Hl Hd]. unfold handlePointerMove.
  destruct (dragStart s); [|exact N].
  destruct (draftBox s) as [d|] eqn:D; [|exact N].
  destruct (canvasPointToImagePoint s cx cy); [|exact N].
  unfold numbered. cbn [boxes draftBox setDraftBox].
  split; [exact Hl|]. intros d' E T. injection E as <-.
  cbn [Box.type Box.label] in *. apply Hd; [reflexivity|exact T].
Qed.

Lemma handlePointerUp_numbered (uid : string) (s : State) :
  numbered s -> numbered (handlePointerUp uid s).
Proof.
  intros [Hl Hd].
  destruct (handlePointerUp_gesture uid s) as [_ [_ [_ D]]].
  unfold numbered. rewrite D. split; [|discriminate].
  rewrite handlePointerUp_boxes.
  destruct (draftBox s) as [d|]; [|exact Hl].
  destruct (_ || _); [exact Hl|].
  destruct (Box.type d) eqn:T.
  - unfold windowBoxes at 1 2. rewrite filter_app. simpl.
    rewrite T. simpl. rewrite app_nil_r.
    fold (windowBoxes (filter (fun b => negb (isReference b)) (boxes s))).
    rewrite windowBoxes_no_reference. exact Hl.
  - unfold windowBoxes at 1 2. rewrite filter_app. simpl.
    rewrite T. simpl. fold (windowBoxes (boxes s)).
    rewrite map_app, length_app, Hl. simpl.
    rewrite Nat.add_1_r, windowLabels_S.
    rewrite (Hd d eq_refl T), Nat.add_1_r. reflexivity.
Qed.

Lemma step_numbered (sqrt : Q -> Q) (s : State) (e : Event) :
  isClickRemove e = false -> numbered s -> numbered (step sqrt s e).
Proof.
  intros He N. destruct e; cbn [step]; try discriminate He;
    try (apply (numbered_frame s); auto; fail);
    try (apply numbered_empty; reflexivity).
  - destruct f; [apply numbered_empty; reflexivity|exact N].
  - unfold onPointerDown.
    set (s1 := setPointers _ s).
    assert (N1 : numbered s1) by (apply (numbered_frame s); auto).
    destruct (Nat.eqb _ 2).
    + destruct (map_values (pointers s1)) as [|p0 [|p1 ps]]; try exact N1.
      apply (numbered_drop s); auto.
    + apply handlePointerDown_numbered. exact N1.
  - unfold onPointerMove.
    destruct (negb (map_has pointerId (pointers s))); [exact N|].
    set (s1 := setPointers _ s).
    assert (N1 : numbered s1) by (apply (numbered_frame s); auto).
    destruct (Nat.eqb _ 2);
      [|apply handlePointerMove_numbered; exact N1].
    destruct (pinchStart s1);
      [|apply handlePointerMove_numbered; exact N1].
    destruct (map_values (pointers s1)) as [|p0 [|p1 ps]];
      try (apply handlePointerMove_numbered; exact N1).
    apply (numbered_frame s); auto.
  - unfold onPointerUp.
    set (s1 := setPointers _ s).
    set (s2 := if Nat.ltb _ 2 then setPinchStart None s1 else s1).
    assert (N2 : numbered s2).
    { apply (numbered_frame s); auto; subst s2; destruct (Nat.ltb _ 2);
        reflexivity. }
    destruct (Nat.eqb _ 0); [|exact N2].
    apply (numbered_frame (handlePointerUp uid s2)); auto.
    apply handlePointerUp_numbered. exact N2.
  - apply (numbered_drop s); auto.
  - apply (numbered_frame s); auto; destruct p; reflexivity.
Qed.

Lemma run_numbered (sqrt : Q -> Q) (es : list Event) (s : State) :
  forallb (fun e => negb (isClickRemove e)) es = true ->
  numbered s -> numbered (run sqrt s es).
Proof.
  revert s. induction es as [|e es IH]; intros s Hes N; simpl.
  - exact N.
  - simpl in Hes. apply andb_true_iff in Hes. destruct Hes as [He Hes].
    apply IH; [exact Hes|]. apply step_numbered; [|exact N].
    apply negb_true_iff. exact He.
Qed.

(** X17.  As long as no "remove" link is clicked the windows are numbered
    in the order of their commits: with [n] windows in the committed set
    their labels are "Window 1" up to "Window n", so no two windows share
    a label. *)
Theorem window_labels_numbered :
  forall (sqrt : Q -> Q) (r : DOMRect.t) (es : list Event),
    forallb (fun e => negb (isClickRemove e)) es = true ->
    let ws := windowBoxes (boxes (run sqrt (initialState r) es)) in
    map Box.label ws = windowLabels (List.length ws) /\
    NoDup (map Box.label ws).
Proof.
  intros sqrt r es Hes ws.
  assert (N : numbered (run sqrt (initialState r) es)).
  { apply run_numbered; [exact Hes|]. apply numbered_empty; reflexivity. }
  destruct N as [N _]. fold ws in N. split; [exact N|].
  rewrite N. apply windowLabels_NoDup.
Qed.

Lemma window_labels_numbered_witness :
  NoDup
    (map Box.label
       (windowBoxes
          (boxes (run floorSqrt (initialState sampleRect) sampleEndToEnd)))).
Proof.
  apply (proj2 (window_labels_numbered floorSqrt sampleRect sampleEndToEnd
                  eq_refl)).
Defined.

(** ** Rounding for display *)

Lemma Math_round_bounds (y : Q) :
  y - (1 # 2) < Math_round y /\ Math_round y <= y + (1 # 2).
Proof.
  unfold Math_round.
  pose proof (Qfloor_le (y + (1 # 2))) as A.
  pose proof (Qlt_floor (y + (1 # 2))) as B.
  rewrite inject_Z_plus in B. change (inject_Z 1) with 1 in B.
  split; lra.
Qed.

Lemma Math_round_integer (z : Z) : Math_round (inject_Z z) == inject_Z z.
Proof.
  destruct (Math_round_bounds (inject_Z z)) as [A B].
  unfold Math_round in *.
  set (w := Qfloor (inject_Z z + (1 # 2))) in *.
  assert (E : w = z).
  { unfold Qlt, Qle in A, B. simpl in A, B. lia. }
  rewrite E. reflexivity.
Qed.

Lemma Math_round_mono (x y : Q) : x <= y -> Math_round x <= Math_round y.
Proof.
  intro H. unfold Math_round. rewrite <- Zle_Qle.
  apply Qfloor_resp_le. lra.
Qed.

Lemma Math_round_eq (x y : Q) : x == y -> Math_round x == Math_round y.
Proof.
  intro H. apply Qle_antisym; apply Math_round_mono; lra.
Qed.

(** X18.  [round2] answers a value within half a hundredth of its
    argument, leaves a value it has answered as it is, and keeps the
    order of its arguments. *)
Theorem round2_laws :
  (forall n, Qabs (round2 n - n) <= (1 # 200)) /\
  (forall n, round2 (round2 n) == round2 n) /\
  (forall n m, n <= m -> round2 n <= round2 m).
Proof.
  split; [|split].
  - intro n. unfold round2.
    destruct (Math_round_bounds (n * 100)) as [A B].
    set (z := Math_round (n * 100)) in *.
    assert (E : z / 100 == z * (1 # 100)) by (field).
    rewrite E. apply Qabs_case; intro; lra.
  - intro n. unfold round2. unfold Math_round at 2.
    set (z := Qfloor (n * 100 + (1 # 2))).
    assert (E : inject_Z z / 100 * 100 == inject_Z z) by field.
    rewrite (Math_round_eq _ _ E), Math_round_integer. reflexivity.
  - intros n m H. unfold round2.
    assert (A : Math_round (n * 100) <= Math_round (m * 100))
      by (apply Math_round_mono; lra).
    set (a := Math_round (n * 100)) in *.
    set (b := Math_round (m * 100)) in *.
    assert (Ea : a / 100 == a * (1 # 100)) by field.
    assert (Eb : b / 100 == b * (1 # 100)) by field.
    rewrite Ea, Eb. lra.
Qed.

Lemma round2_laws_witness : round2 (18 # 10) <= round2 (1818 # 100).
Proof.
  apply (proj2 (proj2 round2_laws)). unfold Qle. simpl. lia.
Defined.

(** ** Cost and margin pricing of the variant without zoom *)

Lemma Qdiv_le_div (p a b : Q) :
  0 <= p -> 0 < b -> b <= a -> p / a <= p / b.
Proof.
  intros Hp Hb Hab.
  apply Qle_shift_div_l; [exact Hb|].
  assert (E : p / a * b == p * (b / a)) by (field; lra).
  rewrite E. rewrite <- (Qmult_1_r p) at 2.
  rewrite !(Qmult_comm p).
  apply Qmult_le_compat_r; [|exact Hp].
  apply Qle_shift_div_r; lra.
Qed.

(** X19.  With margins ordered [0 <= floor <= target <= stretch < 1] and a
    minimum charge that is not negative, [costAndPrice] on a non-zero
    area answers three prices in that order, none below the minimum
    charge.  The protected cost is never below the raw cost, each price
    times one minus its margin gives back the protected cost, and the
    final [Math.max] with the minimum charge changes none of the three,
    the protected cost having secured it. *)
Theorem costAndPrice_tiers :
  forall (pricing : Part001.PricingConfig) (sqft : Q),
    ~ sqft == 0 ->
    0 <= Part001.minCharge pricing ->
    0 <= Part001.marginFloor pricing ->
    Part001.marginFloor pricing <= Part001.marginTarget pricing ->
    Part001.marginTarget pricing <= Part001.marginStretch pricing ->
    Part001.marginStretch pricing < 1 ->
    exists c,
      Part001.costAndPrice (Some sqft) pricing = Some c /\
      Part001.rawCost c <= Part001.protectedCost c /\
      Part001.minCharge pricing <= Part001.sellFloor c /\
      Part001.sellFloor c <= Part001.sellTarget c /\
      Part001.sellTarget c <= Part001.sellStretch c /\
      Part001.sellFloor c * (1 - Part001.marginFloor pricing)
      == Part001.protectedCost c /\
      Part001.sellTarget c * (1 - Part001.marginTarget pricing)
      == Part001.protectedCost c /\
      Part001.sellStretch c * (1 - Part001.marginStretch pricing)
      == Part001.protectedCost c.
Proof.
  intros pricing sqft Hs Hmin Hf Hft Hts Hs1.
  unfold Part001.costAndPrice.
  assert (F : falsy (Some sqft) = false).
  { simpl. destruct (Qeq_bool sqft 0) eqn:E; [|reflexivity].
    apply Qeq_bool_iff in E. contradiction. }
  rewrite F. cbv zeta. eexists. split; [reflexivity|].
  cbn [Part001.rawCost Part001.protectedCost Part001.sellFloor
         Part001.sellTarget Part001.sellStretch].
  set (mc := Part001.minCharge pricing) in *.
  set (mf := Part001.marginFloor pricing) in *.
  set (mt := Part001.marginTarget pricing) in *.
  set (ms := Part001.marginStretch pricing) in *.
  set (raw := sqft * _ + _).
  set (pc := Qmax raw (mc * (1 - mf))).
  assert (P1 : raw <= pc) by apply Q.le_max_l.
  assert (P2 : mc * (1 - mf) <= pc) by apply Q.le_max_r.
  assert (P0 : 0 <= pc).
  { assert (0 <= mc * (1 - mf)) by (apply Qmult_le_0_compat; lra). lra. }
  assert (Lf : mc <= pc / (1 - mf)) by (apply Qle_shift_div_l; lra).
  assert (Lft : pc / (1 - mf) <= pc / (1 - mt))
    by (apply Qdiv_le_div; lra).
  assert (Lts : pc / (1 - mt) <= pc / (1 - ms))
    by (apply Qdiv_le_div; lra).
  assert (Ef : Qmax (pc / (1 - mf)) mc == pc / (1 - mf))
    by (apply Q.max_l; exact Lf).
  assert (Et : Qmax (pc / (1 - mt)) mc == pc / (1 - mt))
    by (apply Q.max_l; lra).
  assert (Es : Qmax (pc / (1 - ms)) mc == pc / (1 - ms))
    by (apply Q.max_l; lra).
  rewrite Ef, Et, Es.
  repeat split; try assumption; field; lra.
Qed.

Lemma costAndPrice_tiers_witness :
  exists c,
    Part001.costAndPrice (Some (50 # 144)) Part001.DEFAULT_PRICING = Some c /\
    399 <= Part001.sellFloor c /\
    Part001.sellFloor c <= Part001.sellTarget c.
Proof.
  destruct (costAndPrice_tiers Part001.DEFAULT_PRICING (50 # 144))
    as [c [E [_ [A [B _]]]]];
    try (unfold Qle, Qlt; simpl; lia).
  - discriminate.
  - exists c. auto.
Defined.

(** ** The pointer mapping of the two variants *)

Lemma Qltb_ext (a b c d : Q) : (a < b <-> c < d) -> Qltb a b = Qltb c d.
Proof.
  intro H. apply eq_true_iff_eq. rewrite !Qltb_true. exact H.
Qed.

Lemma Part001_fit (s : State) (info : Info.t) :
  getCanvasAndImageScale s = Some info ->
  Part001.getCanvasAndImageScale s
  = Some (Part001.mkInfo (Info.rect info) (Info.baseW info) (Info.baseH info)
            (Info.baseOffsetX info) (Info.baseOffsetY info)
            (Info.baseScale info)).
Proof.
  unfold getCanvasAndImageScale, Part001.getCanvasAndImageScale.
  destruct (negb (mounted s)); [discriminate|].
  destruct (imageNatural s); [|discriminate].
  destruct (Qltb _ _); intro H; injection H as <-; reflexivity.
Qed.

(** In exact arithmetic the bounds test in image pixels and the one in
    canvas pixels are the same test at the identity view. *)
Lemma pointer_mapping_exact :
  forall (s : State) (n : Natural.t) (clientX clientY : Q),
    imageNatural s = Some n ->
    0 < Natural.w n -> 0 < Natural.h n ->
    0 < DOMRect.width (canvasRect s) -> 0 < DOMRect.height (canvasRect s) ->
    view s = View.mk 1 0 0 ->
    match canvasPointToImagePoint s clientX clientY,
          Part001.canvasPointToImagePoint s clientX clientY with
    | Some p, Some q => Pt.x p == Pt.x q /\ Pt.y p == Pt.y q
    | None, None => True
    | _, _ => False
    end.
Proof.
  intros s n cx cy Hn Hw Hh Hdw Hdh Hv.
  destruct (getCanvasAndImageScale s) as [info|] eqn:Hinfo.
  2:{ unfold canvasPointToImagePoint, Part001.canvasPointToImagePoint.
      rewrite Hinfo.
      assert (E : Part001.getCanvasAndImageScale s = None).
      { unfold getCanvasAndImageScale in Hinfo.
        unfold Part001.getCanvasAndImageScale.
        destruct (negb (mounted s)); [reflexivity|].
        rewrite Hn in *. destruct (Qltb _ _); discriminate. }
      rewrite E. exact I. }
  destruct (baseFit_facts s info n Hinfo Hn Hw Hh Hdw Hdh) as [Ew [Eh _]].
  destruct (baseScale_pos s info n Hinfo Hn Hw Hh Hdw Hdh) as [Hbs _].
  unfold canvasPointToImagePoint, Part001.canvasPointToImagePoint.
  rewrite Hinfo, Hn, (Part001_fit s info Hinfo), Hv. cbv zeta.
  cbn [Part001.rect Part001.drawW Part001.drawH Part001.offsetX
         Part001.offsetY Part001.scale View.scale View.tx View.ty].
  set (u := cx - DOMRect.left (Info.rect info) - Info.baseOffsetX info).
  set (v := cy - DOMRect.top (Info.rect info) - Info.baseOffsetY info).
  set (bs := Info.baseScale info) in *.
  assert (Xe : (u - 0) / 1 / bs == u / bs) by (field; lra).
  assert (Ye : (v - 0) / 1 / bs == v / bs) by (field; lra).
  assert (Ux : u / bs * bs == u) by (apply Qdiv_mult_cancel; exact Hbs).
  assert (Vx : v / bs * bs == v) by (apply Qdiv_mult_cancel; exact Hbs).
  assert (T1 : Qltb ((u - 0) / 1 / bs) 0 = Qltb u 0).
  { apply Qltb_ext. rewrite Xe. split; intro H.
    - apply Qnot_le_lt. intro C. apply (Qdiv_nonneg_iff u bs Hbs) in C. lra.
    - apply Qnot_le_lt. intro C. apply (Qdiv_nonneg_iff u bs Hbs) in C. lra. }
  assert (T2 : Qltb ((v - 0) / 1 / bs) 0 = Qltb v 0).
  { apply Qltb_ext. rewrite Ye. split; intro H.
    - apply Qnot_le_lt. intro C. apply (Qdiv_nonneg_iff v bs Hbs) in C. lra.
    - apply Qnot_le_lt. intro C. apply (Qdiv_nonneg_iff v bs Hbs) in C. lra. }
  assert (T3 : Qltb (Natural.w n) ((u - 0) / 1 / bs)
               = Qltb (Info.baseW info) u).
  { apply Qltb_ext. rewrite Xe, Ew. split; intro H.
    - apply Qnot_le_lt. intro C.
      assert (u / bs <= Natural.w n); [|lra].
      apply (Qdiv_le_iff u bs _ Hbs). lra.
    - apply Qnot_le_lt. intro C.
      apply (Qdiv_le_iff u bs _ Hbs) in C. lra. }
  assert (T4 : Qltb (Natural.h n) ((v - 0) / 1 / bs)
               = Qltb (Info.baseH info) v).
  { apply Qltb_ext. rewrite Ye, Eh. split; intro H.
    - apply Qnot_le_lt. intro C.
      assert (v / bs <= Natural.h n); [|lra].
      apply (Qdiv_le_iff v bs _ Hbs). lra.
    - apply Qnot_le_lt. intro C.
      apply (Qdiv_le_iff v bs _ Hbs) in C. lra. }
  rewrite T1, T2, T3, T4.
  destruct (Qltb u 0); [exact I|].
  destruct (Qltb v 0); [exact I|].
  destruct (Qltb (Info.baseW info) u); [exact I|].
  destruct (Qltb (Info.baseH info) v); [exact I|].
  simpl. split; assumption.
Qed.

(** X20.  At the identity view the pointer mapping with zoom and the one
    of the variant without zoom agree away from the sides of the drawn
    image.  Over exact arithmetic, for an image and a canvas of positive
    size: a client point strictly inside the fitted image gets an image
    point from both, and the two points are equal; a client point
    strictly beyond a side is rejected by both.  One variant tests the
    bounds in image pixels and the other in canvas pixels, so on the sides
    themselves rounding can part them, and nothing is stated there. *)
Theorem pointer_mapping_variants_agree :
  forall (s : State) (info : Info.t) (n : Natural.t) (clientX clientY : Q),
    getCanvasAndImageScale s = Some info ->
    imageNatural s = Some n ->
    0 < Natural.w n -> 0 < Natural.h n ->
    0 < DOMRect.width (canvasRect s) -> 0 < DOMRect.height (canvasRect s) ->
    view s = View.mk 1 0 0 ->
    let u := clientX - DOMRect.left (canvasRect s) - Info.baseOffsetX info in
    let v := clientY - DOMRect.top (canvasRect s) - Info.baseOffsetY info in
    (0 < u /\ u < Info.baseW info /\ 0 < v /\ v < Info.baseH info ->
     exists p q,
       canvasPointToImagePoint s clientX clientY = Some p /\
       Part001.canvasPointToImagePoint s clientX clientY = Some q /\
       Pt.x p == Pt.x q /\ Pt.y p == Pt.y q) /\
    (u < 0 \/ Info.baseW info < u \/ v < 0 \/ Info.baseH info < v ->
     canvasPointToImagePoint s clientX clientY = None /\
     Part001.canvasPointToImagePoint s clientX clientY = None).
Proof.
  intros s info n cx cy Hinfo Hn Hw Hh Hdw Hdh Hv u v.
  pose proof (pointer_mapping_exact s n cx cy Hn Hw Hh Hdw Hdh Hv) as M.
  destruct (baseScale_pos s info n Hinfo Hn Hw Hh Hdw Hdh) as [_ Hrect].
  assert (P : Part001.canvasPointToImagePoint s cx cy
              = if Qltb u 0 || Qltb v 0 || Qltb (Info.baseW info) u
                   || Qltb (Info.baseH info) v
                then None
                else Some (Pt.mk (u / Info.baseScale info)
                             (v / Info.baseScale info))).
  { unfold Part001.canvasPointToImagePoint.
    rewrite (Part001_fit s info Hinfo). cbv zeta.
    cbn [Part001.rect Part001.drawW Part001.drawH Part001.offsetX
           Part001.offsetY Part001.scale].
    rewrite Hrect. reflexivity. }
  split.
  - intros [A [B [C D]]].
    assert (T1 : Qltb u 0 = false) by (apply Qltb_false; lra).
    assert (T2 : Qltb v 0 = false) by (apply Qltb_false; lra).
    assert (T3 : Qltb (Info.baseW info) u = false) by (apply Qltb_false; lra).
    assert (T4 : Qltb (Info.baseH info) v = false) by (apply Qltb_false; lra).
    rewrite T1, T2, T3, T4 in P. cbn [orb] in P. rewrite P in M.
    destruct (canvasPointToImagePoint s cx cy) as [p|]; [|contradiction].
    exists p. eexists. split; [reflexivity|]. split; [exact P|exact M].
  - intro H.
    assert (T : Qltb u 0 || Qltb v 0 || Qltb (Info.baseW info) u
                || Qltb (Info.baseH info) v = true).
    { rewrite !orb_true_iff.
      destruct H as [H|[H|[H|H]]]; apply Qltb_true in H; auto. }
    rewrite T in P. rewrite P in M.
    destruct (canvasPointToImagePoint s cx cy) as [p|]; [contradiction|].
    split; [reflexivity|exact P].
Qed.

Lemma pointer_mapping_variants_agree_witness :
  let s := run floorSqrt (initialState sampleRect)
             [FileChange (Some "blob:a"%string); ImgLoad 1000 800] in
  exists p q,
    canvasPointToImagePoint s 205 105 = Some p /\
    Part001.canvasPointToImagePoint s 205 105 = Some q /\
    Pt.x p == Pt.x q /\ Pt.y p == Pt.y q.
Proof.
  intro s.
  apply (proj1 (pointer_mapping_variants_agree s _ (Natural.mk 1000 800)
                  205 105 eq_refl eq_refl eq_refl eq_refl eq_refl eq_refl
                  eq_refl)).
  vm_compute. repeat split.
Defined.

(** ** Measurements across handlers *)

Lemma referenceBox_app_window (bs : list Box.t) (d : Box.t) :
  Box.type d = window -> referenceBox (bs ++ [d]) = referenceBox bs.
Proof.
  intro T. rewrite !referenceBox_hd, references_app.
  unfold references at 2. simpl. unfold isReference. rewrite T. simpl.
  rewrite app_nil_r. reflexivity.
Qed.

Lemma handlePointerUp_refRealInches (uid : string) (s : State) :
  refRealInches (handlePointerUp uid s) = refRealInches s.
Proof.
  unfold handlePointerUp. branches; reflexivity.
Qed.

(** X21.  Committing a window adds its area to the total: when a
    pixels-per-inch value and a total are defined, a release that commits
    a window draft of committed size leaves pixels-per-inch as it is and
    makes the total the former total plus [(w/ppi) (h/ppi) / 144] of the
    new window. *)
Theorem commit_window_adds_area :
  forall (uid : string) (s : State) (d : Box.t) (ppi a : Q),
    draftBox s = Some d -> Box.type d = window -> minSize d ->
    pixelsPerInchOf s = Some ppi -> windowSqftOf s = Some a ->
    pixelsPerInchOf (handlePointerUp uid s) = Some ppi /\
    exists a',
      windowSqftOf (handlePointerUp uid s) = Some a' /\
      a' == a + areaSqFt d ppi.
Proof.
  intros uid s d ppi a Hd Ht [Hw Hh] Hp Ha.
  assert (Hb : boxes (handlePointerUp uid s) = boxes s ++ [withId uid d]).
  { rewrite handlePointerUp_boxes, Hd, Ht.
    apply Qltb_false in Hw, Hh. rewrite Hw, Hh. reflexivity. }
  assert (Hp' : pixelsPerInchOf (handlePointerUp uid s) = Some ppi).
  { unfold pixelsPerInchOf in *.
    rewrite Hb, handlePointerUp_refRealInches, referenceBox_app_window;
      [exact Hp|exact Ht]. }
  split; [exact Hp'|].
  unfold windowSqftOf in *. rewrite Hp', Hb. rewrite Hp in Ha.
  unfold windowBoxes. rewrite filter_app. simpl. rewrite Ht. simpl.
  fold (windowBoxes (boxes s)).
  destruct (windowSqft_Some_sum _ _ _ Ha) as [Ea Hnz].
  destruct (windowSqft_nonzero ppi (windowBoxes (boxes s) ++ [withId uid d])
              Hnz) as [t [Ht' Et]].
  exists t. split; [exact Ht'|].
  rewrite Et, sumAreaSqFt_app, Ea. simpl. unfold areaSqFt. simpl. ring.
Qed.

Lemma commit_window_adds_area_witness :
  let s := setDraftBox
             (Some (Box.mk "draft" window "Window 2" 500 300 200 100))
             sampleQuoted in
  exists a',
    windowSqftOf (handlePointerUp "b" s) = Some a' /\
    a' == 50 / 144 + 200 / 144.
Proof.
  intro s.
  edestruct (commit_window_adds_area "b"%string s) as [_ [a' [E A]]];
    [reflexivity|reflexivity|split; simpl; lra|reflexivity|reflexivity|].
  exists a'. split; [exact E|]. rewrite A. vm_compute. reflexivity.
Defined.

Lemma handlePointerDown_measure (cx cy : Q) (s : State) :
  boxes (handlePointerDown cx cy s) = boxes s /\
  refRealInches (handlePointerDown cx cy s) = refRealInches s.
Proof.
  unfold handlePointerDown. branches; split; reflexivity.
Qed.

Lemma handlePointerMove_measure (cx cy : Q) (s : State) :
  boxes (handlePointerMove cx cy s) = boxes s /\
  refRealInches (handlePointerMove cx cy s) = refRealInches s.
Proof.
  unfold handlePointerMove. branches; split; reflexivity.
Qed.

(** Events that only draft, pinch, cancel or lay out. *)
Lemma step_measure (sqrt : Q -> Q) (s : State) (e : Event) :
  match e with
  | PointerDown _ _ _ | PointerMove _ _ _ | PointerCancel _ | Layout _
  | ImgLoad _ _ | ClickResetView | ClickDrawReference | ClickDrawWindows =>
      True
  | _ => False
  end ->
  boxes (step sqrt s e) = boxes s /\
  refRealInches (step sqrt s e) = refRealInches s.
Proof.
  destruct e; intro H; try contradiction; cbn [step];
    try (split; reflexivity).
  - unfold onPointerDown. branches; try (split; reflexivity).
    destruct (handlePointerDown_measure clientX clientY
                (setPointers
                   (map_set pointerId (Pt.mk clientX clientY) (pointers s)) s))
      as [A B].
    rewrite A, B. split; reflexivity.
  - unfold onPointerMove. branches; try (split; reflexivity);
      destruct (handlePointerMove_measure clientX clientY
                  (setPointers
                     (map_set pointerId (Pt.mk clientX clientY) (pointers s))
                     s)) as [A B];
      rewrite A, B; split; reflexivity.
Qed.

(** X22.  Drafting and pinching are invisible to the measurements: a
    pointer going down, moving or being cancelled, a layout change, an
    image load and the view and draw-mode buttons leave pixels-per-inch,
    the total window area and the quote exactly as they were. *)
Theorem drafting_keeps_measurements :
  forall (sqrt : Q -> Q) (s : State) (e : Event),
    match e with
    | PointerDown _ _ _ | PointerMove _ _ _ | PointerCancel _ | Layout _
    | ImgLoad _ _ | ClickResetView | ClickDrawReference | ClickDrawWindows =>
        True
    | _ => False
    end ->
    pixelsPerInchOf (step sqrt s e) = pixelsPerInchOf s /\
    windowSqftOf (step sqrt s e) = windowSqftOf s /\
    retailAndCommissionOf (step sqrt s e) = retailAndCommissionOf s.
Proof.
  intros sqrt s e H.
  destruct (step_measure sqrt s e H) as [A B].
  unfold retailAndCommissionOf, windowSqftOf, pixelsPerInchOf.
  rewrite A, B. repeat split; reflexivity.
Qed.

Lemma drafting_keeps_measurements_witness :
  retailAndCommissionOf (step floorSqrt sampleQuoted (PointerDown 1 10 10))
  = retailAndCommissionOf sampleQuoted.
Proof.
  apply (proj2 (proj2 (drafting_keeps_measurements floorSqrt sampleQuoted
                         (PointerDown 1 10 10) I))).
Defined.

(** ** Presets *)

(** X23.  Choosing a preset sets the real-world height for paper (11) and
    door (80) and leaves it alone for custom; it never touches the
    committed set; choosing the same preset again changes nothing more;
    and after paper or door pixels-per-inch is undefined only for want of
    a calibration rectangle. *)
Theorem preset_selection :
  forall (p : Preset) (s : State),
    let s' := syncRefPreset p s in
    refPreset s' = p /\ boxes s' = boxes s /\
    (p = paper -> refRealInches s' = 11) /\
    (p = door -> refRealInches s' = 80) /\
    (p = custom -> refRealInches s' = refRealInches s) /\
    syncRefPreset p s' = s' /\
    (p <> custom ->
     (pixelsPerInchOf s' = None <-> references (boxes s) = [])).
Proof.
  intros p s s'. subst s'.
  split; [destruct p; reflexivity|]. split; [destruct p; reflexivity|].
  split; [intros ->; reflexivity|]. split; [intros ->; reflexivity|].
  split; [intros ->; reflexivity|]. split; [destruct p; reflexivity|].
  intro Hc. split.
  - intro H. unfold pixelsPerInchOf in H.
    apply pixelsPerInch_None_iff in H. destruct H as [H|H].
    + destruct p; exact H.
    + destruct p; simpl in H; try congruence; exfalso;
        unfold Qle in H; simpl in H; lia.
  - intro H. unfold pixelsPerInchOf. apply pixelsPerInch_None_iff.
    left. destruct p; exact H.
Qed.

Lemma preset_selection_witness :
  refRealInches (syncRefPreset door sampleQuoted) = 80.
Proof.
  apply (proj1 (proj2 (proj2 (proj2 (preset_selection door sampleQuoted))))).
  reflexivity.
Defined.

(** ** Taps *)

Lemma handle_tap (cx cy : Q) (uid : string) (s : State) :
  draftBox s = None ->
  boxes (handlePointerUp uid (handlePointerDown cx cy s)) = boxes s.
Proof.
  intro Hd. rewrite handlePointerUp_boxes.
  unfold handlePointerDown.
  destruct (String.eqb (imageUrl s) EmptyString); [rewrite Hd; reflexivity|].
  destruct (canvasPointToImagePoint s cx cy); [|rewrite Hd; reflexivity].
  reflexivity.
Qed.

(** X24.  A tap draws nothing.  After every run that ends with no pointer
    down, a pointer that goes down and is released without a move leaves
    the committed set as it was, wherever it lands, and leaves no draft,
    no anchor and no tracked pointer behind. *)
Theorem tap_commits_nothing :
  forall (sqrt : Q -> Q) (r : DOMRect.t) (es : list Event) (pointerId : Z)
         (clientX clientY : Q) (uid : string),
    let s := run sqrt (initialState r) es in
    pointers s = [] ->
    let s' := run sqrt s [PointerDown pointerId clientX clientY;
                          PointerUp pointerId uid] in
    boxes s' = boxes s /\ draftBox s' = None /\ dragStart s' = None /\
    pointers s' = [].
Proof.
  intros sqrt r es p cx cy uid s Hp s'.
  assert (G : gestureOK s).
  { apply (run_invariant sqrt gestureOK).
    - apply step_gestureOK.
    - unfold gestureOK. simpl.
      repeat split; auto; try constructor; congruence. }
  assert (Hd : draftBox s = None).
  { destruct G as [_ [_ [_ G]]]. destruct (draftBox s); [|reflexivity].
    elim G; [discriminate|exact Hp]. }
  subst s'. cbn [run fold_left step].
  unfold onPointerDown. cbn [pointers setPointers]. rewrite Hp.
  cbn [map_set List.length Nat.eqb].
  set (s1 := setPointers [(p, Pt.mk cx cy)] s).
  destruct (handlePointerDown_gesture cx cy s1) as [A [B _]].
  destruct (onPointerUp_cases p uid (handlePointerDown cx cy s1))
    as [_ [Hnil _]].
  destruct Hnil as [P1 [P2 [P3 P4]]].
  { rewrite A. subst s1. cbn [pointers setPointers map_delete filter fst].
    rewrite Z.eqb_refl. reflexivity. }
  rewrite P1, P2, P3, P4. repeat split; try reflexivity.
  apply (handle_tap cx cy uid s1). exact Hd.
Qed.

Lemma tap_commits_nothing_witness :
  let s := run floorSqrt (initialState sampleRect) sampleEndToEnd in
  boxes (run floorSqrt s [PointerDown 1 60 60; PointerUp 1 "t"]) = boxes s.
Proof.
  intro s.
  apply (proj1 (tap_commits_nothing floorSqrt sampleRect sampleEndToEnd 1
                  60 60 "t"%string eq_refl)).
Defined.

(** ** More pointers *)

(** X25.  Three fingers draw.  With two pointers tracked, a third one
    going down on the photo takes the drawing path: it starts a draft of
    the selected kind at its point, while the tracked pointers grow to
    three and the pinch baseline and the view stay as they were. *)
Theorem third_pointer_draws :
  forall (sqrt : Q -> Q) (a b c : Z) (pa pb pt : Pt.t) (clientX clientY : Q)
         (s : State),
    pointers s = [(a, pa); (b, pb)] -> c <> a -> c <> b ->
    imageUrl s <> EmptyString ->
    canvasPointToImagePoint s clientX clientY = Some pt ->
    let s' := onPointerDown sqrt c clientX clientY s in
    (exists d, draftBox s' = Some d /\ Box.type d = activeDrawType s /\
               Box.x d = Pt.x pt /\ Box.y d = Pt.y pt) /\
    dragStart s' = Some pt /\
    map_keys (pointers s') = [a; b; c] /\
    pinchStart s' = pinchStart s /\ view s' = view s /\ boxes s' = boxes s.
Proof.
  intros sqrt a b c pa pb pt cx cy s Hp Ha Hb Hurl Hpt s'. subst s'.
  unfold onPointerDown. cbn [pointers setPointers]. rewrite Hp.
  cbn [map_set].
  assert (Ea : Z.eqb a c = false) by (apply Z.eqb_neq; congruence).
  assert (Eb : Z.eqb b c = false) by (apply Z.eqb_neq; congruence).
  rewrite Ea, Eb. cbn [List.length Nat.eqb].
  unfold handlePointerDown. cbn [imageUrl setPointers].
  apply String.eqb_neq in Hurl. rewrite Hurl.
  change (canvasPointToImagePoint
            (setPointers [(a, pa); (b, pb); (c, Pt.mk cx cy)] s) cx cy)
    with (canvasPointToImagePoint s cx cy).
  rewrite Hpt.
  cbn. repeat split; try reflexivity.
  eexists. repeat split; reflexivity.
Qed.

Lemma third_pointer_draws_witness :
  let s := run floorSqrt sampleZoomed
             [PointerDown 1 0 0; PointerDown 2 3 4] in
  draftBox s = None /\
  draftBox (onPointerDown floorSqrt 3 205 105 s) <> None.
Proof.
  intro s. split; [reflexivity|].
  edestruct (third_pointer_draws floorSqrt 1 2 3) with (s := s)
    (clientX := 205) (clientY := 105) as [[d [E _]] _];
    [reflexivity|discriminate|discriminate|discriminate|reflexivity|].
  rewrite E. discriminate.
Defined.

Lemma map_set_value_In (k : Z) (v : Pt.t) (m : list (Z * Pt.t)) :
  In v (map_values (map_set k v m)).
Proof.
  unfold map_values. induction m as [|[k' v'] m IH]; simpl.
  - left. reflexivity.
  - destruct (Z.eqb k' k); simpl; auto.
Qed.

(** X26.  A pointer move never changes which pointers are tracked nor the
    committed set, and a move of a pointer that is not tracked (a hover)
    changes nothing at all. *)
Theorem pointer_move_keeps_tracking :
  forall (sqrt : Q -> Q) (pointerId : Z) (clientX clientY : Q) (s : State),
    let s' := onPointerMove sqrt pointerId clientX clientY s in
    map_keys (pointers s') = map_keys (pointers s) /\
    boxes s' = boxes s /\
    (map_has pointerId (pointers s) = false -> s' = s) /\
    (map_has pointerId (pointers s) = true ->
     In (Pt.mk clientX clientY) (map_values (pointers s'))).
Proof.
  intros sqrt p cx cy s s'. subst s'.
  split; [|split; [apply onPointerMove_boxes|split]].
  - unfold onPointerMove.
    destruct (map_has p (pointers s)) eqn:Has; cbn [negb]; [|reflexivity].
    set (s1 := setPointers _ s).
    assert (K : map_keys (pointers s1) = map_keys (pointers s)).
    { subst s1. cbn [pointers setPointers]. rewrite map_set_keys, Has.
      reflexivity. }
    destruct (handlePointerMove_gesture cx cy s1) as [A _].
    destruct (Nat.eqb _ 2); [|rewrite A; exact K].
    destruct (pinchStart s1); [|rewrite A; exact K].
    destruct (map_values (pointers s1)) as [|p0 [|p1 ps]];
      try (rewrite A; exact K).
    exact K.
  - intro Has. unfold onPointerMove. rewrite Has. reflexivity.
  - intro Has. unfold onPointerMove. rewrite Has. cbn [negb].
    set (s1 := setPointers _ s).
    assert (V : In (Pt.mk cx cy) (map_values (pointers s1))).
    { subst s1. cbn [pointers setPointers]. apply map_set_value_In. }
    destruct (handlePointerMove_gesture cx cy s1) as [A _].
    destruct (Nat.eqb _ 2); [|rewrite A; exact V].
    destruct (pinchStart s1); [|rewrite A; exact V].
    destruct (map_values (pointers s1)) as [|p0 [|p1 ps]] eqn:E;
      try (rewrite A; rewrite E; exact V).
    cbn [pointers setView]. rewrite E. exact V.
Qed.

Lemma pointer_move_keeps_tracking_witness :
  onPointerMove floorSqrt 7 10 10 sampleQuoted = sampleQuoted.
Proof.
  apply (proj1 (proj2 (proj2 (pointer_move_keeps_tracking floorSqrt 7 10 10
                                sampleQuoted)))).
  reflexivity.
Defined.

(** ** Further examples *)

Lemma gesture_cells_consistent_witness :
  let s := run floorSqrt (initialState sampleRect)
             [FileChange (Some "blob:a"%string); ImgLoad 1000 800;
              PointerDown 1 0 0; PointerDown 2 3 4] in
  pinchStart s <> None /\ (2 <= List.length (pointers s))%nat.
Proof.
  intro s.
  assert (P : pinchStart s <> None) by (vm_compute; discriminate).
  split; [exact P|].
  apply (proj1 (proj2 (gesture_cells_consistent floorSqrt sampleRect
                         [FileChange (Some "blob:a"%string); ImgLoad 1000 800;
                          PointerDown 1 0 0; PointerDown 2 3 4]))).
  exact P.
Defined.


(** * The handlers over JavaScript numbers *)

(** ** Runs without a zero divisor *)

Lemma Js_div_Fin (a b : Q) :
  ~ b == 0 -> Js.div (Js.Fin a) (Js.Fin b) = Js.Fin (a / b).
Proof.
  intro H. simpl. destruct (Qeq_bool b 0) eqn:E; [|reflexivity].
  apply Qeq_bool_iff in E. contradiction.
Qed.

Lemma inj_windowBoxes (l : list Box.t) :
  Js.windowBoxes (map inj_box l) = map inj_box (windowBoxes l).
Proof.
  unfold Js.windowBoxes, windowBoxes.
  induction l as [|b l IH]; simpl; [reflexivity|].
  destruct (BoxType_eqb (Box.type b) window); simpl; rewrite IH; reflexivity.
Qed.

Lemma inj_filter (f : Box.t -> bool) (g : Js.Box.t -> bool)
      (l : list Box.t) :
  (forall b, g (inj_box b) = f b) ->
  filter g (map inj_box l) = map inj_box (filter f l).
Proof.
  intro H. induction l as [|b l IH]; simpl; [reflexivity|].
  rewrite H. destruct (f b); simpl; rewrite IH; reflexivity.
Qed.

Lemma inj_map_set (k : Z) (v : Pt.t) (m : list (Z * Pt.t)) :
  Js.map_set k (inj_pt v) (map inj_entry m) = map inj_entry (map_set k v m).
Proof.
  induction m as [|[k' v'] m IH]; simpl; [reflexivity|].
  destruct (Z.eqb k' k); simpl; [reflexivity|]. rewrite IH. reflexivity.
Qed.

Lemma inj_map_delete (k : Z) (m : list (Z * Pt.t)) :
  Js.map_delete k (map inj_entry m) = map inj_entry (map_delete k m).
Proof.
  unfold Js.map_delete, map_delete.
  induction m as [|[k' v'] m IH]; simpl; [reflexivity|].
  destruct (Z.eqb k' k); simpl; rewrite IH; reflexivity.
Qed.

Lemma inj_map_has (k : Z) (m : list (Z * Pt.t)) :
  Js.map_has k (map inj_entry m) = map_has k m.
Proof.
  unfold Js.map_has, map_has.
  induction m as [|[k' v'] m IH]; simpl; [reflexivity|].
  rewrite IH. reflexivity.
Qed.

Lemma inj_map_values (m : list (Z * Pt.t)) :
  Js.map_values (map inj_entry m) = map inj_pt (map_values m).
Proof.
  unfold Js.map_values, map_values. rewrite !map_map. reflexivity.
Qed.

Lemma sum_squares_nonneg (a b : Q) : 0 <= a * a + b * b.
Proof.
  nra.
Qed.

Lemma inj_dist (sqrt : Q -> Q) (jsqrt : Js.num -> Js.num) (a b : Pt.t) :
  sqrtAgrees sqrt jsqrt ->
  Js.dist jsqrt (inj_pt a) (inj_pt b) = Js.Fin (dist sqrt a b).
Proof.
  intro H. unfold Js.dist, dist. simpl. apply H. apply sum_squares_nonneg.
Qed.

Lemma inj_mid (a b : Pt.t) : Js.mid (inj_pt a) (inj_pt b) = inj_pt (mid a b).
Proof.
  reflexivity.
Qed.

Lemma inj_getCanvasAndImageScale (s : State) :
  divisorsOK s ->
  Js.getCanvasAndImageScale (inj s)
  = option_map inj_info (getCanvasAndImageScale s).
Proof.
  intros [Hdw [Hdh [Hn _]]].
  unfold Js.getCanvasAndImageScale, getCanvasAndImageScale.
  change (Js.mounted (inj s)) with (mounted s).
  destruct (negb (mounted s)); [reflexivity|].
  change (Js.imageNatural (inj s)) with (imageNatural s).
  destruct (imageNatural s) as [n|] eqn:En; [|reflexivity].
  destruct (Hn n eq_refl) as [Hw Hh].
  change (Js.canvasRect (inj s)) with (canvasRect s). cbv zeta.
  assert (Ha : 0 < Natural.w n / Natural.h n)
    by (apply Qlt_shift_div_l; [exact Hh|lra]).
  rewrite (Js_div_Fin (Natural.w n) (Natural.h n)) by lra.
  rewrite (Js_div_Fin (DOMRect.width (canvasRect s))
             (DOMRect.height (canvasRect s))) by lra.
  cbn [Js.ltb].
  destruct (Qltb _ _).
  - rewrite (Js_div_Fin _ (Natural.w n / Natural.h n)) by lra.
    cbn [Js.sub].
    rewrite (Js_div_Fin _ 2) by discriminate.
    rewrite (Js_div_Fin _ (Natural.w n)) by lra.
    reflexivity.
  - cbn [Js.mul Js.sub].
    rewrite (Js_div_Fin _ 2) by discriminate.
    rewrite (Js_div_Fin _ (Natural.w n)) by lra.
    reflexivity.
Qed.

Lemma inj_canvasPointToImagePoint (s : State) (cx cy : Q) :
  divisorsOK s ->
  Js.canvasPointToImagePoint (inj s) cx cy
  = option_map inj_pt (canvasPointToImagePoint s cx cy).
Proof.
  intro Hok. pose proof Hok as [Hdw [Hdh [Hn [Hsc _]]]].
  unfold Js.canvasPointToImagePoint, canvasPointToImagePoint.
  rewrite (inj_getCanvasAndImageScale s Hok).
  change (Js.imageNatural (inj s)) with (imageNatural s).
  destruct (getCanvasAndImageScale s) as [info|] eqn:Hinfo; [|reflexivity].
  destruct (imageNatural s) as [n|] eqn:En; [|reflexivity].
  destruct (Hn n eq_refl) as [Hw Hh].
  destruct (baseScale_pos s info n Hinfo En Hw Hh Hdw Hdh) as [Hbs _].
  cbn [option_map inj_info Js.Info.rect Js.Info.baseOffsetX
         Js.Info.baseOffsetY Js.Info.baseScale]. cbv zeta.
  change (Js.view (inj s)) with (inj_view (view s)).
  cbn [inj_view Js.View.scale Js.View.tx Js.View.ty Js.sub].
  rewrite !(Js_div_Fin _ (View.scale (view s))) by lra.
  rewrite !(Js_div_Fin _ (Info.baseScale info)) by lra.
  cbn [Js.ltb].
  destruct (_ || _); [reflexivity|].
  destruct (_ || _); reflexivity.
Qed.

Lemma inj_handlePointerDown (cx cy : Q) (s : State) :
  divisorsOK s ->
  Js.handlePointerDown cx cy (inj s) = inj (handlePointerDown cx cy s).
Proof.
  intro Hok. unfold Js.handlePointerDown, handlePointerDown.
  change (Js.imageUrl (inj s)) with (imageUrl s).
  destruct (String.eqb (imageUrl s) EmptyString); [reflexivity|].
  rewrite (inj_canvasPointToImagePoint s cx cy Hok).
  destruct (canvasPointToImagePoint s cx cy) as [pt|]; [|reflexivity].
  cbn [option_map]. cbv zeta.
  change (Js.boxes (inj s)) with (map inj_box (boxes s)).
  rewrite inj_windowBoxes, length_map. reflexivity.
Qed.

Lemma inj_handlePointerMove (cx cy : Q) (s : State) :
  divisorsOK s ->
  Js.handlePointerMove cx cy (inj s) = inj (handlePointerMove cx cy s).
Proof.
  intro Hok. unfold Js.handlePointerMove, handlePointerMove.
  change (Js.dragStart (inj s)) with (option_map inj_pt (dragStart s)).
  change (Js.draftBox (inj s)) with (option_map inj_box (draftBox s)).
  destruct (dragStart s) as [ds|]; [|reflexivity].
  destruct (draftBox s) as [d|]; [|reflexivity].
  cbn [option_map].
  rewrite (inj_canvasPointToImagePoint s cx cy Hok).
  destruct (canvasPointToImagePoint s cx cy) as [pt|]; reflexivity.
Qed.

Lemma inj_handlePointerUp (uid : string) (s : State) :
  Js.handlePointerUp uid (inj s) = inj (handlePointerUp uid s).
Proof.
  unfold Js.handlePointerUp, handlePointerUp.
  change (Js.draftBox (inj s)) with (option_map inj_box (draftBox s)).
  destruct (draftBox s) as [d|]; [|reflexivity].
  cbn [option_map inj_box Js.Box.w Js.Box.h Js.Box.type Js.ltb].
  destruct (_ || _); [reflexivity|].
  destruct (Box.type d);
    unfold inj, Js.setDragStart, Js.setDraftBox, Js.setBoxes, setDragStart,
      setDraftBox, setBoxes;
    cbn [Js.imageUrl Js.imageNatural Js.boxes Js.activeDrawType Js.dragStart
           Js.draftBox Js.refPreset Js.refRealInches Js.view Js.pointers
           Js.pinchStart Js.canvasRect imageUrl imageNatural boxes
           activeDrawType dragStart draftBox refPreset refRealInches view
           pointers pinchStart canvasRect option_map];
    f_equal; rewrite map_app.
  - f_equal. apply inj_filter. intro b. reflexivity.
  - reflexivity.
Qed.

Lemma inj_onPointerDown (sqrt : Q -> Q) (jsqrt : Js.num -> Js.num)
      (p : Z) (cx cy : Q) (s : State) :
  sqrtAgrees sqrt jsqrt -> divisorsOK s ->
  Js.onPointerDown jsqrt p cx cy (inj s) = inj (onPointerDown sqrt p cx cy s).
Proof.
  intros Hsq Hok. unfold Js.onPointerDown, onPointerDown. cbv zeta.
  change (Js.pointers (inj s)) with (map inj_entry (pointers s)).
  change (Js.Pt.mk (Js.Fin cx) (Js.Fin cy)) with (inj_pt (Pt.mk cx cy)).
  rewrite inj_map_set.
  set (m := map_set p (Pt.mk cx cy) (pointers s)).
  change (Js.setPointers (map inj_entry m) (inj s))
    with (inj (setPointers m s)).
  change (Js.pointers (inj (setPointers m s))) with (map inj_entry m).
  cbn [pointers setPointers]. rewrite length_map, inj_map_values.
  destruct (Nat.eqb (List.length m) 2).
  - destruct (map_values m) as [|p0 [|p1 ps]]; cbn [map]; try reflexivity.
    rewrite (inj_dist sqrt jsqrt p0 p1 Hsq), inj_mid. reflexivity.
  - apply inj_handlePointerDown. exact Hok.
Qed.

Lemma inj_onPointerMove (sqrt : Q -> Q) (jsqrt : Js.num -> Js.num)
      (p : Z) (cx cy : Q) (s : State) :
  sqrtAgrees sqrt jsqrt -> divisorsOK s ->
  Js.onPointerMove jsqrt p cx cy (inj s) = inj (onPointerMove sqrt p cx cy s).
Proof.
  intros Hsq Hok. unfold Js.onPointerMove, onPointerMove. cbv zeta.
  change (Js.pointers (inj s)) with (map inj_entry (pointers s)).
  rewrite inj_map_has.
  destruct (negb (map_has p (pointers s))); [reflexivity|].
  change (Js.Pt.mk (Js.Fin cx) (Js.Fin cy)) with (inj_pt (Pt.mk cx cy)).
  rewrite inj_map_set.
  set (m := map_set p (Pt.mk cx cy) (pointers s)).
  change (Js.setPointers (map inj_entry m) (inj s))
    with (inj (setPointers m s)).
  change (Js.pointers (inj (setPointers m s))) with (map inj_entry m).
  change (Js.pinchStart (inj (setPointers m s)))
    with (option_map inj_pinch (pinchStart s)).
  cbn [pointers pinchStart setPointers].
  rewrite length_map, inj_map_values.
  assert (Hok1 : divisorsOK (setPointers m s)) by exact Hok.
  destruct (Nat.eqb (List.length m) 2);
    [|apply inj_handlePointerMove; exact Hok1].
  destruct (pinchStart s) as [start|] eqn:Es; cbn [option_map];
    [|apply inj_handlePointerMove; exact Hok1].
  destruct (map_values m) as [|p0 [|p1 ps]]; cbn [map];
    try (apply inj_handlePointerMove; exact Hok1).
  assert (Hd : ~ Pinch.dist start == 0).
  { destruct Hok as [_ [_ [_ [_ Hp]]]]. apply Hp. exact Es. }
  rewrite (inj_dist sqrt jsqrt p0 p1 Hsq), inj_mid.
  cbn [inj_pinch Js.Pinch.dist Js.Pinch.scale Js.Pinch.mid Js.Pinch.tx
         Js.Pinch.ty].
  rewrite (Js_div_Fin _ _ Hd). reflexivity.
Qed.

Lemma inj_onPointerUp (p : Z) (uid : string) (s : State) :
  Js.onPointerUp p uid (inj s) = inj (onPointerUp p uid s).
Proof.
  unfold Js.onPointerUp, onPointerUp. cbv zeta.
  change (Js.pointers (inj s)) with (map inj_entry (pointers s)).
  rewrite inj_map_delete.
  set (m := map_delete p (pointers s)).
  change (Js.setPointers (map inj_entry m) (inj s))
    with (inj (setPointers m s)).
  change (Js.pointers (inj (setPointers m s))) with (map inj_entry m).
  cbn [pointers setPointers]. rewrite length_map.
  destruct (Nat.ltb (List.length m) 2).
  - change (Js.setPinchStart None (inj (setPointers m s)))
      with (inj (setPinchStart None (setPointers m s))).
    change (Js.pointers (inj (setPinchStart None (setPointers m s))))
      with (map inj_entry m).
    cbn [pointers setPointers setPinchStart]. rewrite length_map.
    destruct (Nat.eqb (List.length m) 0); [|reflexivity].
    rewrite inj_handlePointerUp. reflexivity.
  - change (Js.pointers (inj (setPointers m s))) with (map inj_entry m).
    cbn [pointers setPointers]. rewrite length_map.
    destruct (Nat.eqb (List.length m) 0); [|reflexivity].
    rewrite inj_handlePointerUp. reflexivity.
Qed.

Lemma inj_step (sqrt : Q -> Q) (jsqrt : Js.num -> Js.num) (s : State)
      (e : Event) :
  sqrtAgrees sqrt jsqrt -> divisorsOK s ->
  Js.step jsqrt (inj s) e = inj (step sqrt s e).
Proof.
  intros Hsq Hok.
  destruct e as [f|nw nh|r|p cx cy|p cx cy|p uid|p| | | | |p|v|id];
    cbn [Js.step step].
  - destruct f; reflexivity.
  - reflexivity.
  - reflexivity.
  - apply inj_onPointerDown; assumption.
  - apply inj_onPointerMove; assumption.
  - apply inj_onPointerUp.
  - reflexivity.
  - reflexivity.
  - reflexivity.
  - reflexivity.
  - reflexivity.
  - destruct p; reflexivity.
  - reflexivity.
  - unfold Js.deleteBox, deleteBox, inj, Js.setBoxes, setBoxes.
    cbn [Js.imageUrl Js.imageNatural Js.boxes Js.activeDrawType Js.dragStart
           Js.draftBox Js.refPreset Js.refRealInches Js.view Js.pointers
           Js.pinchStart Js.canvasRect imageUrl imageNatural boxes
           activeDrawType dragStart draftBox refPreset refRealInches view
           pointers pinchStart canvasRect].
    f_equal. apply inj_filter. intro b. reflexivity.
Qed.

Lemma inj_run (sqrt : Q -> Q) (jsqrt : Js.num -> Js.num) (es : list Event)
      (s : State) :
  sqrtAgrees sqrt jsqrt -> regular sqrt s es ->
  Js.run jsqrt (inj s) es = inj (run sqrt s es).
Proof.
  intro Hsq. revert s. induction es as [|e es IH]; intros s Hreg; simpl.
  - reflexivity.
  - destruct Hreg as [Hok Hreg].
    rewrite (inj_step sqrt jsqrt s e Hsq Hok). apply IH. exact Hreg.
Qed.

Lemma divisorsOKb_sound (s : State) : divisorsOKb s = true -> divisorsOK s.
Proof.
  unfold divisorsOKb, divisorsOK. rewrite !andb_true_iff.
  intros [[[[A B] C] D] E].
  split; [apply (proj1 (Qltb_true _ _)); exact A|].
  split; [apply (proj1 (Qltb_true _ _)); exact B|].
  split; [|split; [apply Qle_bool_iff; exact D|]].
  - intros n Hn. rewrite Hn in C. apply andb_true_iff in C.
    destruct C as [C1 C2].
    split; apply (proj1 (Qltb_true _ _)); assumption.
  - intros p Hp Z. rewrite Hp in E. apply Qeq_bool_iff in Z.
    rewrite Z in E. discriminate E.
Qed.

Lemma regularb_sound (sqrt : Q -> Q) (es : list Event) (s : State) :
  regularb sqrt s es = true -> regular sqrt s es.
Proof.
  revert s. induction es as [|e es IH]; intros s H; simpl in *.
  - exact I.
  - apply andb_true_iff in H. destruct H as [H1 H2].
    split; [apply divisorsOKb_sound; exact H1|apply IH; exact H2].
Qed.

Lemma floorSqrt_agrees : sqrtAgrees floorSqrt Js.floorSqrt.
Proof.
  intros q Hq. unfold Js.floorSqrt, floorSqrt.
  rewrite (proj2 (Qltb_false q 0) Hq). reflexivity.
Qed.

(** X28.  On a run that meets no zero divisor the handlers over
    JavaScript numbers compute what the exact model computes: when the
    canvas and every loaded image have a positive size and no pinch starts
    from two pointers on one point, every cell after the run is the finite
    number of the exact model, and no [NaN] or infinity arises. *)
Theorem Js_run_exact (sqrt : Q -> Q) (jsqrt : Js.num -> Js.num)
        (r : DOMRect.t) (es : list Event) :
  sqrtAgrees sqrt jsqrt ->
  regular sqrt (initialState r) es ->
  Js.run jsqrt (Js.initialState r) es = inj (run sqrt (initialState r) es).
Proof.
  intros Hsq Hreg.
  change (Js.initialState r) with (inj (initialState r)).
  apply inj_run; assumption.
Qed.

Lemma Js_run_exact_witness :
  Js.run Js.floorSqrt (Js.initialState sampleRect) sampleEndToEnd
  = inj (run floorSqrt (initialState sampleRect) sampleEndToEnd).
Proof.
  apply (Js_run_exact floorSqrt Js.floorSqrt sampleRect sampleEndToEnd).
  - exact floorSqrt_agrees.
  - apply regularb_sound. vm_compute. reflexivity.
Defined.

(** ** Bounds on regular runs *)

Lemma inj_minSize (b : Box.t) : Js.minSize (inj_box b) = true <-> minSize b.
Proof.
  unfold Js.minSize, minSize, inj_box.
  cbn [Js.Box.w Js.Box.h Js.leb].
  rewrite andb_true_iff, !Qle_bool_iff. reflexivity.
Qed.

Lemma inj_withinImage (n : Natural.t) (b : Box.t) :
  Js.withinImage n (inj_box b) = true <-> withinImage n b.
Proof.
  unfold Js.withinImage, withinImage, inj_box.
  cbn [Js.Box.x Js.Box.y Js.Box.w Js.Box.h Js.leb Js.add].
  rewrite !andb_true_iff, !Qle_bool_iff. tauto.
Qed.

Lemma inj_inRange (v : View.t) :
  Js.inRange (Js.View.scale (inj_view v)) = true <-> scaleInRange v.
Proof.
  unfold Js.inRange, scaleInRange, inj_view.
  cbn [Js.View.scale Js.leb].
  rewrite andb_true_iff, !Qle_bool_iff. reflexivity.
Qed.

Lemma forallb_inj (f : Js.Box.t -> bool) (P : Box.t -> Prop)
      (bs : list Box.t) :
  (forall b, f (inj_box b) = true <-> P b) ->
  Forall P bs -> forallb f (map inj_box bs) = true.
Proof.
  intros Hf H. induction H as [|b bs Hb _ IH]; simpl.
  - reflexivity.
  - rewrite (proj2 (Hf b) Hb), IH. reflexivity.
Qed.

Lemma Js_handlePointerUp_discards (uid : string) (s : Js.State)
      (d : Js.Box.t) :
  Js.draftBox s = Some d ->
  Js.ltb (Js.Box.w d) (Js.Fin 10) || Js.ltb (Js.Box.h d) (Js.Fin 10) = true ->
  Js.boxes (Js.handlePointerUp uid s) = Js.boxes s /\
  Js.draftBox (Js.handlePointerUp uid s) = None.
Proof.
  intros Hd Ht. unfold Js.handlePointerUp. rewrite Hd, Ht.
  split; reflexivity.
Qed.

(** X30.  Rectangles are committed at the minimum size.  Over JavaScript
    numbers a pointer release that finds a draft of either kind with
    [w < 10] or [h < 10] leaves the committed set as it was and drops the
    draft; and after every run that meets no zero divisor every rectangle
    of the committed set has a finite width and height of at least 10. *)
Theorem committed_at_minimum_size :
  (forall (uid : string) (s : Js.State) (d : Js.Box.t),
     Js.draftBox s = Some d ->
     Js.ltb (Js.Box.w d) (Js.Fin 10) || Js.ltb (Js.Box.h d) (Js.Fin 10)
     = true ->
     Js.boxes (Js.handlePointerUp uid s) = Js.boxes s /\
     Js.draftBox (Js.handlePointerUp uid s) = None)
  /\
  (forall (p : Z) (uid : string) (s : Js.State) (d : Js.Box.t),
     Js.draftBox s = Some d ->
     Js.ltb (Js.Box.w d) (Js.Fin 10) || Js.ltb (Js.Box.h d) (Js.Fin 10)
     = true ->
     Js.boxes (Js.onPointerUp p uid s) = Js.boxes s)
  /\
  (forall (sqrt : Q -> Q) (jsqrt : Js.num -> Js.num) (r : DOMRect.t)
          (es : list Event),
     sqrtAgrees sqrt jsqrt ->
     regular sqrt (initialState r) es ->
     forallb Js.minSize (Js.boxes (Js.run jsqrt (Js.initialState r) es))
     = true).
Proof.
  split; [exact Js_handlePointerUp_discards|]. split.
  - intros p uid s d Hd Ht. unfold Js.onPointerUp. cbv zeta.
    set (s1 := Js.setPointers _ s).
    set (s2 := if Nat.ltb _ 2 then Js.setPinchStart None s1 else s1).
    assert (B2 : Js.boxes s2 = Js.boxes s)
      by (subst s2; destruct (Nat.ltb _ 2); reflexivity).
    assert (D2 : Js.draftBox s2 = Some d)
      by (subst s2; destruct (Nat.ltb _ 2); exact Hd).
    destruct (Nat.eqb _ 0); [|exact B2].
    cbn [Js.boxes Js.setPinchStart Js.setPointers].
    rewrite (proj1 (Js_handlePointerUp_discards uid s2 d D2 Ht)).
    exact B2.
  - intros sqrt jsqrt r es Hsq Hreg.
    change (Js.initialState r) with (inj (initialState r)).
    rewrite (inj_run sqrt jsqrt es (initialState r) Hsq Hreg).
    cbn [inj Js.boxes].
    apply (forallb_inj Js.minSize minSize); [exact inj_minSize|].
    apply run_minSize. constructor.
Qed.

Lemma committed_at_minimum_size_witness :
  forallb Js.minSize
    (Js.boxes (Js.run Js.floorSqrt (Js.initialState sampleRect)
                 sampleEndToEnd))
  = true.
Proof.
  apply (proj2 (proj2 committed_at_minimum_size) floorSqrt Js.floorSqrt
           sampleRect sampleEndToEnd).
  - exact floorSqrt_agrees.
  - apply regularb_sound. vm_compute. reflexivity.
Defined.

Lemma Js_clampScale_inRange (a : Js.num) :
  a <> Js.NaN -> Js.inRange (Js.clampScale a) = true.
Proof.
  intro Ha. destruct a as [q| | |].
  - change (Js.clampScale (Js.Fin q)) with (Js.Fin (clampScale q)).
    unfold Js.inRange. cbn [Js.leb].
    destruct (clampScale_range q) as [L U].
    rewrite (proj2 (Qle_bool_iff _ _) L), (proj2 (Qle_bool_iff _ _) U).
    reflexivity.
  - vm_compute. reflexivity.
  - vm_compute. reflexivity.
  - congruence.
Qed.

(** X29.  The view scale is clamped to [1, 6] wherever the product is a
    number.  Over JavaScript numbers [clampScale] answers a value within
    [1, 6] for every argument other than [NaN], the infinities included,
    and answers [NaN] for [NaN]; from scale 1 a ratio of 10 gives 6 and a
    ratio of 1/100 gives 1.  A pointer move on the pinch path sets the
    scale to [clampScale] of the baseline scale times the ratio of the
    current to the baseline finger distance.  After every run that meets
    no zero divisor the scale of the view is within [1, 6]. *)
Theorem scale_clamped :
  (forall a : Js.num, a <> Js.NaN -> Js.inRange (Js.clampScale a) = true)
  /\
  Js.clampScale Js.NaN = Js.NaN
  /\
  Js.clampScale (Js.mul (Js.Fin 1) (Js.Fin 10)) = Js.Fin 6
  /\
  Js.clampScale (Js.mul (Js.Fin 1) (Js.Fin (1 # 100))) = Js.Fin 1
  /\
  (forall (jsqrt : Js.num -> Js.num) (pointerId : Z) (cx cy : Q)
          (s : Js.State) (start : Js.Pinch.t) (p0 p1 : Js.Pt.t)
          (ps : list Js.Pt.t),
     Js.map_has pointerId (Js.pointers s) = true ->
     List.length
       (Js.map_set pointerId (Js.Pt.mk (Js.Fin cx) (Js.Fin cy))
          (Js.pointers s)) = 2%nat ->
     Js.pinchStart s = Some start ->
     Js.map_values
       (Js.map_set pointerId (Js.Pt.mk (Js.Fin cx) (Js.Fin cy))
          (Js.pointers s)) = p0 :: p1 :: ps ->
     Js.View.scale (Js.view (Js.onPointerMove jsqrt pointerId cx cy s))
     = Js.clampScale
         (Js.mul (Js.Pinch.scale start)
            (Js.div (Js.dist jsqrt p0 p1) (Js.Pinch.dist start))))
  /\
  (forall (sqrt : Q -> Q) (jsqrt : Js.num -> Js.num) (r : DOMRect.t)
          (es : list Event),
     sqrtAgrees sqrt jsqrt ->
     regular sqrt (initialState r) es ->
     Js.inRange
       (Js.View.scale (Js.view (Js.run jsqrt (Js.initialState r) es)))
     = true).
Proof.
  split; [exact Js_clampScale_inRange|].
  split; [reflexivity|].
  split; [vm_compute; reflexivity|].
  split; [vm_compute; reflexivity|].
  split.
  - intros jsqrt pointerId cx cy s start p0 p1 ps Hhas Hlen Hstart Hvals.
    unfold Js.onPointerMove. rewrite Hhas.
    cbn [negb Js.pointers Js.pinchStart Js.setPointers].
    rewrite Hlen, Hstart, Hvals. reflexivity.
  - intros sqrt jsqrt r es Hsq Hreg.
    change (Js.initialState r) with (inj (initialState r)).
    rewrite (inj_run sqrt jsqrt es (initialState r) Hsq Hreg).
    cbn [inj Js.view]. apply (proj2 (inj_inRange _)).
    apply (run_invariant sqrt (fun s => scaleInRange (view s))).
    + apply step_scaleInRange.
    + apply scaleInRange_reset.
Qed.

Lemma scale_clamped_witness :
  Js.inRange
    (Js.View.scale
       (Js.view (Js.run Js.floorSqrt (Js.initialState sampleRect)
                   samplePinchRun)))
  = true.
Proof.
  apply (proj2 (proj2 (proj2 (proj2 (proj2 scale_clamped)))) floorSqrt
           Js.floorSqrt sampleRect samplePinchRun).
  - exact floorSqrt_agrees.
  - apply regularb_sound. vm_compute. reflexivity.
Defined.

(** The pinch of the specification, run over JavaScript numbers: from
    scale 1 and a finger distance of 5, spreading to 50 ends at 6. *)
Example Js_pinch_out_example :
  Js.View.scale
    (Js.view (Js.run Js.floorSqrt (Js.initialState sampleRect)
                samplePinchRun))
  = Js.Fin 6.
Proof.
  vm_compute. reflexivity.
Qed.

(** X27.  In every run that meets no zero divisor and in which each
    [load] event finds the committed set, the drag anchor and the draft
    empty (as they are right after [onFileChange]), every committed
    rectangle lies inside the natural size held in [imageNatural]: over
    exact arithmetic, [0 <= x], [0 <= y], [x + w <= width] and
    [y + h <= height] as comparisons of JavaScript numbers. *)
Theorem run_withinImage (sqrt : Q -> Q) (jsqrt : Js.num -> Js.num)
        (r : DOMRect.t) (es : list Event) (n : Natural.t) :
  sqrtAgrees sqrt jsqrt ->
  regular sqrt (initialState r) es ->
  loadsSettled sqrt (initialState r) es ->
  Js.imageNatural (Js.run jsqrt (Js.initialState r) es) = Some n ->
  forallb (Js.withinImage n)
    (Js.boxes (Js.run jsqrt (Js.initialState r) es)) = true.
Proof.
  intros Hsq Hreg Hl.
  change (Js.initialState r) with (inj (initialState r)).
  rewrite (inj_run sqrt jsqrt es (initialState r) Hsq Hreg).
  cbn [inj Js.boxes Js.imageNatural]. intro Hn.
  apply (forallb_inj (Js.withinImage n) (withinImage n));
    [exact (inj_withinImage n)|].
  apply (run_withinImage_exact sqrt r es n Hl Hn).
Qed.

Lemma run_withinImage_witness :
  forallb (Js.withinImage (Natural.mk 1000 800))
    (Js.boxes (Js.run Js.floorSqrt (Js.initialState sampleRect)
                 sampleRelabel))
  = true.
Proof.
  apply (run_withinImage floorSqrt Js.floorSqrt sampleRect sampleRelabel).
  - exact floorSqrt_agrees.
  - apply regularb_sound. vm_compute. reflexivity.
  - vm_compute. tauto.
  - reflexivity.
Defined.

(** ** Zero divisors *)

Lemma Js_run_app (jsqrt : Js.num -> Js.num) (s : Js.State)
      (a b : list Event) :
  Js.run jsqrt s (a ++ b) = Js.run jsqrt (Js.run jsqrt s a) b.
Proof.
  unfold Js.run. apply fold_left_app.
Qed.

(** The run [sampleCoincident] asks [Math.sqrt] for the root of 0 only. *)
Lemma Js_run_sampleCoincident (jsqrt : Js.num -> Js.num) :
  jsqrt (Js.Fin 0) = Js.Fin 0 ->
  Js.run jsqrt (Js.initialState sampleRect) sampleCoincident
  = sampleCoincidentState.
Proof.
  intro Hs. vm_compute. rewrite !Hs. reflexivity.
Qed.

(** C7.  The viewport scale leaves [1, 6].  Two pointers go down on the
    same point of a loaded photo, so the pinch baseline has distance 0,
    and one of them reports a move on that point: the ratio of the finger
    distances is [0 / 0], which is [NaN], and
    [Math.max(1, Math.min(6, NaN))] is [NaN].  The handler stores it as
    the scale of the view, and [1 <= NaN] is false. *)
Theorem coincident_pinch_scale_NaN (jsqrt : Js.num -> Js.num) :
  jsqrt (Js.Fin 0) = Js.Fin 0 ->
  let s := Js.run jsqrt (Js.initialState sampleRect) sampleCoincident in
  option_map Js.Pinch.scale (Js.pinchStart s) = Some (Js.Fin 1) /\
  option_map Js.Pinch.dist (Js.pinchStart s) = Some (Js.Fin 0) /\
  Js.View.scale (Js.view s)
  = Js.clampScale (Js.mul (Js.Fin 1) (Js.div (Js.Fin 0) (Js.Fin 0))) /\
  Js.View.scale (Js.view s) = Js.NaN /\
  Js.inRange (Js.View.scale (Js.view s)) = false.
Proof.
  intros Hs s. subst s. rewrite (Js_run_sampleCoincident jsqrt Hs).
  repeat split.
Qed.

Lemma coincident_pinch_scale_NaN_witness :
  Js.View.scale
    (Js.view (Js.run Js.floorSqrt (Js.initialState sampleRect)
                sampleCoincident))
  = Js.NaN.
Proof.
  apply (proj1 (proj2 (proj2 (proj2
           (coincident_pinch_scale_NaN Js.floorSqrt eq_refl))))).
Defined.

(** The same start with the second pointer moving away: the ratio is
    [5 / 0], an infinity, and the scale is clamped to 6. *)
Example Js_coincident_spread_example :
  Js.View.scale
    (Js.view (Js.run Js.floorSqrt (Js.initialState sampleRect)
                sampleCoincidentSpread))
  = Js.Fin 6.
Proof.
  vm_compute. reflexivity.
Qed.

(** C2.  A rectangle is committed whose width and height are not at
    least 10.  After the pinch on one point the scale of the view is
    [NaN]; both pointers are released and a rectangle is dragged with one
    pointer.  [canvasPointToImagePoint] divides by the scale, both bounds
    tests are false on [NaN], and it answers the point [(NaN, NaN)]; the
    draft gets [w = h = NaN]; at the release [NaN < 10] is false and
    [handlePointerUp] commits the draft.  The same rectangle is committed
    by a drag over an image whose natural size is 0 x 0, where the base
    scale is [NaN]. *)
Theorem NaN_rectangle_committed (jsqrt : Js.num -> Js.num) :
  jsqrt (Js.Fin 0) = Js.Fin 0 ->
  Js.boxes (Js.run jsqrt (Js.initialState sampleRect) sampleNaNDrag)
  = [sampleNaNBox] /\
  Js.boxes (Js.run jsqrt (Js.initialState sampleRect) sampleEmptyImageDrag)
  = [sampleNaNBox] /\
  Js.minSize sampleNaNBox = false /\
  Js.ltb (Js.Box.w sampleNaNBox) (Js.Fin 10)
  || Js.ltb (Js.Box.h sampleNaNBox) (Js.Fin 10) = false.
Proof.
  intro Hs. split.
  - unfold sampleNaNDrag.
    rewrite Js_run_app, (Js_run_sampleCoincident jsqrt Hs).
    vm_compute. reflexivity.
  - split; [vm_compute; reflexivity|]. split; reflexivity.
Qed.

Lemma NaN_rectangle_committed_witness :
  Js.boxes (Js.run Js.floorSqrt (Js.initialState sampleRect) sampleNaNDrag)
  = [sampleNaNBox].
Proof.
  apply (proj1 (NaN_rectangle_committed Js.floorSqrt eq_refl)).
Defined.
